(** * The URL shortener service (utils/urlShortener.ts) and the analytics
      page's aggregations (pages/Analytics.tsx)

    A shallow embedding of [UrlShortenerService]: the insertion-ordered
    [Map] of shortened URLs, its JSON snapshot in [localStorage], the random
    short-code generator, creation, lookup with lazy expiry, click
    recording, the expired-URL sweep and the top-sources aggregation.

    What belongs to the browser and not to the repository is kept as data of
    the [World]: the wall clock, the random source, the [URL] parser, the
    time zone, the user agent and whether the store is over quota. The
    calls to the logger only append to the logger's own in-memory list and
    are left out of the service; the logger (utils/logger.ts) is embedded
    on its own in [Log]. *)

From Stdlib Require Import ZArith QArith List String Ascii Bool Arith Lia.
From Stdlib Require Import Permutation Sorted DecimalString DecimalPos DecimalZ.
Import ListNotations.

Set Warnings "-register-all".

Local Open Scope string_scope.
Local Open Scope Z_scope.

(* ================================================================== *)
(** ** Strings *)

Module Str.

Definition is_digit (c : ascii) : bool :=
  let n := nat_of_ascii c in ((48 <=? n) && (n <=? 57))%nat.

Definition is_lower (c : ascii) : bool :=
  let n := nat_of_ascii c in ((97 <=? n) && (n <=? 122))%nat.

Definition is_upper (c : ascii) : bool :=
  let n := nat_of_ascii c in ((65 <=? n) && (n <=? 90))%nat.

(** The character class [[a-zA-Z0-9]]. *)
Definition is_alnum (c : ascii) : bool :=
  is_lower c || is_upper c || is_digit c.

Fixpoint forallb (p : ascii -> bool) (s : string) : bool :=
  match s with
  | EmptyString => true
  | String c r => p c && forallb p r
  end.

(** [s.charAt(i)]: the one-character string at [i], the empty string
    when [i] is out of range. *)
Definition charAt (s : string) (i : nat) : string :=
  match String.get i s with
  | Some c => String c EmptyString
  | None => EmptyString
  end.

(** Decimal digit of a value in 0..9. *)
Definition digit (d : Z) : ascii := ascii_of_nat (48 + Z.to_nat d).

(** The [n] low decimal digits of [z], most significant first. *)
Fixpoint pad (n : nat) (z : Z) : string :=
  match n with
  | O => EmptyString
  | S k => pad k (z / 10) ++ String (digit (z mod 10)) EmptyString
  end.

(** Value of a string of decimal digits, [None] when another character
    occurs. *)
Fixpoint digits_from (acc : Z) (s : string) : option Z :=
  match s with
  | EmptyString => Some acc
  | String c r =>
      if is_digit c
      then digits_from (10 * acc + Z.of_nat (nat_of_ascii c - 48)) r
      else None
  end.

Definition digits (s : string) : option Z :=
  match s with
  | EmptyString => None
  | _ => digits_from 0 s
  end.

(** [s.startsWith(p)]. *)
Fixpoint startsWith (p s : string) : bool :=
  match p, s with
  | EmptyString, _ => true
  | String a p', String b s' => Ascii.eqb a b && startsWith p' s'
  | String _ _, EmptyString => false
  end.

(** [s.split(sep)] for a one-character separator. *)
Fixpoint split_acc (sep : ascii) (cur : string) (s : string) : list string :=
  match s with
  | EmptyString => [cur]
  | String c r =>
      if Ascii.eqb c sep
      then cur :: split_acc sep EmptyString r
      else split_acc sep (cur ++ String c EmptyString) r
  end.

Definition split (sep : ascii) (s : string) : list string :=
  split_acc sep EmptyString s.

(** [s.replace(a, b)] for one-character strings: only the first
    occurrence is replaced. *)
Fixpoint replace_first (a b : ascii) (s : string) : string :=
  match s with
  | EmptyString => EmptyString
  | String c r =>
      if Ascii.eqb c a then String b r else String c (replace_first a b r)
  end.

End Str.

(* ================================================================== *)
(** ** JSON values

    [JSON.stringify] and [JSON.parse] are the engine's; the store is
    modelled as holding the value tree that the written text denotes. *)

Inductive json : Type :=
| JNull
| JBool (b : bool)
| JNum (z : Z)
| JStr (s : string)
| JArr (items : list json)
| JObj (fields : list (string * json)).

Module Json.

(** Property read [o[k]] on a parsed value: [None] is [undefined]. *)
Fixpoint assoc (k : string) (fields : list (string * json)) : option json :=
  match fields with
  | [] => None
  | (k', v) :: r => if String.eqb k k' then Some v else assoc k r
  end.

Definition field (k : string) (j : json) : option json :=
  match j with
  | JObj fields => assoc k fields
  | _ => None
  end.

Definition str (j : option json) : option string :=
  match j with Some (JStr s) => Some s | _ => None end.

Definition num (j : option json) : option Z :=
  match j with Some (JNum z) => Some z | _ => None end.

Definition bool (j : option json) : option bool :=
  match j with Some (JBool b) => Some b | _ => None end.

(** Decoding of an array element by element; fails as soon as one
    element does. *)
Fixpoint all {A} (f : json -> option A) (l : list json) : option (list A) :=
  match l with
  | [] => Some []
  | j :: r =>
      match f j, all f r with
      | Some a, Some ar => Some (a :: ar)
      | _, _ => None
      end
  end.

End Json.

(* ================================================================== *)
(** ** Dates

    A [Date] holds a time value in milliseconds since the epoch, or is
    invalid ([None], the time value NaN). *)

Module JSDate.

Definition Date := option Z.

Definition msPerDay : Z := 86400000.
Definition maxTime : Z := 8640000000000000.

(** [new Date(ms)]: TimeClip. *)
Definition ofTime (t : Z) : Date :=
  if (Z.abs t <=? maxTime) then Some t else None.

(** Proleptic Gregorian calendar: day number of a civil date. *)
Definition days_from_civil (y m d : Z) : Z :=
  let y' := if m <=? 2 then y - 1 else y in
  let era := y' / 400 in
  let yoe := y' - era * 400 in
  let mp := if 2 <? m then m - 3 else m + 9 in
  let doy := (153 * mp + 2) / 5 + d - 1 in
  let doe := yoe * 365 + yoe / 4 - yoe / 100 + doy in
  era * 146097 + doe - 719468.

(** Civil date (year, month, day) of a day number. *)
Definition civil_from_days (z0 : Z) : Z * Z * Z :=
  let z := z0 + 719468 in
  let era := z / 146097 in
  let doe := z - era * 146097 in
  let yoe := (doe - doe / 1460 + doe / 36524 - doe / 146096) / 365 in
  let y := yoe + era * 400 in
  let doy := doe - (365 * yoe + yoe / 4 - yoe / 100) in
  let mp := (5 * doy + 2) / 153 in
  let d := doy - (153 * mp + 2) / 5 + 1 in
  let m := if mp <? 10 then mp + 3 else mp - 9 in
  (if m <=? 2 then y + 1 else y, m, d).

Definition year_string (y : Z) : string :=
  if (0 <=? y) && (y <=? 9999) then Str.pad 4 y
  else (if y <? 0 then "-" else "+") ++ Str.pad 6 (Z.abs y).

(** [Date.prototype.toISOString] at a valid time value. *)
Definition iso (t : Z) : string :=
  let day := t / msPerDay in
  let r := t mod msPerDay in
  let '(y, m, d) := civil_from_days day in
  year_string y ++ "-" ++ Str.pad 2 m ++ "-" ++ Str.pad 2 d ++ "T" ++
  Str.pad 2 (r / 3600000) ++ ":" ++ Str.pad 2 (r / 60000 mod 60) ++ ":" ++
  Str.pad 2 (r / 1000 mod 60) ++ "." ++ Str.pad 3 (r mod 1000) ++ "Z".

(** [d.toISOString()]: throws a RangeError ([None]) on an invalid date. *)
Definition toISOString (d : Date) : option string :=
  match d with
  | Some t => Some (iso t)
  | None => None
  end.

Definition days_in_month (y m : Z) : Z :=
  if m =? 2 then
    (if ((y mod 4 =? 0) && negb (y mod 100 =? 0)) || (y mod 400 =? 0)
     then 29 else 28)
  else if (m =? 4) || (m =? 6) || (m =? 9) || (m =? 11) then 30 else 31.

(** The part after the year: [-MM-DDTHH:mm:ss.sssZ]. *)
Definition parse_rest (y : Z) (s : string) : Date :=
  if negb (Nat.eqb (String.length s) 20) then None else
  if negb (String.eqb (substring 0 1 s) "-" && String.eqb (substring 3 1 s) "-"
           && String.eqb (substring 6 1 s) "T" && String.eqb (substring 9 1 s) ":"
           && String.eqb (substring 12 1 s) ":" && String.eqb (substring 15 1 s) "."
           && String.eqb (substring 19 1 s) "Z")
  then None else
  match Str.digits (substring 1 2 s), Str.digits (substring 4 2 s),
        Str.digits (substring 7 2 s), Str.digits (substring 10 2 s),
        Str.digits (substring 13 2 s), Str.digits (substring 16 3 s) with
  | Some m, Some d, Some h, Some mi, Some sec, Some ms =>
      if (1 <=? m) && (m <=? 12) && (1 <=? d) && (d <=? days_in_month y m)
         && (h <=? 23) && (mi <=? 59) && (sec <=? 59)
      then ofTime (days_from_civil y m d * msPerDay
                   + h * 3600000 + mi * 60000 + sec * 1000 + ms)
      else None
  | _, _, _, _, _, _ => None
  end.

(** [new Date(s)] for the strings that [toISOString] writes, the four-digit
    year form [YYYY-MM-DDTHH:mm:ss.sssZ] and the signed six-digit one,
    which is the only form the service ever stores. The other spellings an
    engine's [Date.parse] accepts (a date without a time, a time without
    milliseconds, an offset, a day past the month's end) come out as
    [None] here, as the strings do that no engine reads; a statement that
    decides on a stored string therefore holds only for strings with
    [parse s <> None]. *)
Definition parse (s : string) : Date :=
  match s with
  | String c r =>
      if Ascii.eqb c "+" || Ascii.eqb c "-" then
        match Str.digits (substring 0 6 r) with
        | Some y =>
            if Ascii.eqb c "-" && (y =? 0) then None
            else parse_rest (if Ascii.eqb c "-" then - y else y)
                            (substring 6 (String.length r - 6) r)
        | None => None
        end
      else
        match Str.digits (substring 0 4 s) with
        | Some y => parse_rest y (substring 4 (String.length s - 4) s)
        | None => None
        end
  | EmptyString => None
  end.

(** [a < b] on dates: a comparison with an invalid date is false. *)
Definition lt (a b : Date) : bool :=
  match a, b with
  | Some x, Some y => x <? y
  | _, _ => false
  end.

(** [d.getTime()] where the caller subtracts two of them; an invalid
    date gives NaN ([None]). *)
Definition getTime (d : Date) : option Z := d.

End JSDate.

(* ================================================================== *)
(** ** Numbers

    A request carries [validityMinutes] as a JavaScript number. A finite
    double is a rational; the arithmetic done on it here (one comparison
    with zero, an integrality test and a product that is exact whenever
    the resulting date is valid) is written on rationals. *)

Inductive number : Type :=
| NaN
| Infinity
| NegInfinity
| Finite (q : Q).

Module Number.

(** ToBoolean on a number: [0], [-0] and [NaN] are falsy. *)
Definition truthy (n : number) : bool :=
  match n with
  | NaN => false
  | Finite q => negb (Qeq_bool q 0)
  | _ => true
  end.

(** [n <= 0]. *)
Definition le0 (n : number) : bool :=
  match n with
  | NaN | Infinity => false
  | NegInfinity => true
  | Finite q => Qle_bool q 0
  end.

Definition isInteger (n : number) : bool :=
  match n with
  | Finite q => Qnum q mod Zpos (Qden q) =? 0
  | _ => false
  end.

(** The integer a number that passed [isInteger] stands for. *)
Definition toZ (n : number) : Z :=
  match n with
  | Finite q => Qnum q / Zpos (Qden q)
  | _ => 0
  end.

Definition ofZ (z : Z) : number := Finite (inject_Z z).

(** Template-literal rendering of an integer time value. *)
Definition string_of_Z (z : Z) : string :=
  NilZero.string_of_int (Z.to_int z).

End Number.

(* ================================================================== *)
(** ** Map<string, V>

    A JavaScript [Map] iterates in insertion order: [set] on a present key
    keeps its position, [set] on an absent key appends, [delete] removes. *)

Module JSMap.

Section Ops.
Context {V : Type}.

Definition t := list (string * V).

Definition empty : t := [].

Fixpoint get (m : t) (k : string) : option V :=
  match m with
  | [] => None
  | (k', v) :: r => if String.eqb k k' then Some v else get r k
  end.

Definition has (m : t) (k : string) : bool :=
  match get m k with Some _ => true | None => false end.

Fixpoint set (m : t) (k : string) (v : V) : t :=
  match m with
  | [] => [(k, v)]
  | (k', v') :: r =>
      if String.eqb k k' then (k', v) :: r else (k', v') :: set r k v
  end.

Fixpoint delete (m : t) (k : string) : t :=
  match m with
  | [] => []
  | (k', v') :: r =>
      if String.eqb k k' then r else (k', v') :: delete r k
  end.

Definition entries (m : t) : list (string * V) := m.
Definition keys (m : t) : list string := List.map fst m.
Definition values (m : t) : list V := List.map snd m.
Definition size (m : t) : nat := List.length m.

(** [new Map(iterable)]: the pairs are [set] one after the other. *)
Definition ofEntries (l : list (string * V)) : t :=
  fold_left (fun m kv => set m (fst kv) (snd kv)) l empty.

(** The keys of a map are pairwise distinct. *)
Definition wf (m : t) : Prop := NoDup (keys m).

End Ops.

Arguments t : clear implicits.

End JSMap.

(* ================================================================== *)
(** ** Array.prototype.sort

    The sort is stable; [cmp a b <= 0] keeps [a] before [b]. *)

Module JSArray.

Section Sort.
Context {A : Type} (cmp : A -> A -> Z).

Fixpoint insert (x : A) (l : list A) : list A :=
  match l with
  | [] => [x]
  | y :: r => if cmp x y <=? 0 then x :: y :: r else y :: insert x r
  end.

Definition sort (l : list A) : list A := fold_right insert [] l.

End Sort.

(** [a.slice(0, n)]. *)
Definition slice0 {A} (n : nat) (l : list A) : list A := firstn n l.

End JSArray.

(* ================================================================== *)
(** ** The data of utils/urlShortener.ts *)

Record ClickData : Type := {
  timestamp : string;
  source : string;
  location : string;
  userAgent : string;
  ipHash : option string
}.

(** [createdAt] and [expiresAt] hold ISO-8601 strings. [validityMinutes] is
    a number in the source; only integers are ever stored. *)
Record ShortenedUrl : Type := {
  id : string;
  originalUrl : string;
  shortCode : string;
  customShortCode : option string;
  createdAt : string;
  expiresAt : string;
  validityMinutes : Z;
  clicks : list ClickData;
  isExpired : bool
}.

Module Request.

(** The optional fields are [None] when the property is [undefined]. *)
Record CreateUrlRequest : Type := {
  originalUrl : string;
  validityMinutes : option number;
  customShortCode : option string
}.

End Request.

(** The objects [{ success: true, ... }] and [{ success: false, error }]
    that the public methods return. *)
Inductive Result (A : Type) : Type :=
| Success (value : A)
| Failure (error : string).

Arguments Success {A} value.
Arguments Failure {A} error.

(** The value of a call as JavaScript sees it, for the methods declared
    [void]. *)
Inductive value : Type :=
| VUndefined
| VNumber (n : Z).

(* ================================================================== *)
(** ** The browser and the service instance *)

Record World : Type := {
  (** [this.urls] *)
  urls : JSMap.t ShortenedUrl;
  (** [localStorage], key by key *)
  localStorage : JSMap.t json;
  (** [localStorage.setItem] throws (QuotaExceededError) *)
  quotaExceeded : bool;
  (** the time value the [n]-th reading of the clock returns *)
  clock : nat -> Z;
  ticks : nat;
  (** the [n]-th [Math.random()] as the code looks at it: through
      [Math.floor(r * chars.length)], an index in 0..61 for every double
      below one, and through [r.toString(36)] *)
  random : nat -> nat;
  toString36 : nat -> string;
  draws : nat;
  (** [new URL(s).protocol], [None] when the constructor throws *)
  URL_protocol : string -> option string;
  (** [Intl.DateTimeFormat().resolvedOptions().timeZone] *)
  timeZone : string;
  (** [navigator.userAgent] *)
  navigator_userAgent : string
}.

Definition set_urls (w : World) (m : JSMap.t ShortenedUrl) : World :=
  {| urls := m; localStorage := localStorage w;
     quotaExceeded := quotaExceeded w; clock := clock w; ticks := ticks w;
     random := random w; toString36 := toString36 w; draws := draws w;
     URL_protocol := URL_protocol w; timeZone := timeZone w;
     navigator_userAgent := navigator_userAgent w |}.

Definition set_localStorage (w : World) (s : JSMap.t json) : World :=
  {| urls := urls w; localStorage := s;
     quotaExceeded := quotaExceeded w; clock := clock w; ticks := ticks w;
     random := random w; toString36 := toString36 w; draws := draws w;
     URL_protocol := URL_protocol w; timeZone := timeZone w;
     navigator_userAgent := navigator_userAgent w |}.

Definition tick (w : World) : World :=
  {| urls := urls w; localStorage := localStorage w;
     quotaExceeded := quotaExceeded w; clock := clock w; ticks := S (ticks w);
     random := random w; toString36 := toString36 w; draws := draws w;
     URL_protocol := URL_protocol w; timeZone := timeZone w;
     navigator_userAgent := navigator_userAgent w |}.

Definition draw (w : World) : World :=
  {| urls := urls w; localStorage := localStorage w;
     quotaExceeded := quotaExceeded w; clock := clock w; ticks := ticks w;
     random := random w; toString36 := toString36 w; draws := S (draws w);
     URL_protocol := URL_protocol w; timeZone := timeZone w;
     navigator_userAgent := navigator_userAgent w |}.

(** [new Date()] and [Date.now()]: the current time value. *)
Definition Date_now (w : World) : Z * World := (clock w (ticks w), tick w).

(** [Math.floor(Math.random() * chars.length)]. *)
Definition Math_random_index (w : World) : nat * World :=
  (random w (draws w), draw w).

(** [Math.random().toString(36).substr(2, n)]. *)
Definition Math_random_token (n : nat) (w : World) : string * World :=
  (substring 2 n (toString36 w (draws w)), draw w).

Definition set_isExpired (u : ShortenedUrl) (b : bool) : ShortenedUrl :=
  {| id := id u; originalUrl := originalUrl u; shortCode := shortCode u;
     customShortCode := customShortCode u; createdAt := createdAt u;
     expiresAt := expiresAt u; validityMinutes := validityMinutes u;
     clicks := clicks u; isExpired := b |}.

(** [url.clicks.push(c)]. *)
Definition push_click (u : ShortenedUrl) (c : ClickData) : ShortenedUrl :=
  {| id := id u; originalUrl := originalUrl u; shortCode := shortCode u;
     customShortCode := customShortCode u; createdAt := createdAt u;
     expiresAt := expiresAt u; validityMinutes := validityMinutes u;
     clicks := clicks u ++ [c]; isExpired := isExpired u |}.

(* ================================================================== *)
(** ** The stored snapshot *)

Module Snapshot.

(** A property whose value is [undefined] is left out by
    [JSON.stringify]. *)
Definition optional (k : string) (v : option string) : list (string * json) :=
  match v with
  | Some s => [(k, JStr s)]
  | None => []
  end.

Definition click_json (c : ClickData) : json :=
  JObj ([("timestamp", JStr (timestamp c)); ("source", JStr (source c));
         ("location", JStr (location c)); ("userAgent", JStr (userAgent c))]
        ++ optional "ipHash" (ipHash c)).

Definition url_json (u : ShortenedUrl) : json :=
  JObj ([("id", JStr (id u)); ("originalUrl", JStr (originalUrl u));
         ("shortCode", JStr (shortCode u))]
        ++ optional "customShortCode" (customShortCode u)
        ++ [("createdAt", JStr (createdAt u));
            ("expiresAt", JStr (expiresAt u));
            ("validityMinutes", JNum (validityMinutes u));
            ("clicks", JArr (List.map click_json (clicks u)));
            ("isExpired", JBool (isExpired u))]).

(** One element of [Array.from(this.urls.entries())]. *)
Definition entry_json (kv : string * ShortenedUrl) : json :=
  JArr [JStr (fst kv); url_json (snd kv)].

(** An optional string property read back: absent, or a string. *)
Definition read_optional (j : option json) : option (option string) :=
  match j with
  | None => Some None
  | Some (JStr s) => Some (Some s)
  | Some _ => None
  end.

(** The parsed objects seen at the types the interfaces declare; [None]
    for a value that is not of that shape. *)
Definition click_of_json (j : json) : option ClickData :=
  match Json.str (Json.field "timestamp" j), Json.str (Json.field "source" j),
        Json.str (Json.field "location" j), Json.str (Json.field "userAgent" j),
        read_optional (Json.field "ipHash" j) with
  | Some t, Some s, Some l, Some a, Some h =>
      Some {| timestamp := t; source := s; location := l; userAgent := a;
              ipHash := h |}
  | _, _, _, _, _ => None
  end.

Definition clicks_of_json (j : option json) : option (list ClickData) :=
  match j with
  | Some (JArr items) => Json.all click_of_json items
  | _ => None
  end.

Definition url_of_json (j : json) : option ShortenedUrl :=
  match Json.str (Json.field "id" j), Json.str (Json.field "originalUrl" j),
        Json.str (Json.field "shortCode" j),
        read_optional (Json.field "customShortCode" j),
        Json.str (Json.field "createdAt" j), Json.str (Json.field "expiresAt" j),
        Json.num (Json.field "validityMinutes" j),
        clicks_of_json (Json.field "clicks" j),
        Json.bool (Json.field "isExpired" j) with
  | Some i, Some o, Some s, Some c, Some ca, Some ea, Some v, Some cl, Some e =>
      Some {| id := i; originalUrl := o; shortCode := s; customShortCode := c;
              createdAt := ca; expiresAt := ea; validityMinutes := v;
              clicks := cl; isExpired := e |}
  | _, _, _, _, _, _, _, _, _ => None
  end.

(** An element of the stored array as [new Map] reads it: its
    properties [0] and [1]. *)
Definition entry_of_json (j : json) : option (string * ShortenedUrl) :=
  let '(k, v) :=
    match j with
    | JArr items => (List.nth_error items 0, List.nth_error items 1)
    | JObj fields => (Json.assoc "0" fields, Json.assoc "1" fields)
    | _ => (None, None)
    end in
  match k, v with
  | Some (JStr k), Some v =>
      match url_of_json v with
      | Some u => Some (k, u)
      | None => None
      end
  | _, _ => None
  end.

(** ToBoolean on a parsed value. *)
Definition truthy (j : json) : bool :=
  match j with
  | JNull => false
  | JBool b => b
  | JNum z => negb (z =? 0)
  | JStr s => negb (String.eqb s "")
  | _ => true
  end.

End Snapshot.

(* ================================================================== *)
(** ** class UrlShortenerService *)

Definition STORAGE_KEY : string := "url_shortener_data".
Definition DEFAULT_VALIDITY_MINUTES : number := Number.ofZ 30.
Definition SHORTCODE_LENGTH : nat := 6.

(** The messages of the failures; the names are the ones the specification
    gives to the failures. *)
Definition InvalidUrl : string :=
  "Invalid URL format. Please provide a valid HTTP or HTTPS URL.".
Definition InvalidValidity : string :=
  "Validity must be a positive integer representing minutes.".
Definition InvalidShortCode : string :=
  "Invalid shortcode. Must be 3-20 alphanumeric characters.".
Definition DuplicateShortCode : string :=
  "Shortcode already exists. Please choose a different one.".
Definition UnexpectedError : string :=
  "An unexpected error occurred while creating the shortened URL.".
Definition NotFound : string := "Short URL not found.".
Definition Expired : string := "Short URL has expired.".

(** The object written under [STORAGE_KEY]. *)
Definition snapshot (m : JSMap.t ShortenedUrl) (lastUpdated : string) : json :=
  JObj [("urls", JArr (List.map Snapshot.entry_json (JSMap.entries m)));
        ("lastUpdated", JStr lastUpdated)].

(** [saveToStorage]: a throwing [setItem] is caught and the store keeps
    what it had. *)
Definition saveToStorage (w : World) : World :=
  let '(now, w1) := Date_now w in
  let data := snapshot (urls w1) (JSDate.iso now) in
  if quotaExceeded w1 then w1
  else set_localStorage w1 (JSMap.set (localStorage w1) STORAGE_KEY data).

(** What [new Map(data.urls || [])] makes of the parsed [data]. *)
Inductive loaded : Type :=
| Loaded (m : JSMap.t ShortenedUrl)  (** the new value of [this.urls] *)
| Thrown                             (** a TypeError, caught *)
| Untyped.                           (** entries that are not of the declared types *)

Definition read_snapshot (data : json) : loaded :=
  match data with
  | JNull => Thrown
  | _ =>
      match Json.field "urls" data with
      | None => Loaded JSMap.empty
      | Some u =>
          if negb (Snapshot.truthy u) then Loaded JSMap.empty
          else match u with
               | JArr items =>
                   if List.forallb (fun j => match j with
                                             | JArr _ | JObj _ => true
                                             | _ => false
                                             end) items
                   then match Json.all Snapshot.entry_of_json items with
                        | Some l => Loaded (JSMap.ofEntries l)
                        | None => Untyped
                        end
                   else Thrown
               | _ => Thrown
               end
      end
  end.

(** [loadFromStorage]; [None] when the stored entries are outside the
    declared types. *)
Definition loadFromStorage (w : World) : option World :=
  match JSMap.get (localStorage w) STORAGE_KEY with
  | None => Some w
  | Some data =>
      match read_snapshot data with
      | Loaded m => Some (set_urls w m)
      | Thrown => Some w
      | Untyped => None
      end
  end.

(** The constructor: an empty map, then [loadFromStorage]. *)
Definition construct (w : World) : option World :=
  loadFromStorage (set_urls w JSMap.empty).

Definition isValidUrl (w : World) (url : string) : bool :=
  match URL_protocol w url with
  | Some protocol => List.existsb (String.eqb protocol) ["http:"; "https:"]
  | None => false
  end.

(** The regular expression [/^[a-zA-Z0-9]+$/]. *)
Definition alphanumericRegex_test (s : string) : bool :=
  negb (String.eqb s "") && Str.forallb Str.is_alnum s.

Definition isValidShortCode (shortCode : string) : bool :=
  let isValidLength :=
    ((3 <=? String.length shortCode) && (String.length shortCode <=? 20))%nat in
  let isAlphanumeric := alphanumericRegex_test shortCode in
  isValidLength && isAlphanumeric.

Definition chars : string :=
  "abcdefghijklmnopqrstuvwxyzABCDEFGHIJKLMNOPQRSTUVWXYZ0123456789".

(** The inner [for] loop: [n] more characters appended to [result]. *)
Fixpoint draw_chars (n : nat) (result : string) (w : World) : string * World :=
  match n with
  | O => (result, w)
  | S k =>
      let '(i, w1) := Math_random_index w in
      draw_chars k (result ++ Str.charAt chars i) w1
  end.

(** [generateShortCode]: the [do ... while] loop runs at most [fuel]
    times; [None] when it has not ended by then. *)
Fixpoint generateShortCode (fuel : nat) (w : World) : option (string * World) :=
  match fuel with
  | O => None
  | S fuel' =>
      let '(result, w1) := draw_chars SHORTCODE_LENGTH "" w in
      if JSMap.has (urls w1) result then generateShortCode fuel' w1
      else Some (result, w1)
  end.

Definition isShortCodeUnique (w : World) (shortCode : string) : bool :=
  negb (JSMap.has (urls w) shortCode).

(** [request.validityMinutes || DEFAULT_VALIDITY_MINUTES]. *)
Definition validity_or_default (v : option number) : number :=
  match v with
  | Some n => if Number.truthy n then n else DEFAULT_VALIDITY_MINUTES
  | None => DEFAULT_VALIDITY_MINUTES
  end.

(** The test [if (request.customShortCode)]: [undefined] and the empty
    string are falsy. *)
Definition given (c : option string) : option string :=
  match c with
  | Some s => if String.eqb s "" then None else Some s
  | None => None
  end.

(** The end of [createShortenedUrl], from the construction of the object
    on. [expiresAt.toISOString()] throws on an invalid date; the [catch]
    turns that into the last failure. *)
Definition store (request : Request.CreateUrlRequest) (validityMinutes : number)
    (code : string) (w : World) : Result ShortenedUrl * World :=
  let '(now, w1) := Date_now w in
  let expires := JSDate.ofTime (now + Number.toZ validityMinutes * 60 * 1000) in
  let '(idNow, w2) := Date_now w1 in
  let '(token, w3) := Math_random_token 9 w2 in
  match JSDate.toISOString expires with
  | None => (Failure UnexpectedError, w3)
  | Some expiresIso =>
      let shortenedUrl :=
        {| id := "url_" ++ Number.string_of_Z idNow ++ "_" ++ token;
           originalUrl := Request.originalUrl request;
           shortCode := code;
           customShortCode := Request.customShortCode request;
           createdAt := JSDate.iso now;
           expiresAt := expiresIso;
           validityMinutes := Number.toZ validityMinutes;
           clicks := [];
           isExpired := false |} in
      let w4 := set_urls w3 (JSMap.set (urls w3) code shortenedUrl) in
      (Success shortenedUrl, saveToStorage w4)
  end.

Definition createShortenedUrl (fuel : nat) (request : Request.CreateUrlRequest)
    (w : World) : option (Result ShortenedUrl * World) :=
  if negb (isValidUrl w (Request.originalUrl request))
  then Some (Failure InvalidUrl, w)
  else
    let validityMinutes := validity_or_default (Request.validityMinutes request) in
    if Number.le0 validityMinutes || negb (Number.isInteger validityMinutes)
    then Some (Failure InvalidValidity, w)
    else
      match given (Request.customShortCode request) with
      | Some custom =>
          if negb (isValidShortCode custom)
          then Some (Failure InvalidShortCode, w)
          else if negb (isShortCodeUnique w custom)
          then Some (Failure DuplicateShortCode, w)
          else Some (store request validityMinutes custom w)
      | None =>
          match generateShortCode fuel w with
          | Some (code, w1) => Some (store request validityMinutes code w1)
          | None => None
          end
      end.

(** [new Date(url.expiresAt) < now]. *)
Definition expired_at (now : Z) (url : ShortenedUrl) : bool :=
  JSDate.lt (JSDate.parse (expiresAt url)) (Some now).

Definition getShortenedUrl (code : string) (w : World)
  : option ShortenedUrl * World :=
  match JSMap.get (urls w) code with
  | None => (None, w)
  | Some url =>
      let '(now, w1) := Date_now w in
      if expired_at now url && negb (isExpired url)
      then
        let url' := set_isExpired url true in
        let w2 := set_urls w1 (JSMap.set (urls w1) code url') in
        (Some url', saveToStorage w2)
      else (Some url, w1)
  end.

Definition getCoarseLocation (w : World) : string :=
  match Str.split "/" (timeZone w) with
  | _ :: part :: _ => Str.replace_first "_" " " part
  | _ => "Unknown"
  end.

Definition generateIpHash (w : World) : string * World :=
  let '(token, w1) := Math_random_token 8 w in ("hash_" ++ token, w1).

(** [src] is [None] when the caller leaves the argument out. *)
Definition accessShortenedUrl (code : string) (src : option string) (w : World)
  : Result string * World :=
  let src := match src with Some s => s | None => "direct" end in
  let '(found, w1) := getShortenedUrl code w in
  match found with
  | None => (Failure NotFound, w1)
  | Some url =>
      if isExpired url then (Failure Expired, w1)
      else
        let '(now, w2) := Date_now w1 in
        let loc := getCoarseLocation w2 in
        let '(hash, w3) := generateIpHash w2 in
        let clickData :=
          {| timestamp := JSDate.iso now; source := src; location := loc;
             userAgent := navigator_userAgent w3; ipHash := Some hash |} in
        let url' := push_click url clickData in
        let w4 := set_urls w3 (JSMap.set (urls w3) code url') in
        (Success (originalUrl url), saveToStorage w4)
  end.

(** The comparator of [getAllUrls]; a NaN difference counts as zero. *)
Definition newest_first (a b : ShortenedUrl) : Z :=
  match JSDate.getTime (JSDate.parse (createdAt b)),
        JSDate.getTime (JSDate.parse (createdAt a)) with
  | Some tb, Some ta => tb - ta
  | _, _ => 0
  end.

Definition getAllUrls (w : World) : list ShortenedUrl :=
  JSArray.sort newest_first (JSMap.values (urls w)).

(** The [for ... of] loop of [cleanupExpiredUrls] over the entries, with
    the map and [cleanedCount] as it goes. *)
Definition sweep (now : Z) (entries : list (string * ShortenedUrl))
    (m : JSMap.t ShortenedUrl) : JSMap.t ShortenedUrl * Z :=
  List.fold_left
    (fun acc kv =>
       if expired_at now (snd kv)
       then (JSMap.delete (fst acc) (fst kv), snd acc + 1)
       else acc)
    entries (m, 0).

Definition cleanupExpiredUrls (w : World) : value * World :=
  let '(now, w1) := Date_now w in
  let '(m, cleanedCount) := sweep now (JSMap.entries (urls w1)) (urls w1) in
  let w2 := set_urls w1 m in
  if 0 <? cleanedCount then (VUndefined, saveToStorage w2) else (VUndefined, w2).

(* ================================================================== *)
(** ** Counting by source

    [getTopSources] of the service and of pages/Analytics.tsx count into a
    plain object [{}] and read it back with [Object.entries]. *)

Module JSObject.

(** The property names every plain object inherits. *)
Definition prototype_names : list string :=
  ["constructor"; "__defineGetter__"; "__defineSetter__"; "hasOwnProperty";
   "__lookupGetter__"; "__lookupSetter__"; "isPrototypeOf";
   "propertyIsEnumerable"; "toString"; "valueOf"; "__proto__";
   "toLocaleString"].

Definition inherited (k : string) : bool :=
  List.existsb (String.eqb k) prototype_names.

(** The value of an array index: a canonical decimal numeral below
    [2^32 - 1]. *)
Definition array_index (k : string) : option Z :=
  match Str.digits k with
  | Some n =>
      if (n <=? 4294967294) && String.eqb (Number.string_of_Z n) k
      then Some n else None
  | None => None
  end.

Definition is_array_index (k : string) : bool :=
  match array_index k with Some _ => true | None => false end.

(** Own properties with number values, in creation order. *)
Definition t := list (string * Z).

(** [acc[k] = (acc[k] || 0) + 1] where [k] is not inherited. *)
Fixpoint bump (k : string) (acc : t) : t :=
  match acc with
  | [] => [(k, 1)]
  | (k', n) :: r =>
      if String.eqb k k' then (k', n + 1) :: r else (k', n) :: bump k r
  end.

Definition by_index (a b : string * Z) : Z :=
  match array_index (fst a), array_index (fst b) with
  | Some x, Some y => x - y
  | _, _ => 0
  end.

(** [Object.entries(o)]: the array indices in ascending order, then the
    other names in creation order. *)
Definition entries (o : t) : list (string * Z) :=
  JSArray.sort by_index (List.filter (fun kv => is_array_index (fst kv)) o)
  ++ List.filter (fun kv => negb (is_array_index (fst kv))) o.

End JSObject.

(** The objects [{ source, count }]. *)
Record SourceCount : Type := {
  name : string;
  count : Z
}.

(** The [reduce] over the clicks. *)
Definition sourceCounts (cs : list ClickData) : JSObject.t :=
  List.fold_left (fun acc click => JSObject.bump (source click) acc) cs [].

(** The comparator [(a, b) => b.count - a.count]. *)
Definition by_count (a b : SourceCount) : Z := count b - count a.

(** [getTopSources(clicks)] of the service. A source that names an
    inherited property makes [acc[k]] a function and the count a string;
    such inputs are outside the model ([None]). *)
Definition getTopSources (cs : list ClickData) : option (list SourceCount) :=
  if List.existsb (fun c => JSObject.inherited (source c)) cs then None
  else
    Some (JSArray.slice0 5
            (JSArray.sort by_count
               (List.map (fun kv => {| name := fst kv; count := snd kv |})
                  (JSObject.entries (sourceCounts cs))))).

Module Analytics.

(** [getTopSources] of the page, on the filtered URLs. *)
Definition getTopSources (filteredUrls : list ShortenedUrl)
  : option (list SourceCount) :=
  let allClicks := List.flat_map clicks filteredUrls in
  getTopSources allClicks.

End Analytics.

(* ================================================================== *)
(** ** The aggregation as the specification words it *)

Module Spec.

(** The distinct elements in first-encountered order. *)
Fixpoint first_seen (seen : list string) (l : list string) : list string :=
  match l with
  | [] => []
  | s :: r =>
      if List.existsb (String.eqb s) seen then first_seen seen r
      else s :: first_seen (s :: seen) r
  end.

Definition occurrences (s : string) (l : list string) : Z :=
  Z.of_nat (List.length (List.filter (String.eqb s) l)).

(** Grouping by source in first-encountered order, with the counts. *)
Definition grouped (l : list string) : list SourceCount :=
  List.map (fun s => {| name := s; count := occurrences s l |})
           (first_seen [] l).

(** Descending by count; among equal counts the order of [grouped]. *)
Definition topSources (links : list ShortenedUrl) (n : nat)
  : list SourceCount :=
  JSArray.slice0 n
    (JSArray.sort by_count
       (grouped (List.map source (List.flat_map clicks links)))).

End Spec.

(* ================================================================== *)
(** ** Views of the map used in the statements *)

(** The clicks of every record, entry by entry. *)
Definition clicks_view (m : JSMap.t ShortenedUrl)
  : list (string * list ClickData) :=
  List.map (fun kv => (fst kv, clicks (snd kv))) m.

(** The record under [k] is there and flagged expired. *)
Definition flagged_expired (m : JSMap.t ShortenedUrl) (k : string) : Prop :=
  exists u, JSMap.get m k = Some u /\ isExpired u = true.

(** Two worlds that differ at most in how far the random source has been
    read. *)
Definition same_service (w w' : World) : Prop :=
  urls w' = urls w /\ localStorage w' = localStorage w /\
  quotaExceeded w' = quotaExceeded w /\ clock w' = clock w /\
  ticks w' = ticks w /\ random w' = random w.

(** [w'] is [w] after a run that changed the map to [m] and then called
    [saveToStorage], the store untouched until then. *)
Definition ends_with_save (w w' : World) (m : JSMap.t ShortenedUrl) : Prop :=
  exists w0,
    w' = saveToStorage w0 /\ urls w0 = m /\ clock w0 = clock w /\
    quotaExceeded w0 = quotaExceeded w /\ localStorage w0 = localStorage w.

(** A string of 3 to 20 alphanumeric characters. *)
Definition alphanumeric_3_20 (s : string) : Prop :=
  (3 <= String.length s <= 20)%nat /\
  forall c, In c (list_ascii_of_string s) -> Str.is_alnum c = true.

(** The time value of the expiry date of a link created at [now]. *)
Definition expiry_time (now : Z) (validityMinutes : number) : Z :=
  now + Number.toZ validityMinutes * 60 * 1000.

(** The world after [n] more readings of the random source. *)
Fixpoint draw_n (n : nat) (w : World) : World :=
  match n with
  | O => w
  | S k => draw_n k (draw w)
  end.

(** The string the [n]-th round of the generator's loop builds (the first
    round is round 0). *)
Definition candidate (w : World) (n : nat) : string :=
  fst (draw_chars SHORTCODE_LENGTH "" (draw_n (SHORTCODE_LENGTH * n) w)).

(** Every character of [s] is one of [chars]. *)
Definition over_chars (s : string) : bool :=
  Str.forallb (fun c => List.existsb (Ascii.eqb c) (list_ascii_of_string chars)) s.

(** What one operation can do to the map. *)
Inductive map_step (m : JSMap.t ShortenedUrl) : JSMap.t ShortenedUrl -> Prop :=
| ms_same : map_step m m
| ms_insert code u :
    JSMap.has m code = false -> isExpired u = false -> clicks u = [] ->
    map_step m (JSMap.set m code u)
| ms_flip code url :
    JSMap.get m code = Some url -> isExpired url = false ->
    map_step m (JSMap.set m code (set_isExpired url true))
| ms_click code url c :
    JSMap.get m code = Some url -> isExpired url = false ->
    map_step m (JSMap.set m code (push_click url c))
| ms_purge now :
    map_step m (List.filter (fun kv => negb (expired_at now (snd kv))) m).

(* ================================================================== *)
(** ** Sequences of operations *)

Inductive Op : Type :=
| Create (request : Request.CreateUrlRequest)
| Resolve (code : string)
| Access (code : string) (src : option string)
| List
| PurgeExpired.

(** One operation on the service; [None] when the code generator has not
    ended within [fuel] rounds. *)
Definition step (fuel : nat) (op : Op) (w : World) : option World :=
  match op with
  | Create request =>
      match createShortenedUrl fuel request w with
      | Some (_, w') => Some w'
      | None => None
      end
  | Resolve code => Some (snd (getShortenedUrl code w))
  | Access code src => Some (snd (accessShortenedUrl code src w))
  | List => let _ := getAllUrls w in Some w
  | PurgeExpired => Some (snd (cleanupExpiredUrls w))
  end.

(** The worlds a run goes through, the first one included. *)
Fixpoint trace (fuel : nat) (ops : list Op) (w : World) : option (list World) :=
  match ops with
  | [] => Some [w]
  | op :: rest =>
      match step fuel op w with
      | Some w' =>
          match trace fuel rest w' with
          | Some ws => Some (w :: ws)
          | None => None
          end
      | None => None
      end
  end.

(* ================================================================== *)
(** ** A browser to run the examples in *)

Module Demo.

(** Reads the scheme of the URLs used in the examples. *)
Definition protocol (s : string) : option string :=
  if Str.startsWith "https://" s then Some "https:"
  else if Str.startsWith "http://" s then Some "http:"
  else if Str.startsWith "ftp://" s then Some "ftp:"
  else None.

(** 2024-01-01T00:00:00.000Z *)
Definition t0 : Z := 1704067200000.

(** A service with an empty map in a browser whose clock stands at
    [now] and whose random source only returns zero. *)
Definition world (now : Z) : World :=
  {| urls := JSMap.empty; localStorage := JSMap.empty;
     quotaExceeded := false;
     clock := fun _ => now; ticks := 0;
     random := fun _ => 0%nat; toString36 := fun _ => "0.4fzyo82mvyr";
     draws := 0;
     URL_protocol := protocol; timeZone := "Asia/Kolkata";
     navigator_userAgent := "Mozilla/5.0" |}.

(** The same browser with [m] as the service's map. *)
Definition service (now : Z) (m : JSMap.t ShortenedUrl) : World :=
  set_urls (world now) m.

(** The same world with another random source. *)
Definition with_random (w : World) (r : nat -> nat) : World :=
  {| urls := urls w; localStorage := localStorage w;
     quotaExceeded := quotaExceeded w; clock := clock w; ticks := ticks w;
     random := r; toString36 := toString36 w; draws := draws w;
     URL_protocol := URL_protocol w; timeZone := timeZone w;
     navigator_userAgent := navigator_userAgent w |}.

Definition link (code : string) (expires : string) (cs : list ClickData)
  : ShortenedUrl :=
  {| id := "url_1704067200000_4fzyo82mv";
     originalUrl := "https://example.com/x"; shortCode := code;
     customShortCode := None;
     createdAt := "2023-12-31T23:30:00.000Z"; expiresAt := expires;
     validityMinutes := 30; clicks := cs; isExpired := false |}.

Definition click (src : string) : ClickData :=
  {| timestamp := "2023-12-31T23:45:00.000Z"; source := src;
     location := "Kolkata"; userAgent := "Mozilla/5.0";
     ipHash := Some "hash_4fzyo82m" |}.

Definition request (url : string) (v : option number) (c : option string)
  : Request.CreateUrlRequest :=
  {| Request.originalUrl := url; Request.validityMinutes := v;
     Request.customShortCode := c |}.

End Demo.

(* ================================================================== *)
(** ** The calendar, one 400-year era at a time *)

Module Calendar.

(** The day of the era [doe] gives back itself through the civil date,
    and that date is a date of the calendar. The year within the era
    stands for every year congruent to it modulo 400. *)
Definition era_day_ok (doe : Z) : bool :=
  let yoe := (doe - doe / 1460 + doe / 36524 - doe / 146096) / 365 in
  let doy := doe - (365 * yoe + yoe / 4 - yoe / 100) in
  let mp := (5 * doy + 2) / 153 in
  let d := doy - (153 * mp + 2) / 5 + 1 in
  let m := if mp <? 10 then mp + 3 else mp - 9 in
  let y := if m <=? 2 then yoe + 1 else yoe in
  (0 <=? yoe) && (yoe <=? 399) && (0 <=? mp) && (mp <=? 11)
  && (1 <=? d) && (d <=? JSDate.days_in_month y m)
  && ((yoe * 365 + yoe / 4 - yoe / 100
       + ((153 * (if 2 <? m then m - 3 else m + 9) + 2) / 5 + d - 1)) =? doe).

(** [p] holds at [n] consecutive integers from [z] on. *)
Fixpoint all_from (p : Z -> bool) (n : nat) (z : Z) : bool :=
  match n with
  | O => true
  | S k => p z && all_from p k (z + 1)
  end.

End Calendar.

(* ================================================================== *)
(** ** Runs and what they keep *)

(** The world a run of operations ends in. *)
Fixpoint run (fuel : nat) (ops : list Op) (w : World) : option World :=
  match ops with
  | [] => Some w
  | op :: rest =>
      match step fuel op w with
      | Some w' => run fuel rest w'
      | None => None
      end
  end.

(** Distinct keys, and every record under its own [shortCode]. *)
Definition consistent (m : JSMap.t ShortenedUrl) : Prop :=
  JSMap.wf m /\ forall k u, In (k, u) m -> shortCode u = k.

(** The browser is the same, read further. *)
Definition same_browser (w w' : World) : Prop :=
  quotaExceeded w' = quotaExceeded w /\ clock w' = clock w /\
  random w' = random w /\ toString36 w' = toString36 w /\
  URL_protocol w' = URL_protocol w /\ timeZone w' = timeZone w /\
  navigator_userAgent w' = navigator_userAgent w /\
  (ticks w <= ticks w')%nat /\ (draws w <= draws w')%nat.

(** What a record may become while it stays in the map: the fields set at
    creation stay, the clicks grow at the end, the flag only goes up, and
    a flagged record gets no click. *)
Definition evolves (u u' : ShortenedUrl) : Prop :=
  id u' = id u /\ originalUrl u' = originalUrl u /\
  shortCode u' = shortCode u /\ customShortCode u' = customShortCode u /\
  createdAt u' = createdAt u /\ expiresAt u' = expiresAt u /\
  validityMinutes u' = validityMinutes u /\
  (exists more, clicks u' = (clicks u ++ more)%list /\
                (isExpired u = true -> more = [])) /\
  (isExpired u = true -> isExpired u' = true).

(** The store holds the map: a restart would load it. *)
Definition in_sync (w : World) : Prop :=
  match JSMap.get (localStorage w) STORAGE_KEY with
  | Some data => read_snapshot data = Loaded (urls w)
  | None => urls w = JSMap.empty
  end.

(** What one operation does to the map, record by record. *)
Inductive map_change (m : JSMap.t ShortenedUrl) : JSMap.t ShortenedUrl -> Prop :=
| mc_same : map_change m m
| mc_insert code u :
    JSMap.has m code = false -> shortCode u = code ->
    map_change m (JSMap.set m code u)
| mc_update code url url' :
    JSMap.get m code = Some url -> evolves url url' ->
    map_change m (JSMap.set m code url')
| mc_purge now :
    map_change m (List.filter (fun kv => negb (expired_at now (snd kv))) m).

(* ================================================================== *)
(** ** The rest of the service: locations and statistics *)

(** The time value of [createdAt], zero when it is not a date. *)
Definition created_time (u : ShortenedUrl) : Z :=
  match JSDate.parse (createdAt u) with
  | Some t => t
  | None => 0
  end.

Module ByLocation.

(** The objects [{ location, count }]. *)
Record LocationCount : Type := {
  location : string;
  count : Z
}.

Definition by_count (a b : LocationCount) : Z := count b - count a.

End ByLocation.

Definition locationCounts (cs : list ClickData) : JSObject.t :=
  List.fold_left (fun acc click => JSObject.bump (location click) acc) cs [].

(** [getTopLocations(clicks)] of the service; as for the sources, a
    location that names an inherited property is outside the model. *)
Definition getTopLocations (cs : list ClickData)
  : option (list ByLocation.LocationCount) :=
  if List.existsb (fun c => JSObject.inherited (location c)) cs then None
  else
    Some (JSArray.slice0 5
            (JSArray.sort ByLocation.by_count
               (List.map (fun kv => {| ByLocation.location := fst kv;
                                       ByLocation.count := snd kv |})
                  (JSObject.entries (locationCounts cs))))).

Module Stats.

(** One element of [clickHistory]. *)
Record HistoryEntry : Type := {
  timestamp : string;
  source : string;
  location : string
}.

(** The object [stats] of [getUrlStats]. *)
Record UrlStats : Type := {
  totalClicks : nat;
  clicksToday : nat;
  topSources : list SourceCount;
  topLocations : list ByLocation.LocationCount;
  clickHistory : list HistoryEntry
}.

End Stats.

Definition NotFoundStats : string := "URL not found.".

(** The filter of [clicksToday]: the clicks whose local calendar day is
    the day read from the clock, the clock being read once per click.
    [toDateString] is the browser's, in its own time zone. *)
Fixpoint clicks_today (toDateString : JSDate.Date -> string)
    (cs : list ClickData) (w : World) : list ClickData * World :=
  match cs with
  | [] => ([], w)
  | click :: rest =>
      let clickDate := JSDate.parse (timestamp click) in
      let '(today, w1) := Date_now w in
      let keep := String.eqb (toDateString clickDate) (toDateString (Some today)) in
      let '(kept, w2) := clicks_today toDateString rest w1 in
      (if keep then click :: kept else kept, w2)
  end.

(** [getUrlStats]; [None] when a source or a location of the clicks is
    outside the model of the counting objects. *)
Definition getUrlStats (toDateString : JSDate.Date -> string) (code : string)
    (w : World) : option (Result Stats.UrlStats * World) :=
  let '(found, w1) := getShortenedUrl code w in
  match found with
  | None => Some (Failure NotFoundStats, w1)
  | Some url =>
      let '(today, w2) := clicks_today toDateString (clicks url) w1 in
      match getTopSources (clicks url), getTopLocations (clicks url) with
      | Some sources, Some locations =>
          Some (Success
                  {| Stats.totalClicks := List.length (clicks url);
                     Stats.clicksToday := List.length today;
                     Stats.topSources := sources;
                     Stats.topLocations := locations;
                     Stats.clickHistory :=
                       List.map (fun click =>
                                   {| Stats.timestamp := timestamp click;
                                      Stats.source := source click;
                                      Stats.location := location click |})
                                (clicks url) |},
                w2)
      | _, _ => None
      end
  end.

(* ================================================================== *)
(** ** The rest of pages/Analytics.tsx *)

Module AnalyticsPage.

(** [getFilteredUrls], on the page's [urls] and [selectedUrl]. *)
Definition getFilteredUrls (urls : list ShortenedUrl) (selectedUrl : string)
  : list ShortenedUrl :=
  if String.eqb selectedUrl "all" then urls
  else List.filter (fun url => String.eqb (shortCode url) selectedUrl) urls.

Record TotalStats : Type := {
  totalClicks : nat;
  totalUrls : nat;
  activeUrls : nat;
  clicksToday : nat
}.

(** The [reduce] of [clicksToday]: the clock is read once per URL. *)
Fixpoint clicks_today (toDateString : JSDate.Date -> string)
    (urls : list ShortenedUrl) (sum : nat) (w : World) : nat * World :=
  match urls with
  | [] => (sum, w)
  | url :: rest =>
      let '(now, w1) := Date_now w in
      let today := toDateString (Some now) in
      let n := List.length
                 (List.filter
                    (fun click =>
                       String.eqb (toDateString (JSDate.parse (timestamp click)))
                                  today)
                    (clicks url)) in
      clicks_today toDateString rest (sum + n) w1
  end.

Definition getTotalStats (toDateString : JSDate.Date -> string)
    (filteredUrls : list ShortenedUrl) (w : World) : TotalStats * World :=
  let total :=
    List.fold_left (fun sum url => (sum + List.length (clicks url))%nat)
                   filteredUrls 0%nat in
  let active :=
    List.length (List.filter (fun url => negb (isExpired url)) filteredUrls) in
  let '(today, w1) := clicks_today toDateString filteredUrls 0%nat w in
  ({| totalClicks := total; totalUrls := List.length filteredUrls;
      activeUrls := active; clicksToday := today |}, w1).

Definition getTopLocations (filteredUrls : list ShortenedUrl)
  : option (list ByLocation.LocationCount) :=
  let allClicks := List.flat_map clicks filteredUrls in
  getTopLocations allClicks.

(** [url.shortCode] and [url.originalUrl], read before the record below
    takes the names. *)
Definition code_of (url : ShortenedUrl) : string := shortCode url.
Definition target_of (url : ShortenedUrl) : string := originalUrl url.

(** A click with the code and the URL of its link. *)
Record RecentClick : Type := {
  click : ClickData;
  shortCode : string;
  originalUrl : string
}.

(** The comparator of [getRecentClicks]; a NaN difference counts as
    zero. *)
Definition latest_first (a b : RecentClick) : Z :=
  match JSDate.getTime (JSDate.parse (timestamp (click b))),
        JSDate.getTime (JSDate.parse (timestamp (click a))) with
  | Some tb, Some ta => tb - ta
  | _, _ => 0
  end.

Definition getRecentClicks (filteredUrls : list ShortenedUrl)
  : list RecentClick :=
  let allClicks :=
    List.flat_map
      (fun url =>
         List.map (fun c => {| click := c;
                               shortCode := code_of url;
                               originalUrl := target_of url |})
                  (clicks url))
      filteredUrls in
  JSArray.slice0 10 (JSArray.sort latest_first allClicks).

End AnalyticsPage.

(* ================================================================== *)
(** ** The counting pipeline on pairs *)

(** The comparator of the two top-five lists, on the entries of the
    counting object. *)
Definition pair_by_count (a b : string * Z) : Z := snd b - snd a.

(** [Object.entries(counts).sort(...).slice(0, 5)] before the entries are
    turned into objects. *)
Definition top_pairs (keys : list string) : list (string * Z) :=
  JSArray.slice0 5
    (JSArray.sort pair_by_count
       (JSObject.entries
          (List.fold_left (fun acc s => JSObject.bump s acc) keys []))).

(** No slash among the characters of [s]. *)
Definition slash_free (s : string) : Prop :=
  ~ In "/"%char (list_ascii_of_string s).

(** The time value of a click's [timestamp], zero when it is not a
    date. *)
Definition click_time (c : ClickData) : Z :=
  match JSDate.parse (timestamp c) with
  | Some t => t
  | None => 0
  end.

(* ================================================================== *)
(** ** components/url-shortener/UrlResults.tsx *)

Module UrlResults.

(** [getTimeRemaining]. The difference of the two time values is NaN when
    [expiresAt] is not a date; every comparison with NaN is false and the
    last template renders it. *)
Definition getTimeRemaining (expiresAt : string) (w : World) : string * World :=
  let '(now, w1) := Date_now w in
  let expiry := JSDate.parse expiresAt in
  match JSDate.getTime expiry with
  | None => ("NaNm", w1)
  | Some e =>
      let diff := e - now in
      if diff <=? 0 then ("Expired", w1)
      else
        let minutes := diff / (1000 * 60) in
        let hours := minutes / 60 in
        let days := hours / 24 in
        if 0 <? days
        then (Number.string_of_Z days ++ "d "
              ++ Number.string_of_Z (hours mod 24) ++ "h", w1)
        else if 0 <? hours
        then (Number.string_of_Z hours ++ "h "
              ++ Number.string_of_Z (minutes mod 60) ++ "m", w1)
        else (Number.string_of_Z minutes ++ "m", w1)
  end.

End UrlResults.

(* ================================================================== *)
(** ** utils/logger.ts *)

Module Log.

Inductive LogLevel : Type := DEBUG | INFO | WARN | ERROR.

(** The string value of a level. *)
Definition level_name (l : LogLevel) : string :=
  match l with
  | DEBUG => "DEBUG"
  | INFO => "INFO"
  | WARN => "WARN"
  | ERROR => "ERROR"
  end.

Definition level_eqb (a b : LogLevel) : bool :=
  String.eqb (level_name a) (level_name b).

Record LogEntry : Type := {
  timestamp : string;
  level : LogLevel;
  message : string;
  context : option string;
  data : option json;
  userId : option string;
  sessionId : string
}.

(** The logger: its entries, its session, and what it has written to the
    console (level, line, data). *)
Record Logger : Type := {
  logs : list LogEntry;
  session : string;
  console : list (LogLevel * string * option json)
}.

Definition maxLogs : nat := 1000.

Definition generateSessionId (w : World) : string * World :=
  let '(now, w1) := Date_now w in
  let '(token, w2) := Math_random_token 9 w1 in
  ("session_" ++ Number.string_of_Z now ++ "_" ++ token, w2).

Definition createLogEntry (lg : Logger) (l : LogLevel) (msg : string)
    (ctx : option string) (d : option json) (w : World) : LogEntry * World :=
  let '(now, w1) := Date_now w in
  ({| timestamp := JSDate.iso now; level := l; message := msg;
      context := ctx; data := d; userId := None; sessionId := session lg |},
   w1).

(** [entry.context || 'APP']. *)
Definition context_or_app (ctx : option string) : string :=
  match ctx with
  | Some c => if String.eqb c "" then "APP" else c
  | None => "APP"
  end.

(** [a.slice(-n)]: the last [n] elements. *)
Definition slice_last {A} (n : nat) (l : list A) : list A :=
  List.skipn (List.length l - n) l.

Definition addLog (entry : LogEntry) (lg : Logger) : Logger :=
  let pushed := (logs lg ++ [entry])%list in
  let kept :=
    if (maxLogs <? List.length pushed)%nat then slice_last maxLogs pushed
    else pushed in
  let consoleMessage :=
    "[" ++ level_name (level entry) ++ "] " ++ timestamp entry ++ " - "
    ++ context_or_app (context entry) ++ ": " ++ message entry in
  {| logs := kept; session := session lg;
     console :=
       (console lg ++ [(level entry, consoleMessage, data entry)])%list |}.

(** [debug], [info], [warn] and [error], by their level. *)
Definition log (l : LogLevel) (msg : string) (ctx : option string)
    (d : option json) (lg : Logger) (w : World) : Logger * World :=
  let '(entry, w1) := createLogEntry lg l msg ctx d w in
  (addLog entry lg, w1).

Definition debug := log DEBUG.
Definition info := log INFO.
Definition warn := log WARN.
Definition error := log ERROR.

(** The constructor. *)
Definition construct (w : World) : Logger * World :=
  let '(sid, w1) := generateSessionId w in
  info "Logger initialized" (Some "SYSTEM") None
       {| logs := []; session := sid; console := [] |} w1.

(** [getLogs(level?, context?)]: an argument left out, and the empty
    context, do not filter. *)
Definition getLogs (l : option LogLevel) (ctx : option string) (lg : Logger)
  : list LogEntry :=
  let filteredLogs := logs lg in
  let filteredLogs :=
    match l with
    | Some lv => List.filter (fun e => level_eqb (level e) lv) filteredLogs
    | None => filteredLogs
    end in
  match ctx with
  | Some c =>
      if String.eqb c "" then filteredLogs
      else List.filter
             (fun e => match context e with
                       | Some c' => String.eqb c' c
                       | None => false
                       end) filteredLogs
  | None => filteredLogs
  end.

Definition getAllLogs (lg : Logger) : list LogEntry := logs lg.

Definition clearLogs (lg : Logger) (w : World) : Logger * World :=
  info "Logs cleared" (Some "SYSTEM") None
       {| logs := []; session := session lg; console := console lg |} w.

(** A call on the logger. *)
Inductive Call : Type :=
| Write (l : LogLevel) (msg : string) (ctx : option string) (d : option json)
| Clear.

Definition call (c : Call) (lg : Logger) (w : World) : Logger * World :=
  match c with
  | Write l msg ctx d => log l msg ctx d lg w
  | Clear => clearLogs lg w
  end.

Fixpoint calls (cs : list Call) (lg : Logger) (w : World) : Logger * World :=
  match cs with
  | [] => (lg, w)
  | c :: rest => let '(lg1, w1) := call c lg w in calls rest lg1 w1
  end.

End Log.

(* ================================================================== *)
(** ** The logs page: its counters *)

Module LogsPage.

Record LogStats : Type := {
  total : nat;
  errors : nat;
  warnings : nat;
  info : nat;
  debug : nat
}.

Definition count_level (l : Log.LogLevel) (logs : list Log.LogEntry) : nat :=
  List.length (List.filter (fun e => Log.level_eqb (Log.level e) l) logs).

(** [array.indexOf(x)], with -1 for an absent element. *)
Fixpoint indexOf (x : string) (array : list string) : Z :=
  match array with
  | [] => -1
  | y :: r =>
      if String.eqb y x then 0
      else let i := indexOf x r in if i <? 0 then -1 else i + 1
  end.

(** The elements of an array with their indices. *)
Definition indexed (array : list string) : list (Z * string) :=
  List.combine (List.map Z.of_nat (List.seq 0 (List.length array))) array.

(** [sort()] without a comparator orders strings by their code units. *)
Definition default_compare (a b : string) : Z :=
  match String.compare a b with
  | Lt => -1
  | Eq => 0
  | Gt => 1
  end.

Definition getUniqueContexts (logs : list Log.LogEntry) : list string :=
  let contexts := List.map Log.context logs in
  let defined :=
    List.flat_map
      (fun c => match c with
                | Some s => if String.eqb s "" then [] else [s]
                | None => []
                end) contexts in
  let first :=
    List.map snd
      (List.filter (fun ic => indexOf (snd ic) defined =? fst ic)
                   (indexed defined)) in
  JSArray.sort default_compare first.

Definition getLogStats (logs : list Log.LogEntry) : LogStats :=
  {| total := List.length logs;
     errors := count_level Log.ERROR logs;
     warnings := count_level Log.WARN logs;
     info := count_level Log.INFO logs;
     debug := count_level Log.DEBUG logs |}.

End LogsPage.

(* ================================================================== *)
(** ** The form's list of entries (UrlShortenerForm) *)

Module Form.

Record UrlEntry : Type := {
  id : string;
  originalUrl : string;
  validityMinutes : string;
  customShortCode : string;
  useCustomCode : bool
}.

Definition blank (i : string) : UrlEntry :=
  {| id := i; originalUrl := ""; validityMinutes := "30";
     customShortCode := ""; useCustomCode := false |}.

(** The state the component starts with. *)
Definition initial : list UrlEntry := [blank "1"].

(** [addUrlEntry]: the new entry's id is the clock's reading. *)
Definition addUrlEntry (urls : list UrlEntry) (w : World)
  : list UrlEntry * World :=
  if (List.length urls <? 5)%nat
  then
    let '(now, w1) := Date_now w in
    ((urls ++ [blank (Number.string_of_Z now)])%list, w1)
  else (urls, w).

Definition removeUrlEntry (i : string) (urls : list UrlEntry)
  : list UrlEntry :=
  if (1 <? List.length urls)%nat
  then List.filter (fun url => negb (String.eqb (id url) i)) urls
  else urls.

(** The fields the inputs of the form write, with the value written. *)
Inductive Field : Type :=
| originalUrl_ (v : string)
| validityMinutes_ (v : string)
| customShortCode_ (v : string)
| useCustomCode_ (v : bool).

Definition write (f : Field) (url : UrlEntry) : UrlEntry :=
  match f with
  | originalUrl_ v =>
      {| id := id url; originalUrl := v;
         validityMinutes := validityMinutes url;
         customShortCode := customShortCode url;
         useCustomCode := useCustomCode url |}
  | validityMinutes_ v =>
      {| id := id url; originalUrl := originalUrl url;
         validityMinutes := v;
         customShortCode := customShortCode url;
         useCustomCode := useCustomCode url |}
  | customShortCode_ v =>
      {| id := id url; originalUrl := originalUrl url;
         validityMinutes := validityMinutes url;
         customShortCode := v;
         useCustomCode := useCustomCode url |}
  | useCustomCode_ v =>
      {| id := id url; originalUrl := originalUrl url;
         validityMinutes := validityMinutes url;
         customShortCode := customShortCode url;
         useCustomCode := v |}
  end.

Definition updateUrlEntry (i : string) (f : Field) (urls : list UrlEntry)
  : list UrlEntry :=
  List.map (fun url => if String.eqb (id url) i then write f url else url)
           urls.

(** What the user does to the list; each handler sees the list the last
    one left. *)
Inductive Event : Type :=
| Add
| Remove (i : string)
| Update (i : string) (f : Field).

Definition handle (ev : Event) (urls : list UrlEntry) (w : World)
  : list UrlEntry * World :=
  match ev with
  | Add => addUrlEntry urls w
  | Remove i => (removeUrlEntry i urls, w)
  | Update i f => (updateUrlEntry i f urls, w)
  end.

Fixpoint handle_all (evs : list Event) (urls : list UrlEntry) (w : World)
  : list UrlEntry * World :=
  match evs with
  | [] => (urls, w)
  | ev :: rest => let '(urls1, w1) := handle ev urls w in handle_all rest urls1 w1
  end.

End Form.

(* ================================================================== *)
(** ** pages/UrlShortener.tsx: the batch of a submitted form *)

Module Page.

Record State : Type := {
  urls : list ShortenedUrl;
  error : option string;
  success : option string
}.

(** [errors.join(', ')]. *)
Fixpoint join (sep : string) (l : list string) : string :=
  match l with
  | [] => ""
  | [x] => x
  | x :: r => x ++ sep ++ join sep r
  end.

(** The loop over the requests, with the two arrays it fills. *)
Fixpoint create_all (fuel : nat) (requests : list Request.CreateUrlRequest)
    (results : list ShortenedUrl) (errors : list string) (w : World)
  : option (list ShortenedUrl * list string * World) :=
  match requests with
  | [] => Some (results, errors, w)
  | request :: rest =>
      match createShortenedUrl fuel request w with
      | None => None
      | Some (Success u, w1) =>
          create_all fuel rest (results ++ [u])%list errors w1
      | Some (Failure e, w1) =>
          let e' := if String.eqb e "" then "Unknown error occurred" else e in
          create_all fuel rest results (errors ++ [e'])%list w1
      end
  end.

(** The effect run when the page is mounted: the list is read first,
    the sweep comes after. *)
Definition mount (w : World) : State * World :=
  let existingUrls := getAllUrls w in
  let '(_, w1) := cleanupExpiredUrls w in
  ({| urls := existingUrls; error := None; success := None |}, w1).

Definition handleSubmit (fuel : nat) (requests : list Request.CreateUrlRequest)
    (st : State) (w : World) : option (State * World) :=
  match create_all fuel requests [] [] w with
  | None => None
  | Some (results, errors, w1) =>
      let error1 :=
        if (0 <? List.length errors)%nat
        then Some ("Some URLs failed to create: " ++ join ", " errors)
        else None in
      if (0 <? List.length results)%nat
      then
        let n := List.length results in
        Some ({| urls := (results ++ urls st)%list;
                 error := error1;
                 success :=
                   Some ("Successfully created "
                         ++ Number.string_of_Z (Z.of_nat n)
                         ++ " shortened URL"
                         ++ (if (1 <? n)%nat then "s" else "") ++ "!") |},
              w1)
      else Some ({| urls := urls st; error := error1; success := None |}, w1)
  end.

End Page.

(** The first occurrences in [l] of the strings not among [seen]: what
    the index test of [getUniqueContexts] keeps, as a recursion. *)
Fixpoint firsts (seen : list string) (l : list string) : list string :=
  match l with
  | [] => []
  | x :: r =>
      if List.existsb (String.eqb x) seen then firsts seen r
      else x :: firsts (x :: seen) r
  end.

(* ================================================================== *)
(** ** What the operations answer, and the browser without its store *)

(** What an operation returns to its caller. *)
Inductive Outcome : Type :=
| Created (r : Result ShortenedUrl)
| Resolved (r : option ShortenedUrl)
| Accessed (r : Result string)
| Listed (l : list ShortenedUrl)
| Purged (r : value).

(** [step] with the operation's return value. *)
Definition perform (fuel : nat) (op : Op) (w : World)
  : option (Outcome * World) :=
  match op with
  | Create request =>
      match createShortenedUrl fuel request w with
      | Some (r, w') => Some (Created r, w')
      | None => None
      end
  | Resolve code =>
      let '(r, w') := getShortenedUrl code w in Some (Resolved r, w')
  | Access code src =>
      let '(r, w') := accessShortenedUrl code src w in Some (Accessed r, w')
  | List => Some (Listed (getAllUrls w), w)
  | PurgeExpired =>
      let '(r, w') := cleanupExpiredUrls w in Some (Purged r, w')
  end.

(** [run] with the return values of its operations, in their order. *)
Fixpoint perform_all (fuel : nat) (ops : list Op) (w : World)
  : option (list Outcome * World) :=
  match ops with
  | [] => Some ([], w)
  | op :: rest =>
      match perform fuel op w with
      | Some (r, w1) =>
          match perform_all fuel rest w1 with
          | Some (rs, w2) => Some (r :: rs, w2)
          | None => None
          end
      | None => None
      end
  end.

(** The same service in the same browser, with a store that takes its
    writes. *)
Definition accepting (w : World) : World :=
  {| urls := urls w; localStorage := localStorage w;
     quotaExceeded := false; clock := clock w; ticks := ticks w;
     random := random w; toString36 := toString36 w; draws := draws w;
     URL_protocol := URL_protocol w; timeZone := timeZone w;
     navigator_userAgent := navigator_userAgent w |}.

(** The world without its store: what is left is the service's memory
    and the rest of the browser. *)
Definition forget (w : World) : World :=
  {| urls := urls w; localStorage := JSMap.empty;
     quotaExceeded := true; clock := clock w; ticks := ticks w;
     random := random w; toString36 := toString36 w; draws := draws w;
     URL_protocol := URL_protocol w; timeZone := timeZone w;
     navigator_userAgent := navigator_userAgent w |}.

Definition forget_in {A : Type} (p : A * World) : A * World :=
  (fst p, forget (snd p)).

(* ================================================================== *)
(** * Properties *)

Local Open Scope list_scope.

Arguments JSDate.iso : simpl never.
Arguments JSDate.parse : simpl never.
Arguments snapshot : simpl never.

(** ** The map *)

Section MapFacts.
Context {V : Type}.
Implicit Types (m : JSMap.t V) (k : string) (v : V).

Lemma get_set_same m k v : JSMap.get (JSMap.set m k v) k = Some v.
Proof.
  induction m as [|[k' v'] r IH]; simpl.
  - now rewrite String.eqb_refl.
  - destruct (String.eqb k k') eqn:E; simpl; rewrite E; auto.
Qed.

Lemma get_set_other m k k' v :
  k <> k' -> JSMap.get (JSMap.set m k v) k' = JSMap.get m k'.
Proof.
  intros N. induction m as [|[k0 v0] r IH]; simpl.
  - destruct (String.eqb k' k) eqn:E; auto.
    apply String.eqb_eq in E. congruence.
  - destruct (String.eqb k k0) eqn:E; simpl.
    + apply String.eqb_eq in E. subst k0.
      destruct (String.eqb k' k) eqn:E'; auto.
      apply String.eqb_eq in E'. congruence.
    + now rewrite IH.
Qed.

Lemma get_In m k v : JSMap.get m k = Some v -> In (k, v) m.
Proof.
  induction m as [|[k' v'] r IH]; simpl; [discriminate|].
  destruct (String.eqb k k') eqn:E.
  - apply String.eqb_eq in E. intros [= ->]. subst. now left.
  - auto.
Qed.

Lemma get_None_keys m k : JSMap.get m k = None <-> ~ In k (JSMap.keys m).
Proof.
  induction m as [|[k' v'] r IH]; simpl.
  - tauto.
  - destruct (String.eqb k k') eqn:E.
    + apply String.eqb_eq in E. subst. split; [discriminate|tauto].
    + apply String.eqb_neq in E. rewrite IH. split; [intros H [?|?]|]; try tauto.
      congruence.
Qed.

Lemma has_false_keys m k : JSMap.has m k = false <-> ~ In k (JSMap.keys m).
Proof.
  unfold JSMap.has. rewrite <- get_None_keys.
  destruct (JSMap.get m k); split; congruence.
Qed.

Lemma In_get m k v : JSMap.wf m -> In (k, v) m -> JSMap.get m k = Some v.
Proof.
  unfold JSMap.wf. induction m as [|[k' v'] r IH]; simpl; [tauto|].
  intros W [H|H]; inversion W as [|? ? Hn Hr]; subst.
  - injection H as -> ->. now rewrite String.eqb_refl.
  - destruct (String.eqb k k') eqn:E; auto.
    apply String.eqb_eq in E. subst k'.
    exfalso. apply Hn. change k with (fst (k, v)). now apply in_map.
Qed.

Lemma keys_set_present m k v :
  JSMap.has m k = true -> JSMap.keys (JSMap.set m k v) = JSMap.keys m.
Proof.
  unfold JSMap.has. induction m as [|[k' v'] r IH]; simpl; [discriminate|].
  destruct (String.eqb k k') eqn:E; simpl; auto.
  intros H. now rewrite IH.
Qed.

Lemma set_absent m k v :
  JSMap.has m k = false -> JSMap.set m k v = m ++ [(k, v)].
Proof.
  unfold JSMap.has. induction m as [|[k' v'] r IH]; simpl; auto.
  destruct (String.eqb k k') eqn:E; [discriminate|].
  intros H. now rewrite IH.
Qed.

Lemma wf_set m k v : JSMap.wf m -> JSMap.wf (JSMap.set m k v).
Proof.
  unfold JSMap.wf. intros W. destruct (JSMap.has m k) eqn:H.
  - now rewrite keys_set_present.
  - rewrite set_absent by assumption. unfold JSMap.keys.
    rewrite map_app. simpl. apply NoDup_app; auto.
    + constructor; [tauto | constructor].
    + intros x Hx [<-|[]]. apply has_false_keys in H. tauto.
Qed.

Lemma delete_filter m k :
  JSMap.wf m ->
  JSMap.delete m k = filter (fun kv => negb (String.eqb k (fst kv))) m.
Proof.
  unfold JSMap.wf. induction m as [|[k' v'] r IH]; simpl; auto.
  intros W. inversion W as [|? ? Hn Hr]; subst.
  destruct (String.eqb k k') eqn:E; simpl.
  - apply String.eqb_eq in E. subst k'. symmetry.
    apply forallb_filter_id. apply forallb_forall. intros [k1 v1] Hin. simpl.
    destruct (String.eqb k k1) eqn:E1; auto.
    apply String.eqb_eq in E1. subst k1. exfalso. apply Hn.
    change k with (fst (k, v1)). now apply in_map.
  - now rewrite IH.
Qed.

Lemma wf_filter (p : string * V -> bool) m :
  JSMap.wf m -> JSMap.wf (filter p m).
Proof.
  unfold JSMap.wf, JSMap.keys. induction m as [|kv r IH]; simpl; auto.
  intros W. inversion W as [|? ? Hn Hr]; subst.
  destruct (p kv); simpl; auto. constructor; auto.
  intros Hin. apply Hn. apply in_map_iff in Hin as [x [Hx Hin]].
  apply filter_In in Hin as [Hin _]. rewrite <- Hx. now apply in_map.
Qed.

Lemma wf_delete m k : JSMap.wf m -> JSMap.wf (JSMap.delete m k).
Proof. intros W. rewrite delete_filter by assumption. now apply wf_filter. Qed.

Lemma ofEntries_acc (l acc : list (string * V)) :
  NoDup (JSMap.keys (acc ++ l)) ->
  fold_left (fun m kv => JSMap.set m (fst kv) (snd kv)) l acc = acc ++ l.
Proof.
  revert acc. induction l as [|[k v] r IH]; intros acc W; simpl.
  - now rewrite app_nil_r.
  - rewrite set_absent.
    + rewrite IH; rewrite <- app_assoc; auto.
    + apply has_false_keys. unfold JSMap.keys in *. rewrite map_app in W.
      simpl in W. apply NoDup_remove_2 in W. intros Hin. apply W.
      apply in_or_app. now left.
Qed.

(** [new Map] on the entries of a map gives the map back. *)
Lemma ofEntries_entries m :
  JSMap.wf m -> JSMap.ofEntries (JSMap.entries m) = m.
Proof. intros W. unfold JSMap.ofEntries. now rewrite ofEntries_acc. Qed.

End MapFacts.

(** ** The snapshot read back *)

Section SnapshotFacts.

Lemma click_of_json_click_json c :
  Snapshot.click_of_json (Snapshot.click_json c) = Some c.
Proof. destruct c as [t s l a [h|]]; reflexivity. Qed.

Lemma clicks_of_json_map cs :
  Json.all Snapshot.click_of_json (map Snapshot.click_json cs) = Some cs.
Proof.
  induction cs as [|c r IH]; simpl; auto.
  now rewrite click_of_json_click_json, IH.
Qed.

Lemma url_of_json_url_json u :
  Snapshot.url_of_json (Snapshot.url_json u) = Some u.
Proof.
  destruct u as [i o s c ca ea v cl e].
  unfold Snapshot.url_of_json, Snapshot.url_json.
  destruct c as [c|]; cbn -[Json.all Snapshot.click_of_json Snapshot.click_json];
    now rewrite clicks_of_json_map.
Qed.

Lemma entry_of_json_entry_json kv :
  Snapshot.entry_of_json (Snapshot.entry_json kv) = Some kv.
Proof.
  destruct kv as [k u]. unfold Snapshot.entry_of_json, Snapshot.entry_json.
  cbn [nth_error fst snd]. now rewrite url_of_json_url_json.
Qed.

Lemma entries_of_json_map l :
  Json.all Snapshot.entry_of_json (map Snapshot.entry_json l) = Some l.
Proof.
  induction l as [|kv r IH]; simpl; auto.
  now rewrite entry_of_json_entry_json, IH.
Qed.

Lemma entries_are_objects (l : list (string * ShortenedUrl)) :
  forallb (fun j => match j with JArr _ | JObj _ => true | _ => false end)
          (map Snapshot.entry_json l) = true.
Proof. induction l; simpl; auto. Qed.

Lemma read_snapshot_snapshot m lastUpdated :
  JSMap.wf m -> read_snapshot (snapshot m lastUpdated) = Loaded m.
Proof.
  intros W. unfold read_snapshot, snapshot.
  cbn [Json.field Json.assoc String.eqb Ascii.eqb Bool.eqb Snapshot.truthy negb].
  rewrite entries_are_objects, entries_of_json_map.
  now rewrite ofEntries_entries.
Qed.

End SnapshotFacts.

(** ** Saving *)

Section SaveFacts.
Implicit Types (w : World).

Lemma save_urls w : urls (saveToStorage w) = urls w.
Proof. unfold saveToStorage; simpl. now destruct (quotaExceeded w). Qed.

Lemma save_localStorage w :
  localStorage (saveToStorage w) =
  if quotaExceeded w then localStorage w
  else JSMap.set (localStorage w) STORAGE_KEY
         (snapshot (urls w) (JSDate.iso (clock w (ticks w)))).
Proof. unfold saveToStorage; simpl. now destruct (quotaExceeded w). Qed.

Lemma save_ticks w : ticks (saveToStorage w) = S (ticks w).
Proof. unfold saveToStorage; simpl. now destruct (quotaExceeded w). Qed.

Lemma save_clock w : clock (saveToStorage w) = clock w.
Proof. unfold saveToStorage; simpl. now destruct (quotaExceeded w). Qed.

Lemma save_quota w : quotaExceeded (saveToStorage w) = quotaExceeded w.
Proof.
  unfold saveToStorage; simpl. now destruct (quotaExceeded w) eqn:E; simpl.
Qed.

Lemma save_other_keys w k :
  k <> STORAGE_KEY ->
  JSMap.get (localStorage (saveToStorage w)) k = JSMap.get (localStorage w) k.
Proof.
  intros N. rewrite save_localStorage. destruct (quotaExceeded w); auto.
  apply get_set_other. congruence.
Qed.

End SaveFacts.

(** C9. Round trip of the persisted state: for every map (its keys are
    distinct, as in any [Map]), the snapshot that [saveToStorage] writes,
    read back by the constructor's [loadFromStorage] into a fresh service,
    gives the same map: the same keys in the same order, the same records
    field by field, the clicks of each in the same order. *)
Theorem C9_save_then_load (w : World) :
  JSMap.wf (urls w) ->
  quotaExceeded w = false ->
  (forall lastUpdated,
      read_snapshot (snapshot (urls w) lastUpdated) = Loaded (urls w)) /\
  option_map urls (construct (saveToStorage w)) = Some (urls w).
Proof.
  intros W Q. split.
  - intros lastUpdated. now apply read_snapshot_snapshot.
  - unfold construct, loadFromStorage. cbn [localStorage set_urls].
    rewrite save_localStorage, Q, get_set_same, read_snapshot_snapshot by assumption.
    reflexivity.
Qed.

Ltac solve_wf :=
  unfold JSMap.wf; simpl;
  repeat (constructor; [simpl; intuition congruence|]); constructor.

Lemma C9_save_then_load_witness :
  let w := Demo.service Demo.t0
             [("abc123", Demo.link "abc123" "2024-01-01T00:30:00.000Z"
                           [Demo.click "direct_link"; Demo.click "results_page"]);
              ("xyz789", Demo.link "xyz789" "2024-01-01T00:10:00.000Z" [])] in
  JSMap.wf (urls w) /\ quotaExceeded w = false /\
  option_map urls (construct (saveToStorage w)) = Some (urls w).
Proof.
  intros w.
  assert (W : JSMap.wf (urls w)) by solve_wf.
  assert (Q : quotaExceeded w = false) by reflexivity.
  split; [exact W | split; [exact Q | exact (proj2 (C9_save_then_load w W Q))]].
Defined.

(** ** The sweep of expired URLs *)

Lemma filter_twice {A} (p q : A -> bool) (l : list A) :
  filter p (filter q l) = filter (fun x => q x && p x) l.
Proof.
  induction l as [|x r IH]; simpl; auto.
  destruct (q x); simpl; [destruct (p x)|]; now rewrite IH.
Qed.

Section SweepFacts.
Variable now : Z.

Let expired (kv : string * ShortenedUrl) : bool := expired_at now (snd kv).

(** The entries of [l] that the loop deletes from [m]. *)
Let hit (l : list (string * ShortenedUrl)) (kv : string * ShortenedUrl) : bool :=
  existsb (fun e => String.eqb (fst e) (fst kv) && expired e) l.

Lemma sweep_acc l m c :
  JSMap.wf m ->
  fold_left
    (fun acc kv =>
       if expired_at now (snd kv)
       then (JSMap.delete (fst acc) (fst kv), snd acc + 1)
       else acc) l (m, c)
  = (filter (fun kv => negb (hit l kv)) m,
     c + Z.of_nat (List.length (filter expired l))).
Proof.
  revert m c. induction l as [|e r IH]; intros m c W.
  - simpl. rewrite Z.add_0_r. f_equal. symmetry.
    apply forallb_filter_id. apply forallb_forall. reflexivity.
  - cbn [fold_left fst snd]. cbn [filter]. unfold expired at 1.
    destruct (expired_at now (snd e)) eqn:E.
    + rewrite IH by now apply wf_delete.
      rewrite delete_filter by assumption. f_equal.
      * rewrite filter_twice. apply filter_ext. intros kv.
        unfold hit, expired. cbn [existsb]. rewrite E.
        now rewrite andb_true_r, negb_orb.
      * cbn [List.length]. lia.
    + rewrite IH by assumption. f_equal.
      apply filter_ext. intros kv. unfold hit, expired. cbn [existsb].
      now rewrite E, andb_false_r.
Qed.

Lemma hit_self m kv :
  JSMap.wf m -> In kv m -> hit m kv = expired kv.
Proof.
  unfold JSMap.wf. intros W Hin. unfold hit.
  induction m as [|e r IH]; [destruct Hin|].
  inversion W as [|? ? Hn Hr]; subst. cbn [existsb].
  destruct Hin as [->|Hin].
  - rewrite String.eqb_refl. cbn [andb].
    destruct (expired kv) eqn:E; auto. cbn [orb].
    apply not_true_is_false. intros H. apply existsb_exists in H as [x [Hx H]].
    apply andb_true_iff in H as [H _]. apply String.eqb_eq in H.
    apply Hn. rewrite <- H. now apply in_map.
  - rewrite IH by assumption.
    destruct (String.eqb (fst e) (fst kv)) eqn:E; auto.
    apply String.eqb_eq in E. exfalso. apply Hn. rewrite E. now apply in_map.
Qed.

Lemma sweep_spec m :
  JSMap.wf m ->
  sweep now (JSMap.entries m) m
  = (filter (fun kv => negb (expired kv)) m,
     Z.of_nat (List.length (filter expired m))).
Proof.
  intros W. unfold sweep, JSMap.entries. rewrite sweep_acc by assumption.
  f_equal. apply filter_ext_in. intros kv Hin. now rewrite hit_self.
Qed.

End SweepFacts.

Lemma cleanupExpiredUrls_urls (w : World) :
  JSMap.wf (urls w) ->
  let now := clock w (ticks w) in
  urls (snd (cleanupExpiredUrls w))
    = filter (fun kv => negb (expired_at now (snd kv))) (urls w) /\
  snd (sweep now (JSMap.entries (urls w)) (urls w))
    = Z.of_nat (List.length
                  (filter (fun kv => expired_at now (snd kv)) (urls w))).
Proof.
  intros W now. unfold cleanupExpiredUrls.
  cbn [Date_now urls tick ticks clock]. fold now.
  rewrite (sweep_spec now (urls w) W). cbn [snd fst].
  destruct (0 <? _); cbn [snd]; [rewrite save_urls|]; auto.
Qed.

(** C1, as the code has it. For a map whose [expiresAt] fields are dates
    in the form [toISOString] writes (the form the service stores),
    [cleanupExpiredUrls] removes from the map exactly the records whose
    [expiresAt] is earlier than the time read at the start of the call,
    whatever their [isExpired] flag says, and keeps the others in their
    order; its counter [cleanedCount] is the number of records removed;
    the map is written to the store if and only if at least one record
    was removed (and the store takes the write); the call itself returns
    nothing: the method is declared [void] and the count only goes to the
    log. *)
Theorem C1_cleanup_removes_expired (w : World) :
  JSMap.wf (urls w) ->
  (forall k u, In (k, u) (urls w) -> JSDate.parse (expiresAt u) <> None) ->
  let now := clock w (ticks w) in
  let removed := filter (fun kv => expired_at now (snd kv)) (urls w) in
  let kept := filter (fun kv => negb (expired_at now (snd kv))) (urls w) in
  urls (snd (cleanupExpiredUrls w)) = kept /\
  snd (sweep now (JSMap.entries (urls w)) (urls w)) = Z.of_nat (List.length removed) /\
  localStorage (snd (cleanupExpiredUrls w)) =
    (if (0 <? Z.of_nat (List.length removed)) && negb (quotaExceeded w)
     then JSMap.set (localStorage w) STORAGE_KEY
            (snapshot kept (JSDate.iso (clock w (S (ticks w)))))
     else localStorage w) /\
  fst (cleanupExpiredUrls w) = VUndefined /\
  (forall k u, In (k, u) (urls w) ->
     exists t, JSDate.parse (expiresAt u) = Some t /\
               (In (k, u) removed <-> t < now) /\
               (In (k, u) kept <-> now <= t)).
Proof.
  intros W D now removed kept.
  assert (S : sweep now (JSMap.entries (urls w)) (urls w)
              = (kept, Z.of_nat (List.length removed)))
    by (apply sweep_spec; exact W).
  assert (T : forall k u, In (k, u) (urls w) ->
     exists t, JSDate.parse (expiresAt u) = Some t /\
               (In (k, u) removed <-> t < now) /\
               (In (k, u) kept <-> now <= t)).
  { intros k u I. specialize (D k u I).
    destruct (JSDate.parse (expiresAt u)) as [t|] eqn:P; [|congruence].
    exists t. split; [reflexivity|]. subst removed kept.
    rewrite !filter_In. cbn [snd]. unfold expired_at. rewrite P.
    cbn [JSDate.lt].
    destruct (Z.ltb_spec t now); cbn [negb]; split; split;
      try tauto; try lia; intros [_ F]; discriminate F. }
  unfold cleanupExpiredUrls. cbn [Date_now urls tick ticks clock].
  change (clock w (ticks w)) with now. rewrite S. cbn [snd fst].
  destruct (0 <? Z.of_nat (List.length removed)) eqn:E; cbn [snd fst andb].
  - rewrite save_urls, save_localStorage. cbn.
    destruct (quotaExceeded w); auto.
  - auto.
Qed.

Lemma C1_cleanup_removes_expired_witness :
  let w := Demo.service Demo.t0
             [("abc123", Demo.link "abc123" "2023-12-31T23:59:59.999Z" []);
              ("xyz789", Demo.link "xyz789" "2024-01-01T00:00:00.000Z" [])] in
  JSMap.wf (urls w) /\
  urls (snd (cleanupExpiredUrls w)) =
    [("xyz789", Demo.link "xyz789" "2024-01-01T00:00:00.000Z" [])] /\
  fst (cleanupExpiredUrls w) = VUndefined.
Proof.
  intros w.
  assert (W : JSMap.wf (urls w)) by solve_wf.
  assert (D : forall k u, In (k, u) (urls w) ->
                          JSDate.parse (expiresAt u) <> None).
  { intros k u [E|[E|[]]]; injection E as <- <-; vm_compute; discriminate. }
  pose proof (C1_cleanup_removes_expired w W D) as H.
  split; [exact W|].
  split; [exact (proj1 H) | exact (proj1 (proj2 (proj2 (proj2 H))))].
Defined.

(** C1 as stated fails: with one expired record in the map the sweep
    removes one record and the call returns [undefined], not the number 1. *)
Lemma C1_count_not_returned :
  let w := Demo.service Demo.t0
             [("abc123", Demo.link "abc123" "2023-12-31T23:59:59.999Z" [])] in
  urls w <> [] /\
  urls (snd (cleanupExpiredUrls w)) = [] /\
  fst (cleanupExpiredUrls w) <> VNumber 1.
Proof. vm_compute. repeat split; discriminate. Qed.

(** ** Lookup with lazy expiry *)

(** C5, as the code has it. For a stored link whose [expiresAt] is
    strictly earlier than the time read by the call and whose [isExpired]
    is still false, [getShortenedUrl] sets [isExpired], puts the record
    back under its code, writes the map to the store (when the store takes
    the write) and returns the updated record. *)
Theorem C5_resolve_flips_after_expiry
    (w : World) (code : string) (url : ShortenedUrl) (t : Z) :
  JSMap.get (urls w) code = Some url ->
  JSDate.parse (expiresAt url) = Some t ->
  t < clock w (ticks w) ->
  isExpired url = false ->
  fst (getShortenedUrl code w) = Some (set_isExpired url true) /\
  urls (snd (getShortenedUrl code w))
    = JSMap.set (urls w) code (set_isExpired url true) /\
  (quotaExceeded w = false ->
   JSMap.get (localStorage (snd (getShortenedUrl code w))) STORAGE_KEY
     = Some (snapshot (JSMap.set (urls w) code (set_isExpired url true))
               (JSDate.iso (clock w (S (ticks w)))))).
Proof.
  intros G P L E. unfold getShortenedUrl. rewrite G.
  cbn [Date_now]. unfold expired_at. rewrite P. cbn [JSDate.lt].
  apply Z.ltb_lt in L. rewrite L, E. cbn [andb negb fst snd].
  rewrite save_urls, save_localStorage. cbn.
  repeat split; auto. intros Q. rewrite Q. apply get_set_same.
Qed.

Lemma C5_resolve_flips_after_expiry_witness :
  let url := Demo.link "abc123" "2024-01-01T00:00:00.000Z" [] in
  let w := Demo.service (Demo.t0 + 1) [("abc123", url)] in
  fst (getShortenedUrl "abc123" w) = Some (set_isExpired url true).
Proof.
  intros url w.
  refine (proj1 (C5_resolve_flips_after_expiry w "abc123" url Demo.t0 _ _ _ _));
    vm_compute; reflexivity.
Defined.

(** C5 as stated fails at the instant of expiry: with the clock exactly at
    [expiresAt] and [isExpired] false, the record comes back unchanged,
    still not expired, and nothing is written to the store. *)
Lemma C5_no_flip_at_expiry_instant :
  let url := Demo.link "abc123" "2024-01-01T00:00:00.000Z" [] in
  let w := Demo.service Demo.t0 [("abc123", url)] in
  JSDate.parse (expiresAt url) = Some (clock w (ticks w)) /\
  isExpired url = false /\
  fst (getShortenedUrl "abc123" w) = Some url /\
  urls (snd (getShortenedUrl "abc123" w)) = urls w /\
  localStorage (snd (getShortenedUrl "abc123" w)) = [].
Proof. vm_compute. repeat split; reflexivity. Qed.

Lemma getShortenedUrl_cases code w :
  (JSMap.get (urls w) code = None /\ getShortenedUrl code w = (None, w)) \/
  (exists url,
      JSMap.get (urls w) code = Some url /\
      expired_at (clock w (ticks w)) url = true /\ isExpired url = false /\
      getShortenedUrl code w =
        (Some (set_isExpired url true),
         saveToStorage
           (set_urls (tick w)
              (JSMap.set (urls w) code (set_isExpired url true))))) \/
  (exists url,
      JSMap.get (urls w) code = Some url /\
      expired_at (clock w (ticks w)) url && negb (isExpired url) = false /\
      getShortenedUrl code w = (Some url, tick w)).
Proof.
  unfold getShortenedUrl. destruct (JSMap.get (urls w) code) as [url|] eqn:G.
  - right. cbn [Date_now].
    destruct (expired_at (clock w (ticks w)) url && negb (isExpired url)) eqn:F.
    + left. exists url. apply andb_true_iff in F as [F1 F2].
      apply negb_true_iff in F2. auto.
    + right. exists url. auto.
  - left. auto.
Qed.

(** ** Recording a click *)

Lemma clicks_view_set m k v v' :
  JSMap.get m k = Some v -> clicks v' = clicks v ->
  clicks_view (JSMap.set m k v') = clicks_view m.
Proof.
  intros G C. induction m as [|[k0 v0] r IH]; simpl in *; [discriminate|].
  destruct (String.eqb k k0) eqn:E; simpl.
  - injection G as ->. now rewrite C.
  - now rewrite IH.
Qed.

(** C6. A successful [accessShortenedUrl] returns the original URL of the
    record under the code and leaves that record with exactly one more
    click, appended at the end, the records under the other codes being
    what they were; a failed one is one of the two failures, not found or
    expired, and leaves the clicks of every record as they were. *)
Theorem C6_access_appends_one_click
    (code : string) (src : option string) (w : World) :
  match accessShortenedUrl code src w with
  | (Success target, w') =>
      exists url click,
        JSMap.get (urls w) code = Some url /\
        target = originalUrl url /\
        source click = match src with Some s => s | None => "direct"%string end /\
        JSMap.get (urls w') code = Some (push_click url click) /\
        clicks (push_click url click) = clicks url ++ [click] /\
        List.length (clicks (push_click url click)) = S (List.length (clicks url)) /\
        (forall k, k <> code -> JSMap.get (urls w') k = JSMap.get (urls w) k)
  | (Failure e, w') =>
      (e = NotFound \/ e = Expired) /\
      clicks_view (urls w') = clicks_view (urls w)
  end.
Proof.
  unfold accessShortenedUrl.
  destruct (getShortenedUrl_cases code w)
    as [[G R] | [(url & G & F1 & F2 & R) | (url & G & F & R)]]; rewrite R.
  - auto.
  - cbn [isExpired set_isExpired]. split; [now right|].
    rewrite save_urls. cbn [urls set_urls].
    now apply clicks_view_set with (v := url).
  - destruct (isExpired url) eqn:E.
    + split; [now right | reflexivity].
    + cbn [Date_now generateIpHash Math_random_token].
      eexists url, _. rewrite save_urls. cbn [urls set_urls tick draw].
      refine (conj G (conj eq_refl (conj _ (conj (get_set_same _ _ _) _)))).
      * reflexivity.
      * split; [reflexivity|]. split.
        -- cbn [clicks push_click]. rewrite length_app. cbn [List.length]. lia.
        -- intros k N. apply get_set_other. congruence.
Qed.

(** ** The code generator *)

Section GeneratorFacts.
Implicit Types (w : World).

Lemma same_service_refl w : same_service w w.
Proof. unfold same_service. tauto. Qed.

Lemma same_service_trans w1 w2 w3 :
  same_service w1 w2 -> same_service w2 w3 -> same_service w1 w3.
Proof. unfold same_service. intuition congruence. Qed.

Lemma draw_chars_same n result w :
  same_service w (snd (draw_chars n result w)).
Proof.
  revert result w. induction n as [|n IH]; intros result w; simpl.
  - apply same_service_refl.
  - eapply same_service_trans; [|apply IH]. unfold same_service. simpl. tauto.
Qed.

Lemma generateShortCode_sound fuel w code w' :
  generateShortCode fuel w = Some (code, w') ->
  same_service w w' /\ JSMap.has (urls w) code = false.
Proof.
  revert w. induction fuel as [|fuel IH]; intros w; [discriminate|].
  cbn [generateShortCode].
  pose proof (draw_chars_same SHORTCODE_LENGTH "" w) as D.
  destruct (draw_chars SHORTCODE_LENGTH "" w) as [result w1]. cbn [snd] in D.
  destruct (JSMap.has (urls w1) result) eqn:H.
  - intros G. apply IH in G as [S1 G]. split.
    + eapply same_service_trans; eauto.
    + destruct D as [D _]. now rewrite <- D.
  - intros [= -> ->]. split; auto. destruct D as [D _]. now rewrite <- D.
Qed.

End GeneratorFacts.

(** ** The shape of one operation *)

Lemma filter_none {A} (p : A -> bool) (l : list A) :
  (0 <? Z.of_nat (List.length (filter p l))) = false ->
  filter (fun x => negb (p x)) l = l.
Proof.
  induction l as [|x r IH]; simpl; auto.
  destruct (p x); simpl.
  - intros H. apply Z.ltb_ge in H. lia.
  - intros H. now rewrite IH.
Qed.

Section StepFacts.
Implicit Types (w : World).

Lemma store_cases request v code w :
  (exists e,
      fst (store request v code w) = Failure e /\
      urls (snd (store request v code w)) = urls w /\
      localStorage (snd (store request v code w)) = localStorage w) \/
  (exists u,
      fst (store request v code w) = Success u /\
      shortCode u = code /\ isExpired u = false /\ clicks u = [] /\
      validityMinutes u = Number.toZ v /\
      customShortCode u = Request.customShortCode request /\
      ends_with_save w (snd (store request v code w))
        (JSMap.set (urls w) code u)).
Proof.
  unfold store. cbn [Date_now Math_random_token].
  destruct (JSDate.toISOString _) as [expiresIso|].
  - right. eexists. cbn [fst snd]. split; [reflexivity|].
    cbn [shortCode isExpired clicks validityMinutes customShortCode].
    repeat (split; [reflexivity|]).
    eexists. split; [reflexivity|]. cbn. tauto.
  - left. eexists. cbn. tauto.
Qed.

Lemma ends_with_save_same w1 w2 w' m :
  same_service w1 w2 -> ends_with_save w2 w' m -> ends_with_save w1 w' m.
Proof.
  intros (S1 & S2 & S3 & S4 & _) (w0 & E & U & C & Q & L).
  exists w0. intuition congruence.
Qed.

Lemma create_cases fuel request w r w' :
  createShortenedUrl fuel request w = Some (r, w') ->
  (exists e, r = Failure e /\ urls w' = urls w /\
             localStorage w' = localStorage w) \/
  (exists u, r = Success u /\ JSMap.has (urls w) (shortCode u) = false /\
             isExpired u = false /\ clicks u = [] /\
             ends_with_save w w' (JSMap.set (urls w) (shortCode u) u)).
Proof.
  unfold createShortenedUrl.
  destruct (negb (isValidUrl w _)); [intros [= <- <-]; left; eauto|].
  destruct (Number.le0 _ || negb (Number.isInteger _));
    [intros [= <- <-]; left; eauto|].
  set (v := validity_or_default _).
  destruct (given _) as [custom|].
  - destruct (negb (isValidShortCode custom)); [intros [= <- <-]; left; eauto|].
    destruct (negb (isShortCodeUnique w custom)) eqn:U;
      [intros [= <- <-]; left; eauto|].
    intros [= E]. apply negb_false_iff in U. unfold isShortCodeUnique in U.
    apply negb_true_iff in U.
    destruct (store_cases request v custom w)
      as [(e & F & A & B) | (u & F & A & B & C & _ & _ & D)];
      rewrite E in *; cbn [fst snd] in *; subst r.
    + left. eauto.
    + right. exists u. subst custom. auto.
  - destruct (generateShortCode fuel w) as [[code w1]|] eqn:G; [|discriminate].
    intros [= E]. apply generateShortCode_sound in G as [S H].
    destruct (store_cases request v code w1)
      as [(e & F & A & B) | (u & F & A & B & C & _ & _ & D)];
      rewrite E in *; cbn [fst snd] in *; subst r.
    + left. exists e. destruct S as (S1 & S2 & _). intuition congruence.
    + right. exists u. subst code. repeat (split; auto).
      pose proof S as (S1 & _). rewrite <- S1.
      eapply ends_with_save_same; eauto.
Qed.

Lemma step_shape fuel op w w' :
  JSMap.wf (urls w) ->
  step fuel op w = Some w' ->
  map_step (urls w) (urls w') /\
  ((urls w' = urls w /\ localStorage w' = localStorage w) \/
   ends_with_save w w' (urls w')).
Proof.
  intros W. unfold step. destruct op as [request|code|code src| |].
  - destruct (createShortenedUrl fuel request w) as [[r w1]|] eqn:C;
      [|discriminate].
    intros [= ->].
    apply create_cases in C
      as [(e & _ & A & B) | (u & _ & A & B & D & (w0 & E & F & G))].
    + rewrite A. split; [constructor | now left].
    + assert (U : urls w' = JSMap.set (urls w) (shortCode u) u)
        by (subst w'; now rewrite save_urls).
      rewrite U. split; [now constructor|]. right. exists w0. tauto.
  - intros [= <-].
    destruct (getShortenedUrl_cases code w)
      as [[G R] | [(url & G & F1 & F2 & R) | (url & G & F & R)]];
      rewrite R; cbn [snd].
    + split; [constructor | now left].
    + rewrite save_urls. cbn [urls set_urls]. split; [now constructor|].
      right. eexists. split; [reflexivity|]. cbn. tauto.
    + split; [constructor | now left].
  - intros [= <-]. unfold accessShortenedUrl.
    destruct (getShortenedUrl_cases code w)
      as [[G R] | [(url & G & F1 & F2 & R) | (url & G & F & R)]];
      rewrite R.
    + split; [constructor | now left].
    + cbn [isExpired set_isExpired snd]. rewrite save_urls.
      cbn [urls set_urls]. split; [now constructor|].
      right. eexists. split; [reflexivity|]. cbn. tauto.
    + destruct (isExpired url) eqn:E; cbn [snd].
      * split; [constructor | now left].
      * cbn [Date_now generateIpHash Math_random_token snd].
        rewrite save_urls. cbn [urls set_urls tick draw].
        split; [now constructor|].
        right. eexists. split; [reflexivity|]. cbn. tauto.
  - intros [= <-]. split; [constructor | now left].
  - intros [= <-].
    destruct (cleanupExpiredUrls_urls w W) as (A & B).
    rewrite A. split; [constructor|].
    unfold cleanupExpiredUrls in *. cbn [Date_now urls tick ticks clock] in *.
    destruct (sweep _ _ _) as [m c]. cbn [snd] in B. subst c.
    destruct (0 <? _) eqn:E; cbn [snd] in *.
    + right. rewrite save_urls in A. cbn in A. rewrite <- A.
      eexists. split; [reflexivity|]. cbn. tauto.
    + left. cbn in *. split; auto. now apply filter_none.
Qed.

End StepFacts.

(** ** What is written to the store *)

Lemma ends_with_save_stored w w' m :
  quotaExceeded w = false -> ends_with_save w w' m ->
  exists n,
    JSMap.get (localStorage w') STORAGE_KEY
      = Some (snapshot (urls w') (JSDate.iso (clock w n))) /\
    forall k, k <> STORAGE_KEY ->
              JSMap.get (localStorage w') k = JSMap.get (localStorage w) k.
Proof.
  intros Q (w0 & -> & U & C & Q0 & L). exists (ticks w0).
  rewrite save_urls, save_localStorage, Q0, Q, get_set_same, C. split; auto.
  intros k N. rewrite get_set_other by congruence. now rewrite L.
Qed.

(** C3, as the code has it. Every operation that changes the map leaves,
    under the one key [url_shortener_data], an object with exactly two
    fields: ["urls"], the array of the pairs [[shortCode, record]] of the
    whole map in the map's order, and ["lastUpdated"], the ISO-8601 string
    of a reading of the clock (the store taking the write). No operation
    touches another key of the store. *)
Theorem C3_mutation_persists_snapshot
    (fuel : nat) (op : Op) (w w' : World) :
  JSMap.wf (urls w) ->
  quotaExceeded w = false ->
  step fuel op w = Some w' ->
  (urls w' <> urls w ->
   exists n,
     JSMap.get (localStorage w') STORAGE_KEY =
       Some (JObj [("urls"%string,
                    JArr (map Snapshot.entry_json (JSMap.entries (urls w'))));
                   ("lastUpdated"%string, JStr (JSDate.iso (clock w n)))])) /\
  (forall k, k <> STORAGE_KEY ->
             JSMap.get (localStorage w') k = JSMap.get (localStorage w) k).
Proof.
  intros W Q S. destruct (step_shape fuel op w w' W S) as [_ [[U L] | E]].
  - split; [tauto|]. intros k _. now rewrite L.
  - destruct (ends_with_save_stored w w' _ Q E) as (n & G & O).
    split; [|exact O]. intros _. exists n. exact G.
Qed.

Lemma C3_mutation_persists_snapshot_witness :
  let w := Demo.world Demo.t0 in
  let op := Create (Demo.request "https://example.com/x" None (Some "abc123")) in
  exists w',
    step 1 op w = Some w' /\ urls w' <> urls w /\
    exists n,
      JSMap.get (localStorage w') STORAGE_KEY =
        Some (JObj [("urls"%string,
                     JArr (map Snapshot.entry_json (JSMap.entries (urls w'))));
                    ("lastUpdated"%string, JStr (JSDate.iso (clock w n)))]).
Proof.
  intros w op.
  destruct (step 1 op w) as [w'|] eqn:S; [|vm_compute in S; discriminate].
  exists w'. split; [reflexivity|].
  assert (N : urls w' <> urls w)
    by (vm_compute in S; injection S as <-; discriminate).
  split; [exact N|].
  refine (proj1 (C3_mutation_persists_snapshot 1 op w w' _ _ S) N).
  - solve_wf.
  - reflexivity.
Defined.

(** C3 as stated fails on the field name: after a creation the stored
    object has no field ["links"]; the pairs are under ["urls"]. *)
Lemma C3_no_links_field :
  let w := Demo.world Demo.t0 in
  let request := Demo.request "https://example.com/x" None (Some "abc123") in
  match createShortenedUrl 1 request w with
  | Some (Success u, w') =>
      match JSMap.get (localStorage w') STORAGE_KEY with
      | Some data =>
          Json.field "links" data = None /\
          Json.field "urls" data = Some (JArr [Snapshot.entry_json ("abc123"%string, u)])
      | None => False
      end
  | _ => False
  end.
Proof. vm_compute. split; reflexivity. Qed.

(** ** The expiry flag *)

Section FlagFacts.
Implicit Types (m : JSMap.t ShortenedUrl) (k : string).

Lemma map_step_wf m m' : JSMap.wf m -> map_step m m' -> JSMap.wf m'.
Proof.
  intros W S. destruct S; auto using wf_set. now apply wf_filter.
Qed.

Lemma has_true_get m k :
  JSMap.has m k = true -> exists u, JSMap.get m k = Some u.
Proof. unfold JSMap.has. destruct (JSMap.get m k); eauto; discriminate. Qed.

Lemma map_step_flag m m' k :
  JSMap.wf m -> map_step m m' ->
  flagged_expired m k -> JSMap.has m' k = true -> flagged_expired m' k.
Proof.
  intros W S (u & G & E) H. destruct S as [|code v A B C|code url A B|code url c A B|now].
  - exists u. auto.
  - exists u. split; auto. rewrite get_set_other; auto.
    intros ->. unfold JSMap.has in A. now rewrite G in A.
  - destruct (String.eqb code k) eqn:K.
    + apply String.eqb_eq in K. subst code. eexists. rewrite get_set_same. eauto.
    + apply String.eqb_neq in K. exists u. now rewrite get_set_other.
  - destruct (String.eqb code k) eqn:K.
    + apply String.eqb_eq in K. subst code. congruence.
    + apply String.eqb_neq in K. exists u. now rewrite get_set_other.
  - apply has_true_get in H as [u' G'].
    pose proof (get_In _ _ _ G') as I. apply filter_In in I as [I _].
    apply (In_get _ _ _ W) in I. exists u'. split; congruence.
Qed.

Lemma trace_head fuel ops w ws :
  trace fuel ops w = Some ws -> exists rest, ws = w :: rest.
Proof.
  destruct ops as [|op r]; simpl.
  - intros [= <-]. eauto.
  - destruct (step fuel op w); [|discriminate].
    destruct (trace fuel r w0); [|discriminate]. intros [= <-]. eauto.
Qed.

(** From the first world of a run on. *)
Lemma trace_flag_from_start fuel ops : forall w ws k j wj,
  JSMap.wf (urls w) ->
  trace fuel ops w = Some ws ->
  flagged_expired (urls w) k ->
  nth_error ws j = Some wj ->
  (forall n wn, (n <= j)%nat -> nth_error ws n = Some wn ->
                JSMap.has (urls wn) k = true) ->
  flagged_expired (urls wj) k.
Proof.
  induction ops as [|op r IH]; intros w ws k j wj W T F N P.
  - simpl in T. injection T as <-.
    destruct j as [|[|j]]; simpl in N; try discriminate.
    now injection N as <-.
  - simpl in T. destruct (step fuel op w) as [w1|] eqn:St; [|discriminate].
    destruct (trace fuel r w1) as [ws1|] eqn:T1; [|discriminate].
    injection T as <-. destruct j as [|j]; simpl in N.
    + now injection N as <-.
    + destruct (step_shape fuel op w w1 W St) as [M _].
      destruct (trace_head _ _ _ _ T1) as [rest ->].
      apply (IH w1 (w1 :: rest) k j wj); auto.
      * eapply map_step_wf; eauto.
      * eapply map_step_flag; eauto.
        apply (P 1%nat w1); [lia | reflexivity].
      * intros n wn L Hn. apply (P (S n) wn); [lia | exact Hn].
Qed.

Lemma trace_wf fuel ops : forall w ws i wi,
  JSMap.wf (urls w) -> trace fuel ops w = Some ws ->
  nth_error ws i = Some wi -> JSMap.wf (urls wi).
Proof.
  induction ops as [|op r IH]; intros w ws i wi W T N.
  - simpl in T. injection T as <-.
    destruct i as [|[|i]]; simpl in N; try discriminate.
    now injection N as <-.
  - simpl in T. destruct (step fuel op w) as [w1|] eqn:St; [|discriminate].
    destruct (trace fuel r w1) as [ws1|] eqn:T1; [|discriminate].
    injection T as <-. destruct i as [|i]; simpl in N.
    + now injection N as <-.
    + destruct (step_shape fuel op w w1 W St) as [M _].
      apply (IH w1 ws1 i wi); auto. eapply map_step_wf; eauto.
Qed.

End FlagFacts.

(** C7. Along every run of operations (create, resolve, access, list,
    purge) of a service whose map has distinct keys: if in the [i]-th world
    of the run the record under a code has [isExpired] true, and that code
    stays in the map up to the [j]-th world, then in the [j]-th world the
    record under the code still has [isExpired] true. *)
Theorem C7_isExpired_never_reset (fuel : nat) (ops : list Op) :
  forall (w : World) (ws : list World) (k : string) (i j : nat) (wi wj : World),
  JSMap.wf (urls w) ->
  trace fuel ops w = Some ws ->
  (i <= j)%nat ->
  nth_error ws i = Some wi ->
  nth_error ws j = Some wj ->
  flagged_expired (urls wi) k ->
  (forall n wn, (i <= n <= j)%nat -> nth_error ws n = Some wn ->
                JSMap.has (urls wn) k = true) ->
  flagged_expired (urls wj) k.
Proof.
  induction ops as [|op r IH]; intros w ws k i j wi wj W T L Ni Nj F P.
  - simpl in T. injection T as <-.
    destruct i as [|[|i]], j as [|[|j]]; simpl in Ni, Nj; try discriminate.
    congruence.
  - destruct i as [|i].
    + destruct (trace_head _ _ _ _ T) as [rest ->]. simpl in Ni.
      injection Ni as <-.
      apply (trace_flag_from_start fuel (op :: r) w (w :: rest) k j wj); auto.
      intros n wn Hn. apply P. lia.
    + destruct j as [|j]; [lia|].
      simpl in T. destruct (step fuel op w) as [w1|] eqn:St; [|discriminate].
      destruct (trace fuel r w1) as [ws1|] eqn:T1; [|discriminate].
      injection T as <-. simpl in Ni, Nj.
      destruct (step_shape fuel op w w1 W St) as [M _].
      apply (IH w1 ws1 k i j wi wj); auto.
      * eapply map_step_wf; eauto.
      * lia.
      * intros n wn Hn Hnth. apply (P (S n) wn); [lia | exact Hnth].
Qed.

Lemma C7_isExpired_never_reset_witness :
  let w := Demo.service (Demo.t0 + 1)
             [("abc123", Demo.link "abc123" "2024-01-01T00:00:00.000Z" [])] in
  let ops := [Resolve "abc123"; Access "abc123" (Some "direct_link"); List;
              Create (Demo.request "https://example.com/y" None None);
              Resolve "abc123"] in
  exists ws wi wj,
    trace 1 ops w = Some ws /\
    nth_error ws 1 = Some wi /\ nth_error ws 5 = Some wj /\
    flagged_expired (urls wi) "abc123" /\
    flagged_expired (urls wj) "abc123".
Proof.
  intros w ops.
  destruct (trace 1 ops w) as [ws|] eqn:T; [|vm_compute in T; discriminate].
  pose proof T as T'. vm_compute in T'. injection T' as <-.
  eexists _, _, _. split; [reflexivity|].
  split; [reflexivity|]. split; [reflexivity|].
  assert (F : flagged_expired
                (JSMap.set (urls w) "abc123"
                   (set_isExpired
                      (Demo.link "abc123" "2024-01-01T00:00:00.000Z" []) true))
                "abc123")
    by (eexists; split; vm_compute; reflexivity).
  split; [exact F|].
  refine (C7_isExpired_never_reset 1 ops w _ "abc123" 1 5 _ _ _ T _ eq_refl eq_refl F _).
  - solve_wf.
  - lia.
  - intros n wn [L1 L2] Hn.
    destruct n as [|[|[|[|[|[|n]]]]]]; try lia;
      cbn [nth_error] in Hn; injection Hn as <-; vm_compute; reflexivity.
Defined.

(** ** Termination of the code generator *)

Section GeneratorRuns.
Implicit Types (w : World) (s : string).

Lemma str_length_app s1 s2 :
  String.length (s1 ++ s2)%string = (String.length s1 + String.length s2)%nat.
Proof. induction s1; simpl; auto. Qed.

Lemma str_forallb_app p s1 s2 :
  Str.forallb p (s1 ++ s2)%string = Str.forallb p s1 && Str.forallb p s2.
Proof.
  induction s1 as [|c r IH]; simpl; auto. now rewrite IH, andb_assoc.
Qed.

(** Below 62, [chars.charAt] is one character of the alphabet. *)
Lemma charAt_chars i :
  (i < 62)%nat ->
  String.length (Str.charAt chars i) = 1%nat /\
  Str.forallb Str.is_alnum (Str.charAt chars i) = true /\
  over_chars (Str.charAt chars i) = true.
Proof.
  intros L.
  do 62 (destruct i as [|i]; [vm_compute; auto|]). lia.
Qed.

Lemma draw_n_fields n w :
  same_service w (draw_n n w) /\ draws (draw_n n w) = (n + draws w)%nat.
Proof.
  revert w. induction n as [|n IH]; intros w; simpl.
  - split; [apply same_service_refl | reflexivity].
  - destruct (IH (draw w)) as [A B]. split.
    + eapply same_service_trans; [|exact A]. unfold same_service. simpl. tauto.
    + rewrite B. simpl. lia.
Qed.

Lemma draw_chars_world n s w : snd (draw_chars n s w) = draw_n n w.
Proof.
  revert s w. induction n as [|n IH]; intros s w; simpl; auto.
Qed.

Lemma draw_n_add a b w : draw_n (a + b) w = draw_n b (draw_n a w).
Proof. revert w. induction a as [|a IH]; intros w; simpl; auto. Qed.

Lemma draw_chars_alnum n : forall s w,
  (forall i, (random w i < 62)%nat) ->
  String.length (fst (draw_chars n s w)) = (String.length s + n)%nat /\
  (Str.forallb Str.is_alnum s = true ->
   Str.forallb Str.is_alnum (fst (draw_chars n s w)) = true) /\
  (over_chars s = true -> over_chars (fst (draw_chars n s w)) = true).
Proof.
  induction n as [|n IH]; intros s w R; simpl.
  - repeat split; auto; lia.
  - destruct (charAt_chars (random w (draws w)) (R _)) as (A & B & C).
    destruct (IH (s ++ Str.charAt chars (random w (draws w)))%string (draw w) R)
      as (L & P & O).
    rewrite str_length_app, A in L. split; [lia|]. split; intros H.
    + apply P. now rewrite str_forallb_app, H, B.
    + apply O. unfold over_chars in *. now rewrite str_forallb_app, H, C.
Qed.

Lemma candidate_shape w n :
  (forall i, (random w i < 62)%nat) ->
  String.length (candidate w n) = 6%nat /\
  Str.forallb Str.is_alnum (candidate w n) = true /\
  over_chars (candidate w n) = true.
Proof.
  intros R. unfold candidate.
  destruct (draw_n_fields (SHORTCODE_LENGTH * n) w) as [(_ & _ & _ & _ & _ & E) _].
  destruct (draw_chars_alnum SHORTCODE_LENGTH ""
              (draw_n (SHORTCODE_LENGTH * n) w)) as (L & P & O).
  - intros i. rewrite E. apply R.
  - split; [exact L|]. split; [now apply P | now apply O].
Qed.

Lemma candidate_next w n :
  candidate w (S n) = candidate (snd (draw_chars SHORTCODE_LENGTH "" w)) n.
Proof.
  unfold candidate. rewrite draw_chars_world.
  replace (SHORTCODE_LENGTH * S n)%nat
    with (SHORTCODE_LENGTH + SHORTCODE_LENGTH * n)%nat by lia.
  now rewrite draw_n_add.
Qed.

Lemma generateShortCode_round0 w :
  JSMap.has (urls w) (candidate w 0) = false ->
  forall fuel, (0 < fuel)%nat ->
    generateShortCode fuel w
    = Some (candidate w 0, snd (draw_chars SHORTCODE_LENGTH "" w)).
Proof.
  intros H [|fuel] L; [lia|]. cbn [generateShortCode].
  pose proof (draw_chars_same SHORTCODE_LENGTH "" w) as (U & _).
  unfold candidate in *. rewrite Nat.mul_0_r in *. cbn [draw_n] in *.
  destruct (draw_chars SHORTCODE_LENGTH "" w) as [result w1].
  cbn [fst snd] in *. now rewrite U, H.
Qed.

(** The loop ends in the first round whose candidate is not in the map. *)
Lemma generateShortCode_first_fresh n : forall w,
  JSMap.has (urls w) (candidate w n) = false ->
  exists k w',
    (k <= n)%nat /\ JSMap.has (urls w) (candidate w k) = false /\
    same_service w w' /\
    forall fuel, (k < fuel)%nat ->
                 generateShortCode fuel w = Some (candidate w k, w').
Proof.
  induction n as [|n IH]; intros w H;
    destruct (JSMap.has (urls w) (candidate w 0)) eqn:H0;
    try congruence;
    try (exists 0%nat, (snd (draw_chars SHORTCODE_LENGTH "" w));
         split; [lia|]; split; [exact H0|];
         split; [apply draw_chars_same|];
         now apply generateShortCode_round0).
  pose proof (draw_chars_same SHORTCODE_LENGTH "" w) as D.
  rewrite candidate_next in H. pose proof D as (U & _).
  rewrite <- U in H. destruct (IH _ H) as (k & w' & Lk & Hk & Sk & G).
  exists (S k), w'. split; [lia|]. rewrite candidate_next.
  split; [now rewrite <- U|].
  split; [exact (same_service_trans _ _ _ D Sk)|].
  intros [|fuel] L; [lia|]. cbn [generateShortCode].
  unfold candidate in H0. rewrite Nat.mul_0_r in H0. cbn [draw_n] in H0.
  specialize (G fuel ltac:(lia)).
  destruct (draw_chars SHORTCODE_LENGTH "" w) as [result w1].
  cbn [fst snd] in *. now rewrite U, H0.
Qed.

End GeneratorRuns.

(** C8, as the code has it. The loop of [generateShortCode] has no bound of
    its own: it ends in the first round whose six draws spell a string
    that is not a key of the map. Whenever some round [n] does, the call
    returns (given enough fuel for the rounds before) the candidate of the
    first such round [k <= n]: a string of exactly six characters, all
    from the 62-character alphabet, that is not a key of the map; the map
    and the store are untouched. *)
Theorem C8_generator_ends_on_fresh_round (w : World) (n : nat) :
  (forall i, (random w i < 62)%nat) ->
  JSMap.has (urls w) (candidate w n) = false ->
  exists k code w',
    (k <= n)%nat /\ code = candidate w k /\
    (forall fuel, (k < fuel)%nat ->
                  generateShortCode fuel w = Some (code, w')) /\
    String.length code = 6%nat /\
    Str.forallb Str.is_alnum code = true /\
    over_chars code = true /\
    JSMap.has (urls w) code = false /\
    same_service w w'.
Proof.
  intros R H.
  destruct (generateShortCode_first_fresh n w H) as (k & w' & L & F & S & G).
  destruct (candidate_shape w k R) as (A & B & C).
  exists k, (candidate w k), w'. tauto.
Qed.

Lemma C8_generator_ends_on_fresh_round_witness :
  let w := Demo.with_random
             (Demo.service Demo.t0
                [("aaaaaa", Demo.link "aaaaaa" "2024-01-01T00:30:00.000Z" [])])
             (fun i => if (i <? 6)%nat then 0%nat else 1%nat) in
  (forall i, (random w i < 62)%nat) /\
  JSMap.has (urls w) (candidate w 1) = false /\
  exists k code w',
    (k <= 1)%nat /\ code = candidate w k /\
    (forall fuel, (k < fuel)%nat ->
                  generateShortCode fuel w = Some (code, w')) /\
    String.length code = 6%nat /\
    Str.forallb Str.is_alnum code = true /\
    over_chars code = true /\
    JSMap.has (urls w) code = false /\
    same_service w w'.
Proof.
  intros w.
  assert (R : forall i, (random w i < 62)%nat)
    by (intros i; simpl; destruct (i <? 6)%nat; lia).
  assert (H : JSMap.has (urls w) (candidate w 1) = false) by reflexivity.
  split; [exact R|]. split; [exact H|].
  exact (C8_generator_ends_on_fresh_round w 1 R H).
Defined.

(** With a random source that keeps spelling a key of the map, no amount
    of fuel is enough. *)
Lemma generator_stuck (m : JSMap.t ShortenedUrl) (fuel : nat) : forall w,
  urls w = m -> random w = (fun _ => 0%nat) ->
  JSMap.has m "aaaaaa" = true ->
  generateShortCode fuel w = None.
Proof.
  induction fuel as [|fuel IH]; intros w U R H; [reflexivity|].
  cbn [generateShortCode].
  pose proof (draw_chars_same SHORTCODE_LENGTH "" w) as (U1 & _ & _ & _ & _ & R1).
  assert (E : fst (draw_chars SHORTCODE_LENGTH "" w) = "aaaaaa"%string)
    by (unfold SHORTCODE_LENGTH; cbn [draw_chars Math_random_index fst random draw];
        rewrite R; reflexivity).
  destruct (draw_chars SHORTCODE_LENGTH "" w) as [result w1].
  cbn [fst snd] in *. subst result. rewrite U1, U, H.
  apply IH; congruence.
Qed.

(** C8 as stated fails: the map holds a single key, far fewer than the
    62^6 codes, the random source stays within the alphabet, and yet the
    generator never returns. *)
Lemma C8_generator_can_run_forever :
  let w := Demo.service Demo.t0
             [("aaaaaa", Demo.link "aaaaaa" "2024-01-01T00:30:00.000Z" [])] in
  Z.of_nat (JSMap.size (urls w)) < 62 ^ 6 /\
  (forall i, (random w i < 62)%nat) /\
  ~ (exists fuel r, generateShortCode fuel w = Some r).
Proof.
  intros w. split; [reflexivity|]. split; [intros i; simpl; lia|].
  intros (fuel & r & G).
  rewrite (generator_stuck (urls w) fuel w) in G; try reflexivity.
  discriminate.
Qed.

(** ** Creation *)

Section CreateFacts.
Implicit Types (w : World) (s : string).

Lemma str_forallb_In p s :
  Str.forallb p s = true <->
  forall c, In c (list_ascii_of_string s) -> p c = true.
Proof.
  induction s as [|a r IH]; simpl.
  - split; [intros _ c [] | reflexivity].
  - rewrite andb_true_iff, IH. split.
    + intros [A B] c [<-|H]; auto.
    + intros H. split; [apply H; now left | intros c Hc; apply H; now right].
Qed.

Lemma isValidShortCode_iff s :
  isValidShortCode s = true <-> alphanumeric_3_20 s.
Proof.
  unfold isValidShortCode, alphanumericRegex_test, alphanumeric_3_20.
  rewrite !andb_true_iff, !Nat.leb_le, negb_true_iff, String.eqb_neq.
  rewrite str_forallb_In. split.
  - tauto.
  - intros [L A]. repeat split; try tauto.
    intros ->. simpl in L. lia.
Qed.

Lemma store_success request v code w :
  Z.abs (expiry_time (clock w (ticks w)) v) <= JSDate.maxTime ->
  exists u,
    fst (store request v code w) = Success u /\
    shortCode u = code /\
    validityMinutes u = Number.toZ v /\
    createdAt u = JSDate.iso (clock w (ticks w)) /\
    expiresAt u = JSDate.iso (expiry_time (clock w (ticks w)) v) /\
    isExpired u = false /\ clicks u = [] /\
    urls (snd (store request v code w)) = JSMap.set (urls w) code u.
Proof.
  intros L. unfold store. cbn [Date_now Math_random_token].
  unfold JSDate.ofTime. fold (expiry_time (clock w (ticks w)) v).
  apply Z.leb_le in L. rewrite L. cbn [JSDate.toISOString fst snd].
  eexists. split; [reflexivity|]. rewrite save_urls. cbn. tauto.
Qed.

End CreateFacts.

(** C2 fails on the code at [validityMinutes = 0]: the request is not
    rejected; the link is created with the default validity of 30 minutes.
    ([request.validityMinutes || DEFAULT_VALIDITY_MINUTES] takes the
    default for every falsy number, before the test [<= 0] is reached.) *)
Theorem C2_zero_validity_is_accepted :
  let w := Demo.world Demo.t0 in
  let request :=
    Demo.request "https://example.com/x" (Some (Number.ofZ 0)) None in
  exists u w',
    createShortenedUrl 1 request w = Some (Success u, w') /\
    validityMinutes u = 30 /\
    createdAt u = "2024-01-01T00:00:00.000Z"%string /\
    expiresAt u = "2024-01-01T00:30:00.000Z"%string /\
    urls w' = [("aaaaaa"%string, u)].
Proof. vm_compute. eexists _, _. repeat split; reflexivity. Qed.

(** An expiry time beyond the range of dates: [toISOString] throws, the
    [catch] answers, and neither the map nor the store has been touched. *)
Lemma store_beyond request v code w :
  JSDate.maxTime < Z.abs (expiry_time (clock w (ticks w)) v) ->
  fst (store request v code w) = Failure UnexpectedError /\
  urls (snd (store request v code w)) = urls w /\
  localStorage (snd (store request v code w)) = localStorage w.
Proof.
  intros L. unfold store. cbn [Date_now Math_random_token].
  unfold JSDate.ofTime. fold (expiry_time (clock w (ticks w)) v).
  apply Z.leb_gt in L. rewrite L. cbn. tauto.
Qed.

(** The part of C2 that the code does: with no [validityMinutes] the
    validity is 30 minutes. *)
Lemma create_default_validity fuel request w u w' :
  Request.validityMinutes request = None ->
  createShortenedUrl fuel request w = Some (Success u, w') ->
  validityMinutes u = 30.
Proof.
  intros N. unfold createShortenedUrl. rewrite N. cbn [validity_or_default].
  destruct (negb (isValidUrl w _)); [discriminate|].
  destruct (Number.le0 _ || _); [discriminate|].
  destruct (given _) as [custom|].
  - destruct (negb (isValidShortCode custom)); [discriminate|].
    destruct (negb (isShortCodeUnique w custom)); [discriminate|].
    intros [= E].
    destruct (store_cases request DEFAULT_VALIDITY_MINUTES custom w)
      as [(e & F & _) | (u0 & F & _ & _ & _ & V & _)];
      rewrite E in F; cbn [fst] in F; [discriminate|].
    injection F as <-. exact V.
  - destruct (generateShortCode fuel w) as [[code w1]|]; [|discriminate].
    intros [= E].
    destruct (store_cases request DEFAULT_VALIDITY_MINUTES code w1)
      as [(e & F & _) | (u0 & F & _ & _ & _ & V & _)];
      rewrite E in F; cbn [fst] in F; [discriminate|].
    injection F as <-. exact V.
Qed.

(** The part of C2 that the code does: a supplied number other than zero
    and NaN that is not a positive integer is rejected, and nothing
    changes. *)
Lemma create_rejects_validity fuel request w n :
  isValidUrl w (Request.originalUrl request) = true ->
  Request.validityMinutes request = Some n ->
  Number.truthy n = true ->
  Number.le0 n = true \/ Number.isInteger n = false ->
  createShortenedUrl fuel request w = Some (Failure InvalidValidity, w).
Proof.
  intros U V T B. unfold createShortenedUrl. rewrite U, V. cbn [negb].
  unfold validity_or_default. rewrite T.
  destruct B as [-> | ->]; [reflexivity | now rewrite orb_true_r].
Qed.

(** C4, as the code has it. For a request whose URL and validity pass and
    whose [customShortCode] is a non-empty string: a string that is not 3
    to 20 alphanumeric characters fails with the invalid-shortcode
    message; a well-formed one that is already a key of the map fails with
    the duplicate message; in both cases nothing changes. Otherwise the
    outcome depends on the expiry time only: when it is within the range
    of dates the link is created under exactly the supplied code, and
    when it is beyond (a validity so large that [toISOString] throws) the
    request fails with the unexpected-error message, the map and the
    store being left as they were. (An empty [customShortCode] is taken
    as none given.) *)
Theorem C4_custom_code
    (fuel : nat) (request : Request.CreateUrlRequest) (w : World) (c : string) :
  isValidUrl w (Request.originalUrl request) = true ->
  let v := validity_or_default (Request.validityMinutes request) in
  Number.le0 v = false -> Number.isInteger v = true ->
  Request.customShortCode request = Some c ->
  c <> ""%string ->
  (~ alphanumeric_3_20 c ->
   createShortenedUrl fuel request w = Some (Failure InvalidShortCode, w)) /\
  (alphanumeric_3_20 c -> JSMap.has (urls w) c = true ->
   createShortenedUrl fuel request w = Some (Failure DuplicateShortCode, w)) /\
  (alphanumeric_3_20 c -> JSMap.has (urls w) c = false ->
   Z.abs (expiry_time (clock w (ticks w)) v) <= JSDate.maxTime ->
   exists u w',
     createShortenedUrl fuel request w = Some (Success u, w') /\
     shortCode u = c /\ JSMap.get (urls w') c = Some u /\
     JSMap.keys (urls w') = JSMap.keys (urls w) ++ [c]) /\
  (alphanumeric_3_20 c -> JSMap.has (urls w) c = false ->
   JSDate.maxTime < Z.abs (expiry_time (clock w (ticks w)) v) ->
   exists w',
     createShortenedUrl fuel request w = Some (Failure UnexpectedError, w') /\
     urls w' = urls w /\ localStorage w' = localStorage w).
Proof.
  intros U v L I C N. unfold createShortenedUrl. rewrite U, C. fold v.
  rewrite L, I. cbn [negb orb given].
  destruct (String.eqb c "") eqn:E; [apply String.eqb_eq in E; congruence|].
  unfold isShortCodeUnique.
  split; [|split; [|split]].
  - intros A. destruct (isValidShortCode c) eqn:V; [|reflexivity].
    apply isValidShortCode_iff in V. tauto.
  - intros A H. apply isValidShortCode_iff in A. now rewrite A, H.
  - intros A H T. apply isValidShortCode_iff in A. rewrite A, H. cbn [negb].
    destruct (store_success request v c w T)
      as (u & F & S1 & _ & _ & _ & _ & _ & M).
    exists u, (snd (store request v c w)).
    split; [now rewrite <- F, <- surjective_pairing|].
    split; [exact S1|]. rewrite M. split; [apply get_set_same|].
    rewrite set_absent by assumption. unfold JSMap.keys.
    now rewrite map_app.
  - intros A H T. apply isValidShortCode_iff in A. rewrite A, H. cbn [negb].
    destruct (store_beyond request v c w T) as (F & M & S1).
    exists (snd (store request v c w)).
    split; [now rewrite <- F, <- surjective_pairing|]. now split.
Qed.

Lemma C4_custom_code_witness :
  let w := Demo.service Demo.t0
             [("taken1", Demo.link "taken1" "2024-01-01T00:30:00.000Z" [])] in
  let request := Demo.request "https://example.com/x" None (Some "abc123") in
  exists u w',
    createShortenedUrl 1 request w = Some (Success u, w') /\
    shortCode u = "abc123"%string /\
    JSMap.get (urls w') "abc123" = Some u /\
    JSMap.keys (urls w') = ["taken1"; "abc123"]%string.
Proof.
  intros w request.
  refine (proj1 (proj2 (proj2
            (C4_custom_code 1 request w "abc123" _ _ _ _ _))) _ _ _).
  - reflexivity.
  - reflexivity.
  - reflexivity.
  - reflexivity.
  - discriminate.
  - apply isValidShortCode_iff. reflexivity.
  - reflexivity.
  - vm_compute. discriminate.
Defined.

(** C4 as stated fails for the empty string: it is not a string of 3 to
    20 alphanumeric characters, yet the request succeeds, under a
    generated code. *)
Lemma C4_empty_custom_code_is_ignored :
  let w := Demo.world Demo.t0 in
  let request := Demo.request "https://example.com/x" None (Some "") in
  ~ alphanumeric_3_20 "" /\
  exists u w',
    createShortenedUrl 1 request w = Some (Success u, w') /\
    shortCode u = "aaaaaa"%string /\
    JSMap.get (urls w') "aaaaaa" = Some u.
Proof.
  split.
  - intros [L _]. simpl in L. lia.
  - vm_compute. eexists _, _. repeat split; reflexivity.
Qed.

(** ** The stable sort by count *)

Section SortFacts.

(** [a] may stand before [b]: its count is not smaller. *)
Let before (a b : SourceCount) : Prop := count b <= count a.

Lemma insert_perm {A} (cmp : A -> A -> Z) x l :
  Permutation (JSArray.insert cmp x l) (x :: l).
Proof.
  induction l as [|y r IH]; simpl; auto.
  destruct (cmp x y <=? 0); auto.
  rewrite IH. apply perm_swap.
Qed.

Lemma sort_perm {A} (cmp : A -> A -> Z) l :
  Permutation (JSArray.sort cmp l) l.
Proof.
  induction l as [|x r IH]; simpl; auto.
  rewrite insert_perm. now constructor.
Qed.

Lemma insert_sorted x l :
  StronglySorted before l ->
  StronglySorted before (JSArray.insert by_count x l).
Proof.
  induction l as [|y r IH]; intros S; simpl.
  - repeat constructor.
  - inversion S as [|? ? Sr Fy]; subst.
    destruct (by_count x y <=? 0) eqn:E.
    + apply Z.leb_le in E. constructor; auto. constructor.
      * unfold before, by_count in *. lia.
      * eapply Forall_impl; [|exact Fy]. unfold before, by_count in *.
        intros z Hz. lia.
    + apply Z.leb_gt in E. constructor; auto.
      eapply Permutation_Forall; [symmetry; apply insert_perm|].
      constructor; auto. unfold before, by_count in *. lia.
Qed.

Lemma sort_sorted l : StronglySorted before (JSArray.sort by_count l).
Proof.
  induction l as [|x r IH]; simpl; [constructor | now apply insert_sorted].
Qed.

Lemma insert_stable c x l :
  filter (fun e => count e =? c) (JSArray.insert by_count x l)
  = filter (fun e => count e =? c) (x :: l).
Proof.
  induction l as [|y r IH]; [reflexivity|].
  cbn [JSArray.insert]. destruct (by_count x y <=? 0) eqn:E; [reflexivity|].
  apply Z.leb_gt in E. unfold by_count in E.
  cbn [filter] in *. rewrite IH.
  destruct (count x =? c) eqn:X; [|reflexivity].
  apply Z.eqb_eq in X.
  destruct (count y =? c) eqn:Y; [|reflexivity].
  apply Z.eqb_eq in Y. lia.
Qed.

(** The sort keeps the entries of equal count in their order. *)
Lemma sort_stable c l :
  filter (fun e => count e =? c) (JSArray.sort by_count l)
  = filter (fun e => count e =? c) l.
Proof.
  induction l as [|x r IH]; [reflexivity|].
  cbn [JSArray.sort fold_right]. fold (JSArray.sort by_count r).
  rewrite insert_stable. cbn [filter]. now rewrite IH.
Qed.

End SortFacts.

(** ** Counting by source *)

Section CountFacts.
Implicit Types (l seen : list string) (s : string).

Lemma existsb_eqb_In s l : existsb (String.eqb s) l = true <-> In s l.
Proof.
  rewrite existsb_exists. split.
  - intros (x & H & E). apply String.eqb_eq in E. now subst.
  - intros H. exists s. split; auto. apply String.eqb_refl.
Qed.

Lemma first_seen_In seen l x :
  In x (Spec.first_seen seen l) <-> In x l /\ ~ In x seen.
Proof.
  revert seen. induction l as [|a r IH]; intros seen; simpl; [tauto|].
  destruct (existsb (String.eqb a) seen) eqn:E.
  - apply existsb_eqb_In in E. rewrite IH. split; [tauto|].
    intros [[<-|H] N]; tauto.
  - assert (N : ~ In a seen) by (rewrite <- existsb_eqb_In; congruence).
    simpl. rewrite IH. simpl. split.
    + intros [<-|[H1 H2]]; tauto.
    + intros [[<-|H1] H2]; [tauto|].
      destruct (string_dec a x); [tauto|]. right. tauto.
Qed.

Lemma first_seen_NoDup seen l : NoDup (Spec.first_seen seen l).
Proof.
  revert seen. induction l as [|a r IH]; intros seen; simpl; [constructor|].
  destruct (existsb (String.eqb a) seen); auto.
  constructor; auto. rewrite first_seen_In. simpl. tauto.
Qed.

Lemma first_seen_snoc seen l s :
  Spec.first_seen seen (l ++ [s])
  = Spec.first_seen seen l
    ++ (if existsb (String.eqb s) (seen ++ l) then [] else [s]).
Proof.
  revert seen. induction l as [|a r IH]; intros seen; simpl.
  - rewrite app_nil_r. now destruct (existsb (String.eqb s) seen).
  - destruct (existsb (String.eqb a) seen) eqn:E.
    + rewrite IH. f_equal. rewrite !existsb_app. simpl.
      destruct (String.eqb s a) eqn:Sa; auto.
      apply String.eqb_eq in Sa. subst a. now rewrite E.
    + simpl. rewrite IH. do 2 f_equal. rewrite !existsb_app. simpl.
      rewrite String.eqb_sym.
      destruct (String.eqb a s), (existsb (String.eqb s) seen); auto.
Qed.

Lemma occurrences_snoc x l s :
  Spec.occurrences x (l ++ [s])
  = Spec.occurrences x l + (if String.eqb x s then 1 else 0).
Proof.
  unfold Spec.occurrences. rewrite filter_app, length_app. simpl.
  destruct (String.eqb x s); simpl; lia.
Qed.

Lemma occurrences_absent x l : ~ In x l -> Spec.occurrences x l = 0.
Proof.
  intros N. unfold Spec.occurrences.
  replace (filter (String.eqb x) l) with (@nil string); auto.
  symmetry. induction l as [|a r IH]; simpl; auto.
  destruct (String.eqb x a) eqn:E.
  - apply String.eqb_eq in E. subst. simpl in N. tauto.
  - apply IH. simpl in N. tauto.
Qed.

(** [bump] on a table with distinct names. *)
Lemma bump_table s (g : string -> Z) ks :
  NoDup ks ->
  JSObject.bump s (map (fun x => (x, g x)) ks)
  = map (fun x => (x, g x + (if String.eqb x s then 1 else 0))) ks
    ++ (if existsb (String.eqb s) ks then [] else [(s, 1)]).
Proof.
  induction ks as [|k r IH]; intros D; simpl; auto.
  inversion D as [|? ? Hn Hr]; subst.
  destruct (String.eqb s k) eqn:E.
  - apply String.eqb_eq in E. subst k. rewrite String.eqb_refl. simpl.
    rewrite app_nil_r. f_equal. apply map_ext_in. intros x Hx.
    destruct (String.eqb x s) eqn:X.
    + apply String.eqb_eq in X. subst. tauto.
    + now rewrite Z.add_0_r.
  - rewrite IH by assumption. simpl. rewrite String.eqb_sym, E.
    now rewrite Z.add_0_r.
Qed.

Lemma sourceCounts_sources cs :
  sourceCounts cs
  = fold_left (fun acc s => JSObject.bump s acc) (map source cs) [].
Proof.
  unfold sourceCounts. generalize (@nil (string * Z)).
  induction cs as [|c r IH]; intros acc; simpl; auto.
Qed.

(** The counting object holds the sources in first-encountered order,
    each with its number of occurrences. *)
Lemma counts_grouped l :
  fold_left (fun acc s => JSObject.bump s acc) l []
  = map (fun s => (s, Spec.occurrences s l)) (Spec.first_seen [] l).
Proof.
  induction l as [|s r IH] using rev_ind; [reflexivity|].
  rewrite fold_left_app. cbn [fold_left]. rewrite IH.
  rewrite bump_table by apply first_seen_NoDup.
  rewrite first_seen_snoc, map_app. cbn [app]. f_equal.
  - apply map_ext. intros x. now rewrite occurrences_snoc.
  - assert (E : existsb (String.eqb s) (Spec.first_seen [] r)
                = existsb (String.eqb s) r).
    { apply eq_true_iff_eq. rewrite !existsb_eqb_In, first_seen_In.
      simpl. tauto. }
    rewrite E. destruct (existsb (String.eqb s) r) eqn:X; [reflexivity|].
    cbn [map]. rewrite occurrences_snoc, String.eqb_refl.
    rewrite occurrences_absent; [reflexivity|].
    rewrite <- existsb_eqb_In. congruence.
Qed.

Lemma entries_plain (o : JSObject.t) :
  (forall kv, In kv o -> JSObject.is_array_index (fst kv) = false) ->
  JSObject.entries o = o.
Proof.
  intros H. unfold JSObject.entries.
  replace (filter (fun kv => JSObject.is_array_index (fst kv)) o)
    with (@nil (string * Z)).
  - simpl. apply forallb_filter_id. apply forallb_forall.
    intros kv Hin. now rewrite H.
  - symmetry. induction o as [|kv r IH]; simpl; auto.
    rewrite H by now left. apply IH. intros kv' Hin. apply H. now right.
Qed.

End CountFacts.

(** C10, as the code has it. Over links whose click sources are neither
    array indices nor names of inherited object properties, the page's
    [getTopSources] is the aggregation of the specification: the first
    five entries of a list that holds each distinct source once with its
    number of occurrences, in descending order of count, the sources of
    equal count in first-encountered order. Three records with clicks from
    the sources a, a, b give [{a,2},{b,1}]. (Sources that are array
    indices are listed by [Object.entries] before the others, in numeric
    order.) *)
Theorem C10_top_sources (links : list ShortenedUrl) :
  let sources := map source (flat_map clicks links) in
  (forall s, In s sources ->
             JSObject.is_array_index s = false /\ JSObject.inherited s = false) ->
  Analytics.getTopSources links = Some (Spec.topSources links 5) /\
  (exists full,
      Analytics.getTopSources links = Some (firstn 5 full) /\
      Permutation full (Spec.grouped sources) /\
      StronglySorted (fun a b => count b <= count a) full /\
      forall c, filter (fun e => count e =? c) full
                = filter (fun e => count e =? c) (Spec.grouped sources)) /\
  Analytics.getTopSources
    [Demo.link "aaaaaa" "2024-01-01T00:30:00.000Z" [Demo.click "a"];
     Demo.link "bbbbbb" "2024-01-01T00:30:00.000Z" [Demo.click "a"];
     Demo.link "cccccc" "2024-01-01T00:30:00.000Z" [Demo.click "b"]]
  = Some [{| name := "a"; count := 2 |}; {| name := "b"; count := 1 |}].
Proof.
  intros sources H.
  assert (E : Analytics.getTopSources links = Some (Spec.topSources links 5)).
  { unfold Analytics.getTopSources, getTopSources, Spec.topSources.
    replace (existsb (fun c => JSObject.inherited (source c))
               (flat_map clicks links)) with false.
    - rewrite sourceCounts_sources. fold sources. rewrite counts_grouped.
      rewrite entries_plain.
      + unfold Spec.grouped. now rewrite map_map.
      + intros kv Hin. apply in_map_iff in Hin as (s & <- & Hs).
        apply first_seen_In in Hs as [Hs _]. now apply H.
    - symmetry. apply not_true_is_false. intros X.
      apply existsb_exists in X as (c & Hc & I).
      destruct (H (source c)) as [_ N]; [|congruence].
      unfold sources. now apply in_map. }
  split; [exact E|]. split; [|reflexivity].
  exists (JSArray.sort by_count (Spec.grouped sources)).
  split; [exact E|]. split; [apply sort_perm|].
  split; [apply sort_sorted | intros c; apply sort_stable].
Qed.

Lemma C10_top_sources_witness :
  let links :=
    [Demo.link "aaaaaa" "2024-01-01T00:30:00.000Z"
       [Demo.click "results_page"; Demo.click "direct_link"];
     Demo.link "bbbbbb" "2024-01-01T00:30:00.000Z" [Demo.click "direct_link"]] in
  Analytics.getTopSources links
  = Some [{| name := "direct_link"; count := 2 |};
          {| name := "results_page"; count := 1 |}].
Proof.
  intros links.
  refine (eq_trans (proj1 (C10_top_sources links _)) _); [|reflexivity].
  intros s Hs. simpl in Hs.
  destruct Hs as [<-|[<-|[<-|[]]]]; split; reflexivity.
Defined.

(** C10 as stated fails on the order of ties: with one click from source
    "2" and then one from source "1", the counts are equal and the source
    met first is "2", yet the page lists "1" first. *)
Lemma C10_ties_not_in_first_seen_order :
  let links :=
    [Demo.link "aaaaaa" "2024-01-01T00:30:00.000Z"
       [Demo.click "2"; Demo.click "1"]] in
  Spec.topSources links 5
  = [{| name := "2"; count := 1 |}; {| name := "1"; count := 1 |}] /\
  Analytics.getTopSources links
  = Some [{| name := "1"; count := 1 |}; {| name := "2"; count := 1 |}] /\
  Analytics.getTopSources links <> Some (Spec.topSources links 5).
Proof. vm_compute. repeat split; discriminate. Qed.

(** ** The model run on known values *)

Example iso_epoch :
  JSDate.toISOString (JSDate.ofTime 0) = Some "1970-01-01T00:00:00.000Z"%string.
Proof. reflexivity. Qed.

Example iso_before_epoch :
  JSDate.toISOString (JSDate.ofTime (-1)) = Some "1969-12-31T23:59:59.999Z"%string.
Proof. reflexivity. Qed.

Example iso_largest_date :
  JSDate.toISOString (JSDate.ofTime JSDate.maxTime)
  = Some "+275760-09-13T00:00:00.000Z"%string /\
  JSDate.toISOString (JSDate.ofTime (JSDate.maxTime + 1)) = None.
Proof. split; reflexivity. Qed.

Example parse_leap_day :
  JSDate.parse "2024-02-29T23:59:59.999Z" = Some 1709251199999 /\
  JSDate.parse "2023-02-29T00:00:00.000Z" = None /\
  JSDate.parse "-271821-04-20T00:00:00.000Z" = Some (- JSDate.maxTime).
Proof. repeat split; reflexivity. Qed.

Example coarse_location :
  getCoarseLocation (Demo.world Demo.t0) = "Kolkata"%string.
Proof. reflexivity. Qed.

(** Scenario A: a created link resolves, not expired. *)
Example scenario_A :
  let request :=
    Demo.request "https://example.com/x" (Some (Number.ofZ 30)) None in
  match createShortenedUrl 1 request (Demo.world Demo.t0) with
  | Some (Success u, w') =>
      fst (getShortenedUrl (shortCode u) w') = Some u /\ isExpired u = false
  | _ => False
  end.
Proof. vm_compute. split; reflexivity. Qed.

(** Scenario B: a URL that is not http or https is refused. *)
Example scenario_B :
  let request := Demo.request "ftp://bad" None None in
  option_map fst (createShortenedUrl 1 request (Demo.world Demo.t0))
  = Some (Failure InvalidUrl).
Proof. reflexivity. Qed.

(** Scenario C: a custom code of two characters is refused. *)
Example scenario_C :
  let request := Demo.request "https://example.com/x" None (Some "ab") in
  option_map fst (createShortenedUrl 1 request (Demo.world Demo.t0))
  = Some (Failure InvalidShortCode).
Proof. reflexivity. Qed.

(** Scenario D: the second use of a custom code is refused. *)
Example scenario_D :
  let request := Demo.request "https://example.com/x" None (Some "abc123") in
  match createShortenedUrl 1 request (Demo.world Demo.t0) with
  | Some (Success _, w') =>
      option_map fst (createShortenedUrl 1 request w')
      = Some (Failure DuplicateShortCode)
  | _ => False
  end.
Proof. vm_compute. reflexivity. Qed.

(** A validity that takes the expiry past the last date: the [catch] of
    [createShortenedUrl] answers, and nothing is stored. *)
Example expiry_out_of_range :
  let request :=
    Demo.request "https://example.com/x"
      (Some (Number.ofZ 1000000000000000)) (Some "abc123") in
  match createShortenedUrl 1 request (Demo.world Demo.t0) with
  | Some (Failure e, w') => e = UnexpectedError /\ urls w' = []
  | _ => False
  end.
Proof. vm_compute. split; reflexivity. Qed.

(** ** Dates written and read back *)

Section CalendarFacts.

Lemma all_from_spec p n : forall z i,
  Calendar.all_from p n z = true -> z <= i < z + Z.of_nat n -> p i = true.
Proof.
  induction n as [|n IH]; intros z i H R; [lia|].
  cbn [Calendar.all_from] in H. apply andb_true_iff in H as [H0 H1].
  destruct (Z.eq_dec i z) as [->|N]; auto.
  apply (IH (z + 1)); auto. lia.
Qed.

Lemma era_days_ok :
  Calendar.all_from Calendar.era_day_ok (Z.to_nat 146097) 0 = true.
Proof. vm_compute. reflexivity. Qed.

Lemma days_in_month_era y k m :
  JSDate.days_in_month (y + k * 400) m = JSDate.days_in_month y m.
Proof.
  unfold JSDate.days_in_month.
  replace ((y + k * 400) mod 4) with (y mod 4)
    by (replace (k * 400) with (k * 100 * 4) by lia; now rewrite Z_mod_plus_full).
  replace ((y + k * 400) mod 100) with (y mod 100)
    by (replace (k * 400) with (k * 4 * 100) by lia; now rewrite Z_mod_plus_full).
  now rewrite Z_mod_plus_full.
Qed.

(** The civil date of a day number is a date of the calendar, its year is
    within the era of the day, and it has that day number. *)
Lemma civil_from_days_spec z :
  let '(y, m, d) := JSDate.civil_from_days z in
  let era := (z + 719468) / 146097 in
  1 <= m <= 12 /\ 1 <= d <= JSDate.days_in_month y m /\
  era * 400 <= y <= era * 400 + 400 /\
  JSDate.days_from_civil y m d = z.
Proof.
  unfold JSDate.civil_from_days. cbv zeta.
  set (era := (z + 719468) / 146097).
  set (doe := z + 719468 - era * 146097).
  assert (R : 0 <= doe < 0 + Z.of_nat (Z.to_nat 146097)).
  { unfold doe, era. pose proof (Z.mod_pos_bound (z + 719468) 146097).
    rewrite Z.mod_eq in H by lia. lia. }
  pose proof (all_from_spec _ _ _ _ era_days_ok R) as C.
  unfold Calendar.era_day_ok in C. cbv zeta in C.
  set (yoe := (doe - doe / 1460 + doe / 36524 - doe / 146096) / 365) in *.
  set (doy := doe - (365 * yoe + yoe / 4 - yoe / 100)) in *.
  set (mp := (5 * doy + 2) / 153) in *.
  set (d := doy - (153 * mp + 2) / 5 + 1) in *.
  set (m := if mp <? 10 then mp + 3 else mp - 9) in *.
  repeat (apply andb_true_iff in C as [C ?]).
  repeat match goal with
         | H : (_ <=? _) = true |- _ => apply Z.leb_le in H
         | H : (_ =? _) = true |- _ => apply Z.eqb_eq in H
         end.
  assert (M : 1 <= m <= 12) by (unfold m; destruct (mp <? 10) eqn:E;
    [apply Z.ltb_lt in E | apply Z.ltb_ge in E]; lia).
  assert (Y : (if m <=? 2 then yoe + era * 400 + 1 else yoe + era * 400)
              = (if m <=? 2 then yoe + 1 else yoe) + era * 400)
    by (destruct (m <=? 2); lia).
  split; [exact M|]. rewrite Y, days_in_month_era.
  split; [lia|]. split; [destruct (m <=? 2); lia|].
  unfold JSDate.days_from_civil. cbv zeta.
  replace (if m <=? 2
           then (if m <=? 2 then yoe + 1 else yoe) + era * 400 - 1
           else (if m <=? 2 then yoe + 1 else yoe) + era * 400)
    with (yoe + era * 400) by (destruct (m <=? 2); lia).
  rewrite Z.div_add, (Z.div_small yoe 400) by lia.
  replace (yoe + era * 400 - (0 + era) * 400) with yoe by lia.
  unfold doe in *. lia.
Qed.

Lemma digit_spec a :
  0 <= a <= 9 ->
  Str.is_digit (Str.digit a) = true /\
  Z.of_nat (nat_of_ascii (Str.digit a) - 48) = a /\
  Ascii.eqb (Str.digit a) "+" = false /\ Ascii.eqb (Str.digit a) "-" = false.
Proof.
  intros R.
  assert (C : a = 0 \/ a = 1 \/ a = 2 \/ a = 3 \/ a = 4 \/ a = 5 \/ a = 6
              \/ a = 7 \/ a = 8 \/ a = 9) by lia.
  repeat (destruct C as [->|C]; [repeat split; reflexivity|]).
  subst. repeat split; reflexivity.
Qed.

Lemma digits_from_digit acc a r :
  0 <= a <= 9 ->
  Str.digits_from acc (String (Str.digit a) r) = Str.digits_from (10 * acc + a) r.
Proof.
  intros R. destruct (digit_spec a R) as (D & V & _).
  cbn [Str.digits_from]. now rewrite D, V.
Qed.

Lemma substring_all s : substring 0 (String.length s) s = s.
Proof. induction s as [|c r IH]; simpl; auto. now rewrite IH. Qed.

(** The part of an ISO string after the year, read back. *)
Lemma parse_rest_written y m d h mi sec ms :
  1 <= m <= 12 -> 1 <= d <= JSDate.days_in_month y m ->
  0 <= h <= 23 -> 0 <= mi <= 59 -> 0 <= sec <= 59 -> 0 <= ms <= 999 ->
  JSDate.parse_rest y
    ("-" ++ Str.pad 2 m ++ "-" ++ Str.pad 2 d ++ "T" ++ Str.pad 2 h ++ ":"
     ++ Str.pad 2 mi ++ ":" ++ Str.pad 2 sec ++ "." ++ Str.pad 3 ms ++ "Z")%string
  = JSDate.ofTime (JSDate.days_from_civil y m d * JSDate.msPerDay
                   + h * 3600000 + mi * 60000 + sec * 1000 + ms).
Proof.
  intros Rm Rd Rh Rmi Rs Rms.
  assert (Dm : JSDate.days_in_month y m <= 31)
    by (unfold JSDate.days_in_month;
        repeat match goal with |- context [if ?b then _ else _] => destruct b end;
        lia).
  unfold JSDate.parse_rest.
  cbn [Str.pad String.append String.length Nat.eqb negb substring
       String.eqb Ascii.eqb Bool.eqb andb Str.digits].
  rewrite !digits_from_digit
    by (match goal with |- 0 <= ?x mod 10 <= 9 =>
          pose proof (Z.mod_pos_bound x 10); lia end).
  cbn [Str.digits_from].
  replace (10 * (10 * 0 + m / 10 mod 10) + m mod 10) with m
    by (Z.to_euclidean_division_equations; lia).
  replace (10 * (10 * 0 + d / 10 mod 10) + d mod 10) with d
    by (Z.to_euclidean_division_equations; lia).
  replace (10 * (10 * 0 + h / 10 mod 10) + h mod 10) with h
    by (Z.to_euclidean_division_equations; lia).
  replace (10 * (10 * 0 + mi / 10 mod 10) + mi mod 10) with mi
    by (Z.to_euclidean_division_equations; lia).
  replace (10 * (10 * 0 + sec / 10 mod 10) + sec mod 10) with sec
    by (Z.to_euclidean_division_equations; lia).
  replace (10 * (10 * (10 * 0 + ms / 10 / 10 mod 10) + ms / 10 mod 10)
           + ms mod 10) with ms
    by (Z.to_euclidean_division_equations; lia).
  replace ((1 <=? m) && (m <=? 12) && (1 <=? d)
           && (d <=? JSDate.days_in_month y m) && (h <=? 23) && (mi <=? 59)
           && (sec <=? 59)) with true; [reflexivity|].
  symmetry. repeat (apply andb_true_iff; split); apply Z.leb_le; lia.
Qed.

Lemma substring_none s : substring 0 0 s = ""%string.
Proof. now destruct s. Qed.

Lemma parse_year_string y rest :
  -999999 <= y <= 999999 ->
  String.length rest = 20%nat ->
  JSDate.parse (JSDate.year_string y ++ rest) = JSDate.parse_rest y rest.
Proof.
  intros R L. unfold JSDate.year_string.
  assert (D : forall x, 0 <= x mod 10 <= 9)
    by (intros x; pose proof (Z.mod_pos_bound x 10); lia).
  destruct ((0 <=? y) && (y <=? 9999)) eqn:E.
  - apply andb_true_iff in E as [E1 E2].
    apply Z.leb_le in E1. apply Z.leb_le in E2.
    unfold JSDate.parse. cbn [Str.pad String.append].
    destruct (digit_spec _ (D (y / 10 / 10 / 10))) as (_ & _ & P & M).
    rewrite P, M. cbn [orb substring String.length Nat.sub Str.digits].
    rewrite substring_none, Nat.sub_0_r, substring_all.
    rewrite !digits_from_digit by apply D. cbn [Str.digits_from].
    replace (10 * (10 * (10 * (10 * 0 + y / 10 / 10 / 10 mod 10)
                         + y / 10 / 10 mod 10) + y / 10 mod 10) + y mod 10)
      with y by (Z.to_euclidean_division_equations; lia).
    reflexivity.
  - assert (N : y < 0 \/ 9999 < y).
    { destruct (0 <=? y) eqn:E1; [|apply Z.leb_gt in E1; lia].
      destruct (y <=? 9999) eqn:E2; [discriminate|]. apply Z.leb_gt in E2. lia. }
    set (a := Z.abs y).
    assert (A : 0 < a <= 999999) by (unfold a; lia).
    assert (V : 10 * (10 * (10 * (10 * (10 * (10 * 0
                  + a / 10 / 10 / 10 / 10 / 10 mod 10)
                  + a / 10 / 10 / 10 / 10 mod 10) + a / 10 / 10 / 10 mod 10)
                  + a / 10 / 10 mod 10) + a / 10 mod 10) + a mod 10 = a)
      by (Z.to_euclidean_division_equations; lia).
    unfold JSDate.parse.
    destruct (y <? 0) eqn:S; cbn [Str.pad String.append Ascii.eqb Bool.eqb orb andb
                                  substring String.length Nat.sub Str.digits];
      rewrite substring_none, Nat.sub_0_r, substring_all;
      rewrite !digits_from_digit by apply D; cbn [Str.digits_from];
      rewrite V.
    + apply Z.ltb_lt in S. replace (a =? 0) with false by (symmetry; apply Z.eqb_neq; lia).
      now replace (- a) with y by (unfold a; lia).
    + apply Z.ltb_ge in S. now replace a with y by (unfold a; lia).
Qed.

(** An ISO string written for a valid time value reads back as that
    value. *)
Lemma parse_iso t :
  Z.abs t <= JSDate.maxTime -> JSDate.parse (JSDate.iso t) = Some t.
Proof.
  intros R. unfold JSDate.iso.
  pose proof (civil_from_days_spec (t / JSDate.msPerDay)) as C.
  destruct (JSDate.civil_from_days (t / JSDate.msPerDay)) as [[y m] d].
  cbv zeta in C. destruct C as (Rm & Rd & Ry & E).
  set (r := t mod JSDate.msPerDay).
  assert (Rr : 0 <= r < 86400000) by (apply Z.mod_pos_bound; reflexivity).
  assert (T : t = t / JSDate.msPerDay * JSDate.msPerDay + r)
    by (unfold r; rewrite Z.mod_eq by (unfold JSDate.msPerDay; lia); lia).
  unfold JSDate.maxTime, JSDate.msPerDay in *.
  rewrite parse_year_string.
  - rewrite parse_rest_written; try assumption;
      try (Z.to_euclidean_division_equations; lia).
    rewrite E. unfold JSDate.ofTime, JSDate.msPerDay, JSDate.maxTime.
    replace (t / 86400000 * 86400000 + r / 3600000 * 3600000
             + r / 60000 mod 60 * 60000 + r / 1000 mod 60 * 1000 + r mod 1000)
      with t by (Z.to_euclidean_division_equations; lia).
    apply Z.leb_le in R. now rewrite R.
  - Z.to_euclidean_division_equations. lia.
  - reflexivity.
Qed.

End CalendarFacts.

(** ** Creation, in full *)

Section CreateMore.
Implicit Types (w : World).

Lemma positive_integer v :
  Number.le0 v = false -> Number.isInteger v = true -> 1 <= Number.toZ v.
Proof.
  destruct v as [| | |q]; simpl; try discriminate.
  unfold Qle_bool. destruct q as [n d]. simpl. intros L I.
  apply Z.leb_gt in L. apply Z.eqb_eq in I.
  assert (E : n = Z.pos d * (n / Z.pos d))
    by (apply Z_div_exact_full_2; [discriminate | exact I]).
  assert (D : 0 < Z.pos d) by reflexivity.
  destruct (Z_lt_le_dec (n / Z.pos d) 1) as [B|B]; [|exact B].
  exfalso. nia.
Qed.

Lemma generateShortCode_ticks fuel w code w' :
  generateShortCode fuel w = Some (code, w') ->
  ticks w' = ticks w /\ clock w' = clock w.
Proof.
  intros G. apply generateShortCode_sound in G as [(_ & _ & _ & C & T & _) _].
  auto.
Qed.

(** Everything a successful creation fixes. *)
Lemma create_success fuel request w u w' :
  createShortenedUrl fuel request w = Some (Success u, w') ->
  let v := validity_or_default (Request.validityMinutes request) in
  let now := clock w (ticks w) in
  isValidUrl w (Request.originalUrl request) = true /\
  1 <= Number.toZ v /\
  Z.abs (expiry_time now v) <= JSDate.maxTime /\
  originalUrl u = Request.originalUrl request /\
  validityMinutes u = Number.toZ v /\
  createdAt u = JSDate.iso now /\
  expiresAt u = JSDate.iso (expiry_time now v) /\
  isExpired u = false /\ clicks u = [] /\
  JSMap.has (urls w) (shortCode u) = false /\
  urls w' = JSMap.set (urls w) (shortCode u) u /\
  clock w' = clock w /\ ticks w' = (3 + ticks w)%nat /\
  (forall c, given (Request.customShortCode request) = Some c ->
             shortCode u = c /\ isValidShortCode c = true).
Proof.
  intros C v now. unfold createShortenedUrl in C. fold v in C.
  destruct (isValidUrl w _) eqn:U; [|discriminate]. cbn [negb] in C.
  destruct (Number.le0 v) eqn:L; [discriminate|].
  destruct (Number.isInteger v) eqn:I; [|discriminate]. cbn [negb orb] in C.
  pose proof (positive_integer v L I) as P.
  assert (S : forall code w0,
             store request v code w0 = (Success u, w') ->
             Z.abs (expiry_time (clock w0 (ticks w0)) v) <= JSDate.maxTime /\
             originalUrl u = Request.originalUrl request /\
             validityMinutes u = Number.toZ v /\
             createdAt u = JSDate.iso (clock w0 (ticks w0)) /\
             expiresAt u = JSDate.iso (expiry_time (clock w0 (ticks w0)) v) /\
             isExpired u = false /\ clicks u = [] /\ shortCode u = code /\
             urls w' = JSMap.set (urls w0) code u /\
             clock w' = clock w0 /\ ticks w' = (3 + ticks w0)%nat).
  { intros code w0. unfold store. cbn [Date_now Math_random_token].
    unfold JSDate.ofTime. fold (expiry_time (clock w0 (ticks w0)) v).
    destruct (Z.abs _ <=? JSDate.maxTime) eqn:B;
      cbn [JSDate.toISOString]; [|discriminate].
    intros [= <- <-]. apply Z.leb_le in B.
    rewrite save_urls, save_clock, save_ticks. cbn. tauto. }
  destruct (given (Request.customShortCode request)) as [custom|] eqn:G.
  - destruct (isValidShortCode custom) eqn:V; [|discriminate].
    destruct (isShortCodeUnique w custom) eqn:Q; [|discriminate].
    cbn [negb] in C. injection C as C.
    destruct (S _ _ C) as (A1 & A2 & A3 & A4 & A5 & A6 & A7 & A8 & A9 & A10 & A11).
    unfold isShortCodeUnique in Q. apply negb_true_iff in Q.
    subst custom. repeat (split; auto).
    + now injection H as <-.
    + now injection H as <-.
  - destruct (generateShortCode fuel w) as [[code w1]|] eqn:Gen; [|discriminate].
    injection C as C.
    destruct (S _ _ C) as (A1 & A2 & A3 & A4 & A5 & A6 & A7 & A8 & A9 & A10 & A11).
    pose proof (generateShortCode_sound _ _ _ _ Gen) as [(B1 & _ & _ & B4 & B5 & _) H].
    rewrite B4, B5, ?B1 in *. subst code.
    repeat (split; auto). all: discriminate.
Qed.

End CreateMore.

(** ** A link from creation to expiry *)

Lemma resolve_known code w url T :
  JSMap.get (urls w) code = Some url ->
  JSDate.parse (expiresAt url) = Some T ->
  isExpired url = false ->
  getShortenedUrl code w =
    if T <? clock w (ticks w)
    then (Some (set_isExpired url true),
          saveToStorage
            (set_urls (tick w)
               (JSMap.set (urls w) code (set_isExpired url true))))
    else (Some url, tick w).
Proof.
  intros G P E. unfold getShortenedUrl. rewrite G. cbn [Date_now].
  unfold expired_at. rewrite P, E. cbn [JSDate.lt negb].
  now rewrite andb_true_r.
Qed.

Lemma created_expiry_parses fuel request w u w' :
  createShortenedUrl fuel request w = Some (Success u, w') ->
  JSDate.parse (expiresAt u)
    = Some (clock w (ticks w) + validityMinutes u * 60000).
Proof.
  intros C.
  destruct (create_success _ _ _ _ _ C) as (_ & _ & B & _ & V & _ & EA & _).
  rewrite V, EA, parse_iso by exact B. unfold expiry_time. f_equal. lia.
Qed.

(** X1. A creation never touches the records already in the map: each is
    still under its code, unchanged. A failed creation changes neither the
    map nor the store; a successful one adds its record under its code at
    the end of the map. *)
Theorem create_keeps_existing
    (fuel : nat) (request : Request.CreateUrlRequest) (w w' : World)
    (r : Result ShortenedUrl) :
  createShortenedUrl fuel request w = Some (r, w') ->
  (forall k u, JSMap.get (urls w) k = Some u -> JSMap.get (urls w') k = Some u) /\
  (forall e, r = Failure e ->
             urls w' = urls w /\ localStorage w' = localStorage w) /\
  (forall u, r = Success u ->
             JSMap.keys (urls w') = JSMap.keys (urls w) ++ [shortCode u] /\
             JSMap.get (urls w') (shortCode u) = Some u).
Proof.
  intros C.
  destruct (create_cases _ _ _ _ _ C)
    as [(e & -> & U & L) | (u & -> & H & _ & _ & (w0 & -> & M & _))].
  - rewrite U. repeat split; auto; discriminate.
  - rewrite save_urls, M. split; [|split; [discriminate|]].
    + intros k v G. rewrite get_set_other; auto.
      intros <-. unfold JSMap.has in H. now rewrite G in H.
    + intros u' [= <-]. split; [|apply get_set_same].
      rewrite set_absent by assumption. unfold JSMap.keys. now rewrite map_app.
Qed.

Lemma create_keeps_existing_witness :
  let old := Demo.link "taken1" "2024-01-01T00:30:00.000Z" [Demo.click "direct"] in
  let w := Demo.service Demo.t0 [("taken1", old)] in
  let request := Demo.request "https://example.com/x" None None in
  exists u w',
    createShortenedUrl 1 request w = Some (Success u, w') /\
    JSMap.get (urls w') "taken1" = Some old /\
    JSMap.keys (urls w') = ["taken1"; "aaaaaa"]%string.
Proof.
  intros old w request.
  destruct (createShortenedUrl 1 request w) as [[[u|e] w']|] eqn:C;
    try (vm_compute in C; discriminate).
  exists u, w'. split; [reflexivity|].
  destruct (create_keeps_existing 1 request w w' (Success u) C) as (A & _ & B).
  split; [apply A; reflexivity|].
  destruct (B u eq_refl) as [K _]. rewrite K.
  vm_compute in C. injection C as <- <-. reflexivity.
Defined.

(** X2. A created link carries the instant of its creation and expires a
    whole, positive number of minutes later: read as dates, [expiresAt] is
    [createdAt] plus [validityMinutes] times 60000 milliseconds. *)
Theorem created_link_lifetime
    (fuel : nat) (request : Request.CreateUrlRequest) (w w' : World)
    (u : ShortenedUrl) :
  createShortenedUrl fuel request w = Some (Success u, w') ->
  Z.abs (clock w (ticks w)) <= JSDate.maxTime ->
  1 <= validityMinutes u /\
  JSDate.parse (createdAt u) = Some (clock w (ticks w)) /\
  JSDate.parse (expiresAt u)
    = Some (clock w (ticks w) + validityMinutes u * 60000).
Proof.
  intros C R.
  destruct (create_success _ _ _ _ _ C) as (_ & P & _ & _ & V & CA & _).
  split; [now rewrite V|]. split.
  - rewrite CA. now apply parse_iso.
  - exact (created_expiry_parses _ _ _ _ _ C).
Qed.

Lemma created_link_lifetime_witness :
  let request :=
    Demo.request "https://example.com/x" (Some (Number.ofZ 45)) None in
  exists u w',
    createShortenedUrl 1 request (Demo.world Demo.t0) = Some (Success u, w') /\
    validityMinutes u = 45 /\
    JSDate.parse (expiresAt u) = Some (Demo.t0 + 45 * 60000).
Proof.
  intros request.
  destruct (createShortenedUrl 1 request (Demo.world Demo.t0))
    as [[[u|e] w']|] eqn:C; try (vm_compute in C; discriminate).
  exists u, w'. split; [reflexivity|].
  assert (V : validityMinutes u = 45)
    by (vm_compute in C; injection C as <- <-; reflexivity).
  split; [exact V|].
  destruct (created_link_lifetime 1 request _ w' u C) as (_ & _ & E).
  - vm_compute. discriminate.
  - rewrite E, V. reflexivity.
Defined.

(** X3. A lookup right after a creation: the link comes back as created
    while the clock has not passed its expiry (the instant of expiry
    included), and flagged expired once it has. *)
Theorem create_then_resolve
    (fuel : nat) (request : Request.CreateUrlRequest) (w w' : World)
    (u : ShortenedUrl) :
  createShortenedUrl fuel request w = Some (Success u, w') ->
  Z.abs (clock w (ticks w)) <= JSDate.maxTime ->
  let expiry := clock w (ticks w) + validityMinutes u * 60000 in
  fst (getShortenedUrl (shortCode u) w')
  = Some (if expiry <? clock w' (ticks w') then set_isExpired u true else u).
Proof.
  intros C R expiry.
  pose proof (created_expiry_parses _ _ _ _ _ C) as E.
  destruct (create_success _ _ _ _ _ C)
    as (_ & _ & _ & _ & _ & _ & _ & X & _ & _ & M & _).
  rewrite (resolve_known _ _ u expiry); auto.
  - now destruct (expiry <? clock w' (ticks w')).
  - rewrite M. apply get_set_same.
Qed.

Lemma create_then_resolve_witness :
  let request := Demo.request "https://example.com/x" None None in
  exists u w',
    createShortenedUrl 1 request (Demo.world Demo.t0) = Some (Success u, w') /\
    fst (getShortenedUrl (shortCode u) w') = Some u.
Proof.
  intros request.
  destruct (createShortenedUrl 1 request (Demo.world Demo.t0))
    as [[[u|e] w']|] eqn:C; try (vm_compute in C; discriminate).
  exists u, w'. split; [reflexivity|].
  rewrite (create_then_resolve 1 request _ w' u C).
  - vm_compute in C. injection C as <- <-. reflexivity.
  - vm_compute. discriminate.
Defined.

(** X4. An access right after a creation: while the clock has not passed
    the expiry it succeeds with the URL of the request and leaves the link
    with exactly one click, from the given source; once the clock has
    passed the expiry it fails as expired. *)
Theorem create_then_access
    (fuel : nat) (request : Request.CreateUrlRequest) (w w' : World)
    (u : ShortenedUrl) (src : string) :
  createShortenedUrl fuel request w = Some (Success u, w') ->
  Z.abs (clock w (ticks w)) <= JSDate.maxTime ->
  let expiry := clock w (ticks w) + validityMinutes u * 60000 in
  (clock w' (ticks w') <= expiry ->
   fst (accessShortenedUrl (shortCode u) (Some src) w')
     = Success (Request.originalUrl request) /\
   exists u' c,
     JSMap.get (urls (snd (accessShortenedUrl (shortCode u) (Some src) w')))
               (shortCode u) = Some u' /\
     clicks u' = [c] /\ source c = src) /\
  (expiry < clock w' (ticks w') ->
   fst (accessShortenedUrl (shortCode u) (Some src) w') = Failure Expired).
Proof.
  intros C R expiry.
  pose proof (created_expiry_parses _ _ _ _ _ C) as E.
  destruct (create_success _ _ _ _ _ C)
    as (_ & _ & _ & O & _ & _ & _ & X & K & _ & M & _).
  assert (G : JSMap.get (urls w') (shortCode u) = Some u)
    by (rewrite M; apply get_set_same).
  unfold accessShortenedUrl. rewrite (resolve_known _ _ u expiry G E X).
  split; intros B.
  - apply Z.ltb_ge in B. rewrite B, X.
    cbn [Date_now generateIpHash Math_random_token fst snd].
    rewrite save_urls. cbn [urls set_urls tick draw].
    split; [now rewrite O|]. eexists _, _. rewrite get_set_same.
    split; [reflexivity|]. cbn [clicks push_click source]. rewrite K.
    split; reflexivity.
  - apply Z.ltb_lt in B. rewrite B. reflexivity.
Qed.

Lemma create_then_access_witness :
  let request := Demo.request "https://example.com/x" None None in
  exists u w',
    createShortenedUrl 1 request (Demo.world Demo.t0) = Some (Success u, w') /\
    fst (accessShortenedUrl (shortCode u) (Some "direct_link"%string) w')
      = Success "https://example.com/x"%string.
Proof.
  intros request.
  destruct (createShortenedUrl 1 request (Demo.world Demo.t0))
    as [[[u|e] w']|] eqn:C; try (vm_compute in C; discriminate).
  exists u, w'. split; [reflexivity|].
  refine (proj1 (proj1 (create_then_access 1 request _ w' u "direct_link" C _) _)).
  - vm_compute. discriminate.
  - vm_compute in C. injection C as <- <-. vm_compute. discriminate.
Defined.

(** ** What every operation keeps *)

Section Invariants.
Implicit Types (w : World) (m : JSMap.t ShortenedUrl) (u : ShortenedUrl).

Lemma evolves_refl u : evolves u u.
Proof.
  unfold evolves. repeat split; auto.
  exists []. split; [now rewrite app_nil_r | auto].
Qed.

Lemma evolves_trans u1 u2 u3 : evolves u1 u2 -> evolves u2 u3 -> evolves u1 u3.
Proof.
  intros (A1 & A2 & A3 & A4 & A5 & A6 & A7 & (m1 & C1 & F1) & E1)
         (B1 & B2 & B3 & B4 & B5 & B6 & B7 & (m2 & C2 & F2) & E2).
  unfold evolves. repeat split; try congruence; auto.
  exists (m1 ++ m2). split.
  - rewrite C2, C1. now rewrite app_assoc.
  - intros X. rewrite F1, F2; auto.
Qed.

Lemma evolves_flip u : evolves u (set_isExpired u true).
Proof.
  unfold evolves. cbn. repeat split; auto.
  exists []. split; [now rewrite app_nil_r | auto].
Qed.

Lemma evolves_click u c : isExpired u = false -> evolves u (push_click u c).
Proof.
  intros E. unfold evolves. cbn. repeat split; auto; try congruence.
  exists [c]. split; [reflexivity | congruence].
Qed.

Lemma step_change fuel op w w' :
  JSMap.wf (urls w) -> step fuel op w = Some w' ->
  map_change (urls w) (urls w').
Proof.
  intros W. unfold step. destruct op as [request|code|code src| |].
  - destruct (createShortenedUrl fuel request w) as [[[u|e] w1]|] eqn:C;
      [| |discriminate]; intros [= ->].
    + destruct (create_success _ _ _ _ _ C)
        as (_ & _ & _ & _ & _ & _ & _ & _ & _ & H & M & _).
      rewrite M. now constructor.
    + destruct (create_cases _ _ _ _ _ C)
        as [(e' & _ & -> & _) | (u & [=] & _)]. constructor.
  - intros [= <-].
    destruct (getShortenedUrl_cases code w)
      as [[G R] | [(url & G & F1 & F2 & R) | (url & G & F & R)]];
      rewrite R; cbn [snd]; try constructor.
    rewrite save_urls. cbn [urls set_urls].
    econstructor; [exact G | apply evolves_flip].
  - intros [= <-]. unfold accessShortenedUrl.
    destruct (getShortenedUrl_cases code w)
      as [[G R] | [(url & G & F1 & F2 & R) | (url & G & F & R)]];
      rewrite R.
    + constructor.
    + cbn [isExpired set_isExpired snd]. rewrite save_urls.
      cbn [urls set_urls]. econstructor; [exact G | apply evolves_flip].
    + destruct (isExpired url) eqn:E; cbn [snd]; [constructor|].
      cbn [Date_now generateIpHash Math_random_token snd].
      rewrite save_urls. cbn [urls set_urls tick draw].
      econstructor; [exact G | now apply evolves_click].
  - intros [= <-]. constructor.
  - intros [= <-]. destruct (cleanupExpiredUrls_urls w W) as (A & _).
    rewrite A. constructor.
Qed.

Lemma map_change_wf m m' : JSMap.wf m -> map_change m m' -> JSMap.wf m'.
Proof.
  intros W C. destruct C; auto using wf_set. now apply wf_filter.
Qed.

Lemma In_set m k v k' v' :
  In (k', v') (JSMap.set m k v) -> (k', v') = (k, v) \/ In (k', v') m.
Proof.
  induction m as [|[k0 v0] r IH]; simpl.
  - intros [H|[]]. now left.
  - destruct (String.eqb k k0) eqn:E; simpl.
    + apply String.eqb_eq in E. subst k0. intros [H|H]; auto.
    + intros [H|H]; auto. destruct (IH H); auto.
Qed.

Lemma map_change_consistent m m' :
  consistent m -> map_change m m' -> consistent m'.
Proof.
  intros [W K] C. split; [eapply map_change_wf; eauto|].
  destruct C as [|code u H S|code url url' G E|now]; auto.
  - intros k v I. apply In_set in I as [[= -> ->]|I]; auto.
  - intros k v I. apply In_set in I as [[= -> ->]|I]; auto.
    destruct E as (_ & _ & -> & _). apply K. now apply get_In.
  - intros k v I. apply filter_In in I as [I _]. auto.
Qed.

Lemma map_change_evolves m m' k u u' :
  JSMap.wf m -> map_change m m' ->
  JSMap.get m k = Some u -> JSMap.get m' k = Some u' -> evolves u u'.
Proof.
  intros W C G G'. destruct C as [|code v H S|code url url' A E|now].
  - replace u' with u by congruence. apply evolves_refl.
  - rewrite get_set_other in G'.
    + replace u' with u by congruence. apply evolves_refl.
    + intros ->. unfold JSMap.has in H. now rewrite G in H.
  - destruct (String.eqb code k) eqn:X.
    + apply String.eqb_eq in X. subst code. rewrite get_set_same in G'.
      replace u with url by congruence. now injection G' as <-.
    + apply String.eqb_neq in X. rewrite get_set_other in G' by assumption.
      replace u' with u by congruence. apply evolves_refl.
  - apply get_In, filter_In in G' as [I _]. apply (In_get _ _ _ W) in I.
    replace u' with u by congruence. apply evolves_refl.
Qed.

Lemma run_consistent fuel ops : forall w w',
  consistent (urls w) -> run fuel ops w = Some w' -> consistent (urls w').
Proof.
  induction ops as [|op r IH]; intros w w' K; simpl.
  - now intros [= <-].
  - destruct (step fuel op w) as [w1|] eqn:St; [|discriminate].
    apply IH. eapply map_change_consistent; eauto.
    eapply step_change; eauto. apply K.
Qed.

End Invariants.

(** X5. Short codes stay unique: from a map with distinct keys in which
    every record sits under its own [shortCode], every run of operations
    ends in such a map, so no two of its records have the same
    [shortCode]. *)
Theorem run_keeps_codes_unique
    (fuel : nat) (ops : list Op) (w w' : World) :
  consistent (urls w) ->
  run fuel ops w = Some w' ->
  consistent (urls w') /\
  NoDup (map shortCode (JSMap.values (urls w'))).
Proof.
  intros K R. pose proof (run_consistent _ _ _ _ K R) as [W F].
  split; [now split|].
  replace (map shortCode (JSMap.values (urls w'))) with (JSMap.keys (urls w'));
    [exact W|].
  unfold JSMap.keys, JSMap.values. rewrite map_map.
  apply map_ext_in. intros [k u] I. symmetry. now apply F.
Qed.

Lemma run_keeps_codes_unique_witness :
  let w := Demo.world Demo.t0 in
  let ops := [Create (Demo.request "https://example.com/x" None (Some "abc123"));
              Create (Demo.request "https://example.com/y" None (Some "abc123"));
              Create (Demo.request "https://example.com/z" None None);
              Access "abc123" None; PurgeExpired] in
  exists w',
    run 1 ops w = Some w' /\
    map shortCode (JSMap.values (urls w')) = ["abc123"; "aaaaaa"]%string /\
    NoDup (map shortCode (JSMap.values (urls w'))).
Proof.
  intros w ops.
  destruct (run 1 ops w) as [w'|] eqn:R; [|vm_compute in R; discriminate].
  exists w'. split; [reflexivity|].
  split; [vm_compute in R; injection R as <-; reflexivity|].
  refine (proj2 (run_keeps_codes_unique 1 ops w w' _ R)).
  split; [solve_wf | intros k u []].
Defined.

(** ** Records along a run *)

Section TraceFacts.

Lemma trace_evolves_from_start fuel ops : forall w ws k j wj u uj,
  JSMap.wf (urls w) ->
  trace fuel ops w = Some ws ->
  nth_error ws j = Some wj ->
  JSMap.get (urls w) k = Some u ->
  JSMap.get (urls wj) k = Some uj ->
  (forall n wn, (n <= j)%nat -> nth_error ws n = Some wn ->
                JSMap.has (urls wn) k = true) ->
  evolves u uj.
Proof.
  induction ops as [|op r IH]; intros w ws k j wj u uj W T N G Gj P.
  - simpl in T. injection T as <-.
    destruct j as [|[|j]]; simpl in N; try discriminate.
    injection N as <-. replace uj with u by congruence. apply evolves_refl.
  - simpl in T. destruct (step fuel op w) as [w1|] eqn:St; [|discriminate].
    destruct (trace fuel r w1) as [ws1|] eqn:T1; [|discriminate].
    injection T as <-. destruct j as [|j]; simpl in N.
    + injection N as <-. replace uj with u by congruence. apply evolves_refl.
    + pose proof (step_change fuel op w w1 W St) as M.
      destruct (trace_head _ _ _ _ T1) as [rest ->].
      destruct (has_true_get (urls w1) k) as [u1 G1];
        [apply (P 1%nat w1); [lia | reflexivity]|].
      apply evolves_trans with u1.
      * eapply map_change_evolves; eauto.
      * apply (IH w1 (w1 :: rest) k j wj u1 uj); auto.
        -- eapply map_change_wf; eauto.
        -- intros n wn L Hn. apply (P (Datatypes.S n) wn); [lia | exact Hn].
Qed.

Lemma trace_evolves fuel ops : forall w ws k i j wi wj ui uj,
  JSMap.wf (urls w) ->
  trace fuel ops w = Some ws ->
  (i <= j)%nat ->
  nth_error ws i = Some wi -> nth_error ws j = Some wj ->
  JSMap.get (urls wi) k = Some ui ->
  JSMap.get (urls wj) k = Some uj ->
  (forall n wn, (i <= n <= j)%nat -> nth_error ws n = Some wn ->
                JSMap.has (urls wn) k = true) ->
  evolves ui uj.
Proof.
  induction ops as [|op r IH]; intros w ws k i j wi wj ui uj W T L Ni Nj Gi Gj P.
  - simpl in T. injection T as <-.
    destruct i as [|[|i]], j as [|[|j]]; simpl in Ni, Nj; try discriminate.
    replace wj with wi in * by congruence.
    replace uj with ui by congruence. apply evolves_refl.
  - destruct i as [|i].
    + destruct (trace_head _ _ _ _ T) as [rest ->]. simpl in Ni.
      injection Ni as <-.
      apply (trace_evolves_from_start fuel (op :: r) w (w :: rest) k j wj); auto.
      intros n wn Hn. apply P. lia.
    + destruct j as [|j]; [lia|].
      simpl in T. destruct (step fuel op w) as [w1|] eqn:St; [|discriminate].
      destruct (trace fuel r w1) as [ws1|] eqn:T1; [|discriminate].
      injection T as <-. simpl in Ni, Nj.
      pose proof (step_change fuel op w w1 W St) as M.
      apply (IH w1 ws1 k i j wi wj ui uj); auto.
      * eapply map_change_wf; eauto.
      * lia.
      * intros n wn Hn Hnth. apply (P (Datatypes.S n) wn); [lia | exact Hnth].
Qed.

End TraceFacts.

(** X6. The fields set at creation never change: along every run, while
    a code stays in the map, the record under it keeps its [id],
    [originalUrl], [shortCode], [customShortCode], [createdAt],
    [expiresAt] and [validityMinutes]. *)
Theorem creation_fields_never_change (fuel : nat) (ops : list Op) :
  forall (w : World) (ws : list World) (k : string) (i j : nat)
         (wi wj : World) (ui uj : ShortenedUrl),
  JSMap.wf (urls w) ->
  trace fuel ops w = Some ws ->
  (i <= j)%nat ->
  nth_error ws i = Some wi -> nth_error ws j = Some wj ->
  JSMap.get (urls wi) k = Some ui ->
  JSMap.get (urls wj) k = Some uj ->
  (forall n wn, (i <= n <= j)%nat -> nth_error ws n = Some wn ->
                JSMap.has (urls wn) k = true) ->
  id uj = id ui /\ originalUrl uj = originalUrl ui /\
  shortCode uj = shortCode ui /\ customShortCode uj = customShortCode ui /\
  createdAt uj = createdAt ui /\ expiresAt uj = expiresAt ui /\
  validityMinutes uj = validityMinutes ui.
Proof.
  intros w ws k i j wi wj ui uj W T L Ni Nj Gi Gj P.
  pose proof (trace_evolves fuel ops w ws k i j wi wj ui uj W T L Ni Nj Gi Gj P)
    as (A1 & A2 & A3 & A4 & A5 & A6 & A7 & _).
  tauto.
Qed.

(** X7. Clicks are only ever appended: along every run, while a code
    stays in the map, the clicks its record had are a prefix of the clicks
    it has later; and a record flagged expired gets no click at all. *)
Theorem clicks_only_grow (fuel : nat) (ops : list Op) :
  forall (w : World) (ws : list World) (k : string) (i j : nat)
         (wi wj : World) (ui uj : ShortenedUrl),
  JSMap.wf (urls w) ->
  trace fuel ops w = Some ws ->
  (i <= j)%nat ->
  nth_error ws i = Some wi -> nth_error ws j = Some wj ->
  JSMap.get (urls wi) k = Some ui ->
  JSMap.get (urls wj) k = Some uj ->
  (forall n wn, (i <= n <= j)%nat -> nth_error ws n = Some wn ->
                JSMap.has (urls wn) k = true) ->
  (exists more, clicks uj = clicks ui ++ more) /\
  (List.length (clicks ui) <= List.length (clicks uj))%nat /\
  (isExpired ui = true -> clicks uj = clicks ui).
Proof.
  intros w ws k i j wi wj ui uj W T L Ni Nj Gi Gj P.
  pose proof (trace_evolves fuel ops w ws k i j wi wj ui uj W T L Ni Nj Gi Gj P)
    as (_ & _ & _ & _ & _ & _ & _ & (more & C & F) & _).
  split; [now exists more|]. split.
  - rewrite C, length_app. lia.
  - intros E. rewrite C, (F E). apply app_nil_r.
Qed.

Lemma creation_fields_never_change_witness :
  let w := Demo.world Demo.t0 in
  let ops := [Create (Demo.request "https://example.com/x" None (Some "abc123"));
              Access "abc123" (Some "direct_link"); Access "abc123" None;
              Resolve "abc123"] in
  exists ws wi wj ui uj,
    trace 1 ops w = Some ws /\
    nth_error ws 1 = Some wi /\ nth_error ws 4 = Some wj /\
    JSMap.get (urls wi) "abc123" = Some ui /\
    JSMap.get (urls wj) "abc123" = Some uj /\
    ui <> uj /\
    createdAt uj = createdAt ui /\ expiresAt uj = expiresAt ui.
Proof.
  intros w ops.
  destruct (trace 1 ops w) as [ws|] eqn:T; [|vm_compute in T; discriminate].
  pose proof T as T'. vm_compute in T'. injection T' as <-.
  eexists _, _, _, _, _. split; [reflexivity|].
  split; [reflexivity|]. split; [reflexivity|].
  split; [vm_compute; reflexivity|]. split; [vm_compute; reflexivity|].
  split; [discriminate|].
  refine ((fun H => conj (proj1 (proj2 (proj2 (proj2 (proj2 H)))))
                         (proj1 (proj2 (proj2 (proj2 (proj2 (proj2 H)))))))
            (creation_fields_never_change 1 ops w _ "abc123" 1 4 _ _ _ _
               _ T _ eq_refl eq_refl eq_refl eq_refl _)).
  - solve_wf.
  - lia.
  - intros n wn [L1 L2] Hn.
    destruct n as [|[|[|[|[|n]]]]]; try lia;
      cbn [nth_error] in Hn; injection Hn as <-; vm_compute; reflexivity.
Defined.

Lemma clicks_only_grow_witness :
  let w := Demo.world Demo.t0 in
  let ops := [Create (Demo.request "https://example.com/x" None (Some "abc123"));
              Access "abc123" (Some "direct_link"); Access "abc123" None;
              Resolve "abc123"] in
  exists ws wi wj ui uj,
    trace 1 ops w = Some ws /\
    nth_error ws 2 = Some wi /\ nth_error ws 4 = Some wj /\
    JSMap.get (urls wi) "abc123" = Some ui /\
    JSMap.get (urls wj) "abc123" = Some uj /\
    List.length (clicks ui) = 1%nat /\ List.length (clicks uj) = 2%nat /\
    exists more, clicks uj = clicks ui ++ more.
Proof.
  intros w ops.
  destruct (trace 1 ops w) as [ws|] eqn:T; [|vm_compute in T; discriminate].
  pose proof T as T'. vm_compute in T'. injection T' as <-.
  eexists _, _, _, _, _. split; [reflexivity|].
  split; [reflexivity|]. split; [reflexivity|].
  split; [vm_compute; reflexivity|]. split; [vm_compute; reflexivity|].
  split; [reflexivity|]. split; [reflexivity|].
  refine (proj1 (clicks_only_grow 1 ops w _ "abc123" 2 4 _ _ _ _
                   _ T _ eq_refl eq_refl eq_refl eq_refl _)).
  - solve_wf.
  - lia.
  - intros n wn [L1 L2] Hn.
    destruct n as [|[|[|[|[|n]]]]]; try lia;
      cbn [nth_error] in Hn; injection Hn as <-; vm_compute; reflexivity.
Defined.

(** ** The browser and the store along a run *)

Section BrowserFacts.
Implicit Types (w : World).

Lemma same_browser_refl w : same_browser w w.
Proof. unfold same_browser. repeat split; auto. Qed.

Lemma same_browser_trans w1 w2 w3 :
  same_browser w1 w2 -> same_browser w2 w3 -> same_browser w1 w3.
Proof. unfold same_browser. intuition (try congruence; try lia). Qed.

Lemma same_browser_tick w : same_browser w (tick w).
Proof. unfold same_browser. cbn. repeat split; auto. Qed.

Lemma same_browser_draw w : same_browser w (draw w).
Proof. unfold same_browser. cbn. repeat split; auto. Qed.

Lemma same_browser_set_urls w m : same_browser w (set_urls w m).
Proof. unfold same_browser. cbn. repeat split; auto. Qed.

Lemma same_browser_save w : same_browser w (saveToStorage w).
Proof.
  unfold saveToStorage. cbn [Date_now].
  destruct (quotaExceeded (tick w)); unfold same_browser; cbn; repeat split; auto.
Qed.

Lemma same_browser_draw_chars n : forall s w,
  same_browser w (snd (draw_chars n s w)).
Proof.
  induction n as [|n IH]; intros s w; simpl; [apply same_browser_refl|].
  eapply same_browser_trans; [apply same_browser_draw | apply IH].
Qed.

Lemma same_browser_generate fuel : forall w code w',
  generateShortCode fuel w = Some (code, w') -> same_browser w w'.
Proof.
  induction fuel as [|fuel IH]; intros w code w'; [discriminate|].
  cbn [generateShortCode].
  pose proof (same_browser_draw_chars SHORTCODE_LENGTH "" w) as D.
  destruct (draw_chars SHORTCODE_LENGTH "" w) as [result w1]. cbn [snd] in D.
  destruct (JSMap.has (urls w1) result).
  - intros G. eapply same_browser_trans; [exact D | eapply IH; eauto].
  - now intros [= _ <-].
Qed.

Lemma same_browser_store request v code w :
  same_browser w (snd (store request v code w)).
Proof.
  unfold store. cbn [Date_now Math_random_token].
  destruct (JSDate.toISOString _); cbn [snd].
  - eapply same_browser_trans; [|apply same_browser_save].
    unfold same_browser. cbn. repeat split; auto; lia.
  - unfold same_browser. cbn. repeat split; auto; lia.
Qed.

Lemma same_browser_resolve code w :
  same_browser w (snd (getShortenedUrl code w)).
Proof.
  destruct (getShortenedUrl_cases code w)
    as [[G R] | [(url & G & F1 & F2 & R) | (url & G & F & R)]];
    rewrite R; cbn [snd].
  - apply same_browser_refl.
  - eapply same_browser_trans; [|apply same_browser_save].
    unfold same_browser. cbn. repeat split; auto.
  - apply same_browser_tick.
Qed.

Lemma step_same_browser fuel op w w' :
  step fuel op w = Some w' -> same_browser w w'.
Proof.
  unfold step. destruct op as [request|code|code src| |].
  - unfold createShortenedUrl.
    destruct (negb (isValidUrl w _));
      [intros [= <-]; apply same_browser_refl|].
    destruct (Number.le0 _ || _); [intros [= <-]; apply same_browser_refl|].
    destruct (given _) as [custom|].
    + destruct (negb (isValidShortCode custom));
        [intros [= <-]; apply same_browser_refl|].
      destruct (negb (isShortCodeUnique w custom));
        [intros [= <-]; apply same_browser_refl|].
      pose proof (same_browser_store request
                    (validity_or_default (Request.validityMinutes request))
                    custom w) as B.
      destruct (store _ _ _ _). now intros [= <-].
    + destruct (generateShortCode fuel w) as [[code w1]|] eqn:G; [|discriminate].
      pose proof (same_browser_store request
                    (validity_or_default (Request.validityMinutes request))
                    code w1) as B.
      destruct (store _ _ _ _). intros [= <-].
      eapply same_browser_trans; [eapply same_browser_generate; eauto | exact B].
  - intros [= <-]. apply same_browser_resolve.
  - intros [= <-]. unfold accessShortenedUrl.
    pose proof (same_browser_resolve code w) as B.
    destruct (getShortenedUrl code w) as [[url|] w1]; cbn [snd] in *; auto.
    destruct (isExpired url); cbn [snd]; auto.
    cbn [Date_now generateIpHash Math_random_token snd].
    eapply same_browser_trans; [exact B|].
    eapply same_browser_trans; [|apply same_browser_save].
    unfold same_browser. cbn. repeat split; auto.
  - intros [= <-]. apply same_browser_refl.
  - intros [= <-]. unfold cleanupExpiredUrls. cbn [Date_now].
    destruct (sweep _ _ _) as [m c]. destruct (0 <? c); cbn [snd].
    + eapply same_browser_trans; [|apply same_browser_save].
      unfold same_browser. cbn. repeat split; auto.
    + unfold same_browser. cbn. repeat split; auto.
Qed.

Lemma step_in_sync fuel op w w' :
  JSMap.wf (urls w) -> quotaExceeded w = false -> in_sync w ->
  step fuel op w = Some w' -> in_sync w'.
Proof.
  intros W Q I St.
  destruct (step_shape fuel op w w' W St) as [M [[U L] | E]].
  - unfold in_sync in *. now rewrite U, L.
  - destruct (ends_with_save_stored w w' _ Q E) as (n & G & _).
    unfold in_sync. rewrite G. apply read_snapshot_snapshot.
    eapply map_step_wf; eauto.
Qed.

Lemma run_in_sync fuel ops : forall w w',
  JSMap.wf (urls w) -> quotaExceeded w = false -> in_sync w ->
  run fuel ops w = Some w' ->
  JSMap.wf (urls w') /\ in_sync w'.
Proof.
  induction ops as [|op r IH]; intros w w' W Q I; simpl.
  - intros [= <-]. auto.
  - destruct (step fuel op w) as [w1|] eqn:St; [|discriminate].
    apply IH.
    + destruct (step_shape fuel op w w1 W St) as [M _].
      eapply map_step_wf; eauto.
    + destruct (step_same_browser _ _ _ _ St) as (B & _). congruence.
    + eapply step_in_sync; eauto.
Qed.

Lemma run_quota_store fuel ops : forall w w',
  JSMap.wf (urls w) -> quotaExceeded w = true ->
  run fuel ops w = Some w' -> localStorage w' = localStorage w.
Proof.
  induction ops as [|op r IH]; intros w w' W Q; simpl.
  - now intros [= <-].
  - destruct (step fuel op w) as [w1|] eqn:St; [|discriminate].
    intros R.
    destruct (step_shape fuel op w w1 W St) as [M S].
    assert (L : localStorage w1 = localStorage w).
    { destruct S as [[_ L] | (w0 & -> & _ & _ & Q0 & L0)]; auto.
      rewrite save_localStorage, Q0, Q. exact L0. }
    rewrite <- L. apply IH; auto.
    + eapply map_step_wf; eauto.
    + destruct (step_same_browser _ _ _ _ St) as (B & _). congruence.
Qed.

End BrowserFacts.

(** X8. The store follows the map: from a service whose store holds its
    map (or is empty, the map being empty), with the store taking its
    writes, after every run of operations the store holds the map of the
    moment, and a service constructed then loads exactly that map. *)
Theorem restart_restores_map (fuel : nat) (ops : list Op) (w w' : World) :
  JSMap.wf (urls w) ->
  quotaExceeded w = false ->
  in_sync w ->
  run fuel ops w = Some w' ->
  in_sync w' /\ option_map urls (construct w') = Some (urls w').
Proof.
  intros W Q I R. destruct (run_in_sync _ _ _ _ W Q I R) as [W' I'].
  split; [exact I'|]. unfold construct, loadFromStorage, in_sync in *.
  cbn [localStorage set_urls].
  destruct (JSMap.get (localStorage w') STORAGE_KEY) as [data|].
  - now rewrite I'.
  - cbn. now rewrite I'.
Qed.

Lemma restart_restores_map_witness :
  let w := Demo.world Demo.t0 in
  let ops := [Create (Demo.request "https://example.com/x" None (Some "abc123"));
              Create (Demo.request "https://example.com/y" None None);
              Access "abc123" None; Resolve "aaaaaa"] in
  exists w',
    run 1 ops w = Some w' /\ List.length (urls w') = 2%nat /\
    option_map urls (construct w') = Some (urls w').
Proof.
  intros w ops.
  destruct (run 1 ops w) as [w'|] eqn:R; [|vm_compute in R; discriminate].
  exists w'. split; [reflexivity|].
  split; [vm_compute in R; injection R as <-; reflexivity|].
  refine (proj2 (restart_restores_map 1 ops w w' _ _ _ R)).
  - solve_wf.
  - reflexivity.
  - reflexivity.
Defined.

(** What the operations return and do to the map does not depend on the
    store: each of them commutes with forgetting it. *)
Section StoreIndependence.

Lemma forget_save w : forget (saveToStorage w) = saveToStorage (forget w).
Proof.
  unfold saveToStorage. cbn [Date_now]. cbn [quotaExceeded tick forget].
  now destruct (quotaExceeded w).
Qed.

Lemma forget_draw_chars n :
  forall result w,
  forget_in (draw_chars n result w) = draw_chars n result (forget w).
Proof.
  induction n as [|k IH]; intros result w; cbn [draw_chars]; [reflexivity|].
  cbn [Math_random_index]. apply (IH _ (draw w)).
Qed.

Lemma forget_generate fuel :
  forall w,
  option_map forget_in (generateShortCode fuel w)
  = generateShortCode fuel (forget w).
Proof.
  induction fuel as [|f IH]; intros w; cbn [generateShortCode];
    [reflexivity|].
  rewrite <- forget_draw_chars.
  destruct (draw_chars SHORTCODE_LENGTH "" w) as [result w1].
  cbn [forget_in fst snd]. change (urls (forget w1)) with (urls w1).
  destruct (JSMap.has (urls w1) result); [apply IH|reflexivity].
Qed.

Lemma forget_store request v code w :
  forget_in (store request v code w) = store request v code (forget w).
Proof.
  unfold store. cbn [Date_now Math_random_token].
  change (clock (forget w)) with (clock w).
  change (ticks (forget w)) with (ticks w).
  destruct (JSDate.toISOString _) as [expiresIso|]; [|reflexivity].
  unfold forget_in. cbn [fst snd]. f_equal. now rewrite forget_save.
Qed.

Lemma forget_create fuel request w :
  option_map forget_in (createShortenedUrl fuel request w)
  = createShortenedUrl fuel request (forget w).
Proof.
  unfold createShortenedUrl, isValidUrl, isShortCodeUnique.
  change (URL_protocol (forget w)) with (URL_protocol w).
  change (urls (forget w)) with (urls w).
  destruct (negb _); [reflexivity|].
  destruct (_ || _); [reflexivity|].
  destruct (given _) as [custom|].
  - destruct (negb (isValidShortCode custom)); [reflexivity|].
    destruct (negb (negb _)); [reflexivity|].
    cbn [option_map]. now rewrite forget_store.
  - rewrite <- forget_generate.
    destruct (generateShortCode fuel w) as [[code w1]|]; [|reflexivity].
    cbn [option_map forget_in fst snd]. now rewrite <- forget_store.
Qed.

Lemma forget_resolve code w :
  forget_in (getShortenedUrl code w) = getShortenedUrl code (forget w).
Proof.
  unfold getShortenedUrl. change (urls (forget w)) with (urls w).
  destruct (JSMap.get (urls w) code) as [url|]; [|reflexivity].
  cbn [Date_now]. change (clock (forget w) (ticks (forget w)))
    with (clock w (ticks w)).
  destruct (_ && _); [|reflexivity].
  unfold forget_in. cbn [fst snd]. f_equal. now rewrite forget_save.
Qed.

Lemma forget_access code src w :
  forget_in (accessShortenedUrl code src w)
  = accessShortenedUrl code src (forget w).
Proof.
  unfold accessShortenedUrl. rewrite <- forget_resolve.
  destruct (getShortenedUrl code w) as [[url|] w1]; [|reflexivity].
  cbn [forget_in fst snd].
  destruct (isExpired url); [reflexivity|].
  cbn [Date_now generateIpHash Math_random_token].
  unfold forget_in. cbn [fst snd]. f_equal. now rewrite forget_save.
Qed.

Lemma forget_cleanup w :
  forget_in (cleanupExpiredUrls w) = cleanupExpiredUrls (forget w).
Proof.
  unfold cleanupExpiredUrls. cbn [Date_now].
  change (urls (tick (forget w))) with (urls (tick w)).
  change (clock (forget w) (ticks (forget w))) with (clock w (ticks w)).
  destruct (sweep _ _ _) as [m cleanedCount].
  destruct (0 <? cleanedCount); [|reflexivity].
  unfold forget_in. cbn [fst snd]. f_equal. now rewrite forget_save.
Qed.

Lemma forget_perform fuel op w :
  option_map forget_in (perform fuel op w) = perform fuel op (forget w).
Proof.
  destruct op as [request|code|code src| |]; cbn [perform].
  - rewrite <- forget_create.
    now destruct (createShortenedUrl fuel request w) as [[r w1]|].
  - rewrite <- forget_resolve.
    now destruct (getShortenedUrl code w) as [r w1].
  - rewrite <- forget_access.
    now destruct (accessShortenedUrl code src w) as [r w1].
  - reflexivity.
  - rewrite <- forget_cleanup.
    now destruct (cleanupExpiredUrls w) as [r w1].
Qed.

Lemma forget_perform_all fuel ops :
  forall w,
  option_map forget_in (perform_all fuel ops w)
  = perform_all fuel ops (forget w).
Proof.
  induction ops as [|op rest IH]; intros w; cbn [perform_all];
    [reflexivity|].
  rewrite <- forget_perform.
  destruct (perform fuel op w) as [[r w1]|]; [|reflexivity].
  cbn [option_map forget_in fst snd]. rewrite <- IH.
  now destruct (perform_all fuel rest w1) as [[rs w2]|].
Qed.

Lemma perform_step fuel op w :
  option_map snd (perform fuel op w) = step fuel op w.
Proof.
  destruct op as [request|code|code src| |]; cbn [perform step].
  - now destruct (createShortenedUrl fuel request w) as [[r w1]|].
  - now destruct (getShortenedUrl code w).
  - now destruct (accessShortenedUrl code src w).
  - reflexivity.
  - now destruct (cleanupExpiredUrls w).
Qed.

Lemma perform_all_run fuel ops :
  forall w, option_map snd (perform_all fuel ops w) = run fuel ops w.
Proof.
  induction ops as [|op rest IH]; intros w; cbn [perform_all run];
    [reflexivity|].
  rewrite <- perform_step.
  destruct (perform fuel op w) as [[r w1]|]; [|reflexivity].
  cbn [option_map snd]. rewrite <- IH.
  now destruct (perform_all fuel rest w1) as [[rs w2]|].
Qed.

(** Two worlds that differ in their stores only go through the same
    answers and end with the same map. *)
Lemma same_memory_same_answers fuel ops w1 w2 rs w1' :
  forget w1 = forget w2 ->
  perform_all fuel ops w1 = Some (rs, w1') ->
  exists w2', perform_all fuel ops w2 = Some (rs, w2') /\
              urls w2' = urls w1'.
Proof.
  intros E P1.
  pose proof (forget_perform_all fuel ops w1) as F1.
  pose proof (forget_perform_all fuel ops w2) as F2.
  rewrite <- E, <- F1, P1 in F2. cbn [option_map forget_in fst snd] in F2.
  destruct (perform_all fuel ops w2) as [[rs2 w2']|]; [|discriminate].
  cbn [option_map forget_in fst snd] in F2.
  pose proof (f_equal (option_map fst) F2) as A.
  pose proof (f_equal (option_map (fun p => urls (snd p))) F2) as B.
  cbn [option_map fst snd forget urls] in A, B.
  injection A as ->. injection B as B.
  exists w2'. split; [reflexivity|exact B].
Qed.

End StoreIndependence.

(** X9. A store that refuses its writes stops nothing and receives
    nothing. With [setItem] throwing, along every run: each operation
    returns what it returns when the store takes its writes, and the map
    in memory ends up the same as it does then; the store is left exactly
    as it was and keeps refusing; so a service constructed after the run
    loads what one constructed before the run loads, and nothing of what
    the run did to the map. *)
Theorem refused_writes_leave_store (fuel : nat) (ops : list Op) (w w' : World) :
  JSMap.wf (urls w) ->
  quotaExceeded w = true ->
  run fuel ops w = Some w' ->
  (exists outcomes w2,
     perform_all fuel ops w = Some (outcomes, w') /\
     perform_all fuel ops (accepting w) = Some (outcomes, w2) /\
     urls w2 = urls w') /\
  localStorage w' = localStorage w /\ quotaExceeded w' = true /\
  option_map urls (construct w') = option_map urls (construct w).
Proof.
  intros W Q R.
  assert (L : localStorage w' = localStorage w)
    by exact (run_quota_store _ _ _ _ W Q R).
  split; [|split; [exact L|split]].
  - rewrite <- perform_all_run in R.
    destruct (perform_all fuel ops w) as [[outcomes w1]|] eqn:P;
      [|discriminate].
    cbn [option_map snd] in R. injection R as ->.
    destruct (same_memory_same_answers fuel ops w (accepting w) outcomes w'
                eq_refl P) as (w2 & P2 & U).
    now exists outcomes, w2.
  - revert w W Q R L. induction ops as [|o r IH]; intros w W Q R _;
      cbn [run] in R.
    + now injection R as <-.
    + destruct (step fuel o w) as [w1|] eqn:S1; [|discriminate].
      apply (IH w1); auto.
      * destruct (step_shape fuel o w w1 W S1) as [M _].
        eapply map_step_wf; eauto.
      * destruct (step_same_browser _ _ _ _ S1) as (B & _). congruence.
      * apply (run_quota_store fuel r w1 w'); auto.
        -- destruct (step_shape fuel o w w1 W S1) as [M _].
           eapply map_step_wf; eauto.
        -- destruct (step_same_browser _ _ _ _ S1) as (B & _). congruence.
  - unfold construct, loadFromStorage. cbn [localStorage set_urls].
    rewrite L.
    destruct (JSMap.get (localStorage w) STORAGE_KEY) as [data|];
      [|reflexivity].
    now destruct (read_snapshot data).
Qed.

Lemma refused_writes_leave_store_witness :
  let w := {| urls := JSMap.empty; localStorage := JSMap.empty;
              quotaExceeded := true;
              clock := fun _ => Demo.t0; ticks := 0;
              random := fun _ => 0%nat; toString36 := fun _ => "0.4fzyo82mvyr"%string;
              draws := 0;
              URL_protocol := Demo.protocol; timeZone := "Asia/Kolkata"%string;
              navigator_userAgent := "Mozilla/5.0"%string |} in
  let ops := [Create (Demo.request "https://example.com/x" None (Some "abc123"));
              Access "abc123" None] in
  exists w',
    run 1 ops w = Some w' /\
    JSMap.keys (urls w') = ["abc123"%string] /\
    localStorage w' = [] /\
    option_map urls (construct w') = Some [].
Proof.
  intros w ops.
  destruct (run 1 ops w) as [w'|] eqn:R; [|vm_compute in R; discriminate].
  exists w'. split; [reflexivity|].
  split; [vm_compute in R; injection R as <-; reflexivity|].
  destruct (refused_writes_leave_store 1 ops w w') as (_ & L & _ & C);
    [solve_wf | reflexivity | exact R |].
  split; [exact L | exact C].
Defined.

(** X10. A link flagged expired stays closed whatever the clock says:
    an access to it fails as expired, records no click, and changes
    neither the map nor the store, even at a time before its
    [expiresAt]. *)
Theorem flagged_link_stays_closed
    (code : string) (src : option string) (w : World) :
  flagged_expired (urls w) code ->
  fst (accessShortenedUrl code src w) = Failure Expired /\
  urls (snd (accessShortenedUrl code src w)) = urls w /\
  localStorage (snd (accessShortenedUrl code src w)) = localStorage w.
Proof.
  intros (u & G & E). unfold accessShortenedUrl, getShortenedUrl.
  rewrite G. cbn [Date_now]. rewrite E. cbn [negb].
  rewrite andb_false_r, E. cbn. auto.
Qed.

Lemma flagged_link_stays_closed_witness :
  let u := set_isExpired (Demo.link "abc123" "2024-06-01T00:00:00.000Z" []) true in
  let w := Demo.service Demo.t0 [("abc123", u)] in
  JSDate.lt (Some (clock w (ticks w))) (JSDate.parse (expiresAt u)) = true /\
  fst (accessShortenedUrl "abc123" None w) = Failure Expired.
Proof.
  intros u w. split; [reflexivity|].
  refine (proj1 (flagged_link_stays_closed "abc123" None w _)).
  exists u. split; reflexivity.
Defined.

(** ** Generated codes *)

Lemma generateShortCode_candidate fuel : forall w code w',
  generateShortCode fuel w = Some (code, w') -> exists k, code = candidate w k.
Proof.
  induction fuel as [|fuel IH]; intros w code w'; [discriminate|].
  cbn [generateShortCode].
  assert (C0 : candidate w 0 = fst (draw_chars SHORTCODE_LENGTH "" w))
    by (unfold candidate; now rewrite Nat.mul_0_r).
  pose proof (candidate_next w) as N.
  destruct (draw_chars SHORTCODE_LENGTH "" w) as [result w1]. cbn [fst snd] in *.
  destruct (JSMap.has (urls w1) result).
  - intros G. destruct (IH _ _ _ G) as [k ->]. exists (Datatypes.S k).
    now rewrite N.
  - intros [= <- _]. now exists 0%nat.
Qed.

(** X11. Every code the generator returns would pass as a custom code: it
    satisfies [isValidShortCode], and it is not a key of the map; the
    generator itself changes neither the map nor the store. *)
Theorem generated_code_is_valid
    (fuel : nat) (w w' : World) (code : string) :
  (forall i, (random w i < 62)%nat) ->
  generateShortCode fuel w = Some (code, w') ->
  isValidShortCode code = true /\
  isShortCodeUnique w code = true /\
  urls w' = urls w /\ localStorage w' = localStorage w.
Proof.
  intros R G.
  destruct (generateShortCode_candidate _ _ _ _ G) as [k ->].
  destruct (candidate_shape w k R) as (L & A & _).
  destruct (generateShortCode_sound _ _ _ _ G) as [(U & S & _) H].
  split.
  - unfold isValidShortCode, alphanumericRegex_test. rewrite L, A.
    destruct (candidate w k); [discriminate L | reflexivity].
  - unfold isShortCodeUnique. rewrite H. auto.
Qed.

Lemma generated_code_is_valid_witness :
  let w := Demo.service Demo.t0
             [("aaaaaa", Demo.link "aaaaaa" "2024-01-01T00:30:00.000Z" [])] in
  let w1 := Demo.with_random w (fun i => if (i <? 6)%nat then 0%nat else 1%nat) in
  exists w',
    generateShortCode 2 w1 = Some ("bbbbbb"%string, w') /\
    isValidShortCode "bbbbbb" = true.
Proof.
  intros w w1.
  destruct (generateShortCode 2 w1) as [[code w']|] eqn:G;
    [|vm_compute in G; discriminate].
  assert (E : code = "bbbbbb"%string)
    by (vm_compute in G; injection G as <- _; reflexivity).
  subst code. exists w'. split; [reflexivity|].
  refine (proj1 (generated_code_is_valid 2 w1 w' _ _ G)).
  intros i. simpl. destruct (i <? 6)%nat; lia.
Defined.

(** ** Sorting by a key, newest or largest first *)

Section KeySort.
Context {A : Type} (key : A -> Z).

Let cmp (a b : A) : Z := key b - key a.

Lemma sort_key_sorted l :
  StronglySorted (fun a b => key b <= key a) (JSArray.sort cmp l).
Proof.
  induction l as [|x r IH]; simpl; [constructor|].
  fold (JSArray.sort cmp r). revert IH. generalize (JSArray.sort cmp r).
  intros s S. induction s as [|y t IHt]; simpl.
  - repeat constructor.
  - inversion S as [|? ? St Fy]; subst. unfold cmp at 1.
    destruct (key y - key x <=? 0) eqn:E.
    + apply Z.leb_le in E. constructor; auto. constructor; [lia|].
      eapply Forall_impl; [|exact Fy]. cbn. intros z Hz. lia.
    + apply Z.leb_gt in E. constructor; auto.
      eapply Permutation_Forall; [symmetry; apply insert_perm|].
      constructor; auto. lia.
Qed.

Lemma sort_key_stable c l :
  filter (fun e => key e =? c) (JSArray.sort cmp l)
  = filter (fun e => key e =? c) l.
Proof.
  induction l as [|x r IH]; [reflexivity|].
  cbn [JSArray.sort fold_right]. fold (JSArray.sort cmp r).
  cbn [filter]. rewrite <- IH. generalize (JSArray.sort cmp r). intros s.
  induction s as [|y t IHt]; [reflexivity|].
  cbn [JSArray.insert]. unfold cmp at 1.
  destruct (key y - key x <=? 0) eqn:E; [reflexivity|].
  apply Z.leb_gt in E. cbn [filter]. rewrite IHt.
  destruct (key x =? c) eqn:X; [|reflexivity].
  apply Z.eqb_eq in X.
  destruct (key y =? c) eqn:Y; [|reflexivity].
  apply Z.eqb_eq in Y. lia.
Qed.

End KeySort.

Section SortMore.

Lemma insert_ext_in {A} (c1 c2 : A -> A -> Z) x l :
  (forall b, In b l -> c1 x b = c2 x b) ->
  JSArray.insert c1 x l = JSArray.insert c2 x l.
Proof.
  induction l as [|y r IH]; intros H; simpl; auto.
  rewrite (H y) by now left. destruct (c2 x y <=? 0); auto.
  f_equal. apply IH. intros b Hb. apply H. now right.
Qed.

Lemma sort_ext_in {A} (c1 c2 : A -> A -> Z) l :
  (forall a b, In a l -> In b l -> c1 a b = c2 a b) ->
  JSArray.sort c1 l = JSArray.sort c2 l.
Proof.
  induction l as [|x r IH]; intros H; simpl; auto.
  fold (JSArray.sort c1 r). fold (JSArray.sort c2 r).
  rewrite IH by (intros a b Ha Hb; apply H; now right).
  apply insert_ext_in. intros b Hb. apply H; [now left|].
  right. eapply Permutation_in; [apply sort_perm | exact Hb].
Qed.

Lemma insert_map {A B} (f : A -> B) (c : A -> A -> Z) (c' : B -> B -> Z) x l :
  (forall a b, c' (f a) (f b) = c a b) ->
  JSArray.insert c' (f x) (map f l) = map f (JSArray.insert c x l).
Proof.
  intros H. induction l as [|y r IH]; simpl; auto.
  rewrite H. destruct (c x y <=? 0); simpl; auto. now rewrite IH.
Qed.

Lemma sort_map {A B} (f : A -> B) (c : A -> A -> Z) (c' : B -> B -> Z) l :
  (forall a b, c' (f a) (f b) = c a b) ->
  JSArray.sort c' (map f l) = map f (JSArray.sort c l).
Proof.
  intros H. induction l as [|x r IH]; simpl; auto.
  fold (JSArray.sort c' (map f r)). fold (JSArray.sort c r).
  rewrite IH. now apply insert_map.
Qed.

Lemma sorted_app_inv {A} (R : A -> A -> Prop) l1 l2 :
  StronglySorted R (l1 ++ l2) ->
  StronglySorted R l1 /\ forall a b, In a l1 -> In b l2 -> R a b.
Proof.
  induction l1 as [|x r IH]; simpl; intros S.
  - split; [constructor | intros a b []].
  - inversion S as [|? ? Sr F]; subst. destruct (IH Sr) as [S1 H].
    split.
    + constructor; auto. apply Forall_app in F. tauto.
    + intros a b [<-|Ha] Hb; auto.
      rewrite Forall_forall in F. apply F. apply in_or_app. now right.
Qed.

Lemma NoDup_firstn {A} n (l : list A) : NoDup l -> NoDup (firstn n l).
Proof.
  intros D. rewrite <- (firstn_skipn n l) in D.
  now apply NoDup_app_remove_r in D.
Qed.

Lemma entries_perm (o : JSObject.t) : Permutation (JSObject.entries o) o.
Proof.
  unfold JSObject.entries. rewrite sort_perm.
  induction o as [|kv r IH]; simpl; auto.
  destruct (JSObject.is_array_index (fst kv)); simpl.
  - now constructor.
  - rewrite <- Permutation_middle. now constructor.
Qed.

Lemma occurrences_present s l : In s l -> 1 <= Spec.occurrences s l.
Proof.
  intros H. unfold Spec.occurrences.
  assert (I : In s (filter (String.eqb s) l))
    by (apply filter_In; split; auto; apply String.eqb_refl).
  destruct (filter (String.eqb s) l); [destruct I | simpl; lia].
Qed.

(** The top five of a list of keys: what the list holds and what it
    leaves out. *)
Lemma top_pairs_spec keys :
  let P := top_pairs keys in
  (List.length P <= 5)%nat /\
  NoDup (map fst P) /\
  (forall e, In e P ->
             In (fst e) keys /\ snd e = Spec.occurrences (fst e) keys) /\
  StronglySorted (fun a b => snd b <= snd a) P /\
  (forall s, In s keys ->
             In s (map fst P) \/
             (List.length P = 5%nat /\
              forall e, In e P -> Spec.occurrences s keys <= snd e)).
Proof.
  unfold top_pairs, JSArray.slice0. rewrite counts_grouped.
  set (g := map (fun s => (s, Spec.occurrences s keys)) (Spec.first_seen [] keys)).
  set (full := JSArray.sort pair_by_count (JSObject.entries g)).
  assert (Pm : Permutation full g)
    by (unfold full; rewrite sort_perm; apply entries_perm).
  assert (Sf : StronglySorted (fun a b => snd b <= snd a) full)
    by apply (sort_key_sorted snd).
  assert (Ig : forall e, In e g <->
                         In (fst e) keys /\ snd e = Spec.occurrences (fst e) keys).
  { intros [s n]. unfold g. rewrite in_map_iff. cbn. split.
    - intros (x & [= -> <-] & Hx). apply first_seen_In in Hx. tauto.
    - intros [H ->]. exists s. split; auto. apply first_seen_In. simpl. tauto. }
  assert (Dg : NoDup (map fst g)).
  { unfold g. rewrite map_map. cbn. rewrite map_id. apply first_seen_NoDup. }
  assert (Df : NoDup (map fst full))
    by (eapply Permutation_NoDup; [apply Permutation_map; symmetry; exact Pm | exact Dg]).
  cbv zeta. split; [apply firstn_le_length|]. split.
  - rewrite <- firstn_map. now apply NoDup_firstn.
  - split.
    + intros e He. apply Ig. eapply Permutation_in; [exact Pm|].
      rewrite <- (firstn_skipn 5 full). apply in_or_app. now left.
    + rewrite <- (firstn_skipn 5 full) in Sf.
      apply sorted_app_inv in Sf as [S1 S2]. split; [exact S1|].
      intros s Hs.
      assert (If : In (s, Spec.occurrences s keys) full)
        by (eapply Permutation_in; [symmetry; exact Pm | apply Ig; auto]).
      rewrite <- (firstn_skipn 5 full) in If. apply in_app_or in If as [I|I].
      * left. change s with (fst (s, Spec.occurrences s keys)). now apply in_map.
      * right. split.
        -- apply firstn_length_le.
           destruct (Nat.le_gt_cases 5 (List.length full)) as [L|L]; auto.
           rewrite skipn_all2 in I by lia. destruct I.
        -- intros e He. apply (S2 e _ He I).
Qed.

End SortMore.

(** ** Loading, whatever the store holds *)

Lemma ofEntries_wf {V} (l : list (string * V)) : JSMap.wf (JSMap.ofEntries l).
Proof.
  unfold JSMap.ofEntries.
  assert (G : forall acc : JSMap.t V, JSMap.wf acc ->
                JSMap.wf (fold_left (fun m kv => JSMap.set m (fst kv) (snd kv)) l acc)).
  { induction l as [|kv r IH]; intros acc W; simpl; auto.
    apply IH. now apply wf_set. }
  apply G. constructor.
Qed.

(** X12. Whatever the store holds, a constructed service has distinct
    keys: an array with the same code twice loads as one entry. The
    constructor never writes to the store; a stored [null], or entries
    that are not objects, leave the map empty. *)
Theorem construct_distinct_keys (w w' : World) :
  construct w = Some w' ->
  JSMap.wf (urls w') /\ localStorage w' = localStorage w /\
  (JSMap.get (localStorage w) STORAGE_KEY = None -> urls w' = []) /\
  (JSMap.get (localStorage w) STORAGE_KEY = Some JNull -> urls w' = []).
Proof.
  unfold construct, loadFromStorage. cbn [localStorage set_urls].
  destruct (JSMap.get (localStorage w) STORAGE_KEY) as [data|] eqn:G.
  - destruct (read_snapshot data) as [m| |] eqn:R; [| |discriminate];
      intros [= <-]; cbn [urls localStorage set_urls].
    + split.
      * unfold read_snapshot in R.
        destruct data; try discriminate;
          destruct (Json.field "urls" _) as [u|];
          try (injection R as <-; constructor);
          destruct (negb (Snapshot.truthy u));
          try (injection R as <-; constructor);
          destruct u; try discriminate;
          destruct (forallb _ _); try discriminate;
          destruct (Json.all _ _); try discriminate;
          injection R as <-; apply ofEntries_wf.
      * split; [reflexivity|]. split; [discriminate|].
        intros [= ->]. discriminate.
    + split; [constructor|]. repeat split; auto.
  - intros [= <-]. cbn. split; [constructor|]. repeat split; auto.
Qed.

Lemma construct_distinct_keys_witness :
  let first := Demo.link "abc123" "2024-01-01T00:30:00.000Z" [] in
  let second := Demo.link "abc123" "2024-01-01T00:45:00.000Z" [Demo.click "direct"] in
  let w := set_localStorage (Demo.world Demo.t0)
             [(STORAGE_KEY,
               JObj [("urls"%string,
                      JArr [Snapshot.entry_json ("abc123"%string, first);
                            Snapshot.entry_json ("abc123"%string, second)])])] in
  exists w',
    construct w = Some w' /\ urls w' = [("abc123"%string, second)] /\
    JSMap.wf (urls w').
Proof.
  intros first second w.
  destruct (construct w) as [w'|] eqn:C; [|vm_compute in C; discriminate].
  exists w'. split; [reflexivity|].
  split; [vm_compute in C; injection C as <-; reflexivity|].
  exact (proj1 (construct_distinct_keys w w' C)).
Defined.

(** ** The list of all URLs *)

(** X13. [getAllUrls] returns every record of the map exactly once; when
    every [createdAt] is a date, the list is in descending order of
    creation time, and records created at the same instant keep the order
    they have in the map. *)
Theorem getAllUrls_newest_first (w : World) :
  Permutation (getAllUrls w) (JSMap.values (urls w)) /\
  ((forall u, In u (JSMap.values (urls w)) -> JSDate.parse (createdAt u) <> None) ->
   StronglySorted (fun a b => created_time b <= created_time a) (getAllUrls w) /\
   forall t, filter (fun u => created_time u =? t) (getAllUrls w)
             = filter (fun u => created_time u =? t) (JSMap.values (urls w))).
Proof.
  unfold getAllUrls. split; [apply sort_perm|]. intros V.
  rewrite (sort_ext_in newest_first
             (fun a b => created_time b - created_time a)).
  - split; [apply (sort_key_sorted created_time)|].
    intros t. apply (sort_key_stable created_time).
  - intros a b Ha Hb. unfold newest_first, created_time, JSDate.getTime.
    pose proof (V a Ha). pose proof (V b Hb).
    destruct (JSDate.parse (createdAt a)), (JSDate.parse (createdAt b));
      congruence.
Qed.

Lemma getAllUrls_newest_first_witness :
  let old := Demo.link "oldest" "2024-01-01T00:30:00.000Z" [] in
  let w0 := Demo.service Demo.t0 [("oldest", old)] in
  exists u w',
    createShortenedUrl 1 (Demo.request "https://example.com/x" None None) w0
      = Some (Success u, w') /\
    JSMap.values (urls w') = [old; u] /\
    getAllUrls w' = [u; old] /\
    StronglySorted (fun a b => created_time b <= created_time a) (getAllUrls w').
Proof.
  intros old w0.
  destruct (createShortenedUrl 1 _ w0) as [[[u|e] w']|] eqn:C;
    try (vm_compute in C; discriminate).
  exists u, w'. split; [reflexivity|].
  vm_compute in C. injection C as <- <-.
  split; [reflexivity|]. split; [reflexivity|].
  refine (proj1 (proj2 (getAllUrls_newest_first _) _)).
  intros x [<-|[<-|[]]]; vm_compute; discriminate.
Defined.

(** ** The top five *)

Section TopFive.

Lemma getTopSources_pairs cs :
  existsb (fun c => JSObject.inherited (source c)) cs = false ->
  getTopSources cs
  = Some (map (fun kv => {| name := fst kv; count := snd kv |})
              (top_pairs (map source cs))).
Proof.
  intros H. unfold getTopSources, top_pairs, JSArray.slice0. rewrite H.
  rewrite sourceCounts_sources, <- firstn_map. do 2 f_equal.
  now apply sort_map.
Qed.

Lemma locationCounts_locations cs :
  locationCounts cs
  = fold_left (fun acc s => JSObject.bump s acc) (map location cs) [].
Proof.
  unfold locationCounts. generalize (@nil (string * Z)).
  induction cs as [|c r IH]; intros acc; simpl; auto.
Qed.

Lemma getTopLocations_pairs cs :
  existsb (fun c => JSObject.inherited (location c)) cs = false ->
  getTopLocations cs
  = Some (map (fun kv => {| ByLocation.location := fst kv;
                            ByLocation.count := snd kv |})
              (top_pairs (map location cs))).
Proof.
  intros H. unfold getTopLocations, top_pairs, JSArray.slice0. rewrite H.
  rewrite locationCounts_locations, <- firstn_map. do 2 f_equal.
  now apply sort_map.
Qed.

End TopFive.

(** X14. [getTopSources] of the service, for any sources (array indices
    included) that do not name inherited properties: at most five
    entries, with distinct sources, each with the exact number of its
    clicks (at least one), in descending order of count; and a source that
    is left out has no more clicks than any entry of the full list of
    five. *)
Theorem getTopSources_is_top_five (cs : list ClickData) (r : list SourceCount) :
  getTopSources cs = Some r ->
  let sources := map source cs in
  (List.length r <= 5)%nat /\
  NoDup (map name r) /\
  (forall e, In e r ->
             In (name e) sources /\
             count e = Spec.occurrences (name e) sources /\ 1 <= count e) /\
  StronglySorted (fun a b => count b <= count a) r /\
  (forall s, In s sources ->
             In s (map name r) \/
             (List.length r = 5%nat /\
              forall e, In e r -> Spec.occurrences s sources <= count e)).
Proof.
  intros G sources.
  assert (H : existsb (fun c => JSObject.inherited (source c)) cs = false)
    by (unfold getTopSources in G; destruct (existsb _ cs); [discriminate | auto]).
  rewrite (getTopSources_pairs cs H) in G. injection G as <-.
  fold sources.
  destruct (top_pairs_spec sources) as (L & D & I & S & T).
  set (P := top_pairs sources) in *.
  rewrite length_map, map_map. cbn [name].
  split; [exact L|]. split; [exact D|]. split.
  - intros e He. apply in_map_iff in He as (kv & <- & Hk). cbn.
    destruct (I kv Hk) as [A B]. split; [exact A|]. split; [exact B|].
    rewrite B. now apply occurrences_present.
  - split.
    + clear -S. induction S as [|a l Sl IH F]; simpl; constructor; auto.
      rewrite Forall_map. eapply Forall_impl; [|exact F]. cbn. auto.
    + intros s Hs. destruct (T s Hs) as [A|[A B]]; [now left|].
      right. split; [exact A|]. intros e He.
      apply in_map_iff in He as (kv & <- & Hk). cbn. now apply B.
Qed.

Lemma getTopSources_is_top_five_witness :
  let cs := [Demo.click "10"; Demo.click "x"; Demo.click "2"; Demo.click "x";
             Demo.click "a"; Demo.click "b"; Demo.click "c"; Demo.click "2"] in
  getTopSources cs
  = Some [{| name := "2"; count := 2 |}; {| name := "x"; count := 2 |};
          {| name := "10"; count := 1 |}; {| name := "a"; count := 1 |};
          {| name := "b"; count := 1 |}] /\
  forall r, getTopSources cs = Some r ->
            In "c"%string (map name r) \/
            (List.length r = 5%nat /\
             forall e, In e r -> Spec.occurrences "c" (map source cs) <= count e).
Proof.
  intros cs. split; [reflexivity|]. intros r G.
  refine (proj2 (proj2 (proj2 (proj2 (getTopSources_is_top_five cs r G)))) _ _).
  simpl. tauto.
Defined.

(** X15. [getTopLocations], of the service and of the analytics page
    (which runs it on the clicks of all its links): the same top five by
    location; at most five entries, distinct locations, exact counts in
    descending order, and nothing left out that has more clicks than an
    entry. *)
Theorem getTopLocations_is_top_five
    (links : list ShortenedUrl) (r : list ByLocation.LocationCount) :
  AnalyticsPage.getTopLocations links = Some r ->
  let cs := flat_map clicks links in
  let locations := map location cs in
  getTopLocations cs = Some r /\
  (List.length r <= 5)%nat /\
  NoDup (map ByLocation.location r) /\
  (forall e, In e r ->
             In (ByLocation.location e) locations /\
             ByLocation.count e
               = Spec.occurrences (ByLocation.location e) locations) /\
  StronglySorted (fun a b => ByLocation.count b <= ByLocation.count a) r /\
  (forall s, In s locations ->
             In s (map ByLocation.location r) \/
             (List.length r = 5%nat /\
              forall e, In e r ->
                        Spec.occurrences s locations <= ByLocation.count e)).
Proof.
  unfold AnalyticsPage.getTopLocations. cbv zeta. intros G.
  set (cs := flat_map clicks links) in *.
  set (locations := map location cs).
  split; [exact G|].
  assert (H : existsb (fun c => JSObject.inherited (location c)) cs = false)
    by (unfold getTopLocations in G; destruct (existsb _ cs); [discriminate | auto]).
  rewrite (getTopLocations_pairs cs H) in G. injection G as <-.
  fold locations.
  destruct (top_pairs_spec locations) as (L & D & I & S & T).
  set (P := top_pairs locations) in *.
  rewrite length_map, map_map. cbn [ByLocation.location].
  split; [exact L|]. split; [exact D|]. split.
  - intros e He. apply in_map_iff in He as (kv & <- & Hk). cbn.
    exact (I kv Hk).
  - split.
    + clear -S. induction S as [|a l Sl IH F]; simpl; constructor; auto.
      rewrite Forall_map. eapply Forall_impl; [|exact F]. cbn. auto.
    + intros s Hs. destruct (T s Hs) as [A|[A B]]; [now left|].
      right. split; [exact A|]. intros e He.
      apply in_map_iff in He as (kv & <- & Hk). cbn. now apply B.
Qed.

Lemma getTopLocations_is_top_five_witness :
  let here := Demo.click "direct" in
  let there :=
    {| timestamp := "2023-12-31T23:50:00.000Z"; source := "direct";
       location := "Berlin"; userAgent := "Mozilla/5.0"; ipHash := None |} in
  let links := [Demo.link "aaaaaa" "2024-01-01T00:30:00.000Z" [there; here];
                Demo.link "bbbbbb" "2024-01-01T00:30:00.000Z" [here]] in
  AnalyticsPage.getTopLocations links
  = Some [{| ByLocation.location := "Kolkata"; ByLocation.count := 2 |};
          {| ByLocation.location := "Berlin"; ByLocation.count := 1 |}] /\
  getTopLocations (flat_map clicks links) = AnalyticsPage.getTopLocations links.
Proof.
  intros here there links. split; [reflexivity|].
  destruct (AnalyticsPage.getTopLocations links) as [r|] eqn:G;
    [|vm_compute in G; discriminate].
  exact (proj1 (getTopLocations_is_top_five links r G)).
Defined.

(** ** Statistics of one URL *)

Section StatsFacts.
Variable toDateString : JSDate.Date -> string.

Lemma clicks_today_spec cs : forall w,
  (List.length (fst (clicks_today toDateString cs w)) <= List.length cs)%nat /\
  urls (snd (clicks_today toDateString cs w)) = urls w /\
  localStorage (snd (clicks_today toDateString cs w)) = localStorage w /\
  ticks (snd (clicks_today toDateString cs w)) = (List.length cs + ticks w)%nat.
Proof.
  induction cs as [|c r IH]; intros w; cbn [clicks_today Date_now].
  - cbn. auto.
  - destruct (IH (tick w)) as (A & B & C & D).
    destruct (clicks_today toDateString r (tick w)) as [kept w2].
    cbn [fst snd] in *. rewrite B, C, D. cbn.
    split; [destruct (String.eqb _ _); cbn [List.length]; lia|].
    repeat split; auto; lia.
Qed.

End StatsFacts.

(** X16. [getUrlStats]: for a code that is not in the map it fails with
    its not-found message and changes nothing. For a stored code it
    answers whether or not the link has expired: [totalClicks] is the
    number of clicks, [clicksToday] is at most that, [clickHistory] lists
    the clicks in their order, the two top lists are those of
    [getTopSources] and [getTopLocations]. It is not read-only, though: it
    goes through [getShortenedUrl], so the map it leaves is the one that
    lookup leaves (an expired link gets flagged), the clicks of every
    record being untouched. *)
Theorem getUrlStats_spec
    (toDateString : JSDate.Date -> string) (code : string) (w : World) :
  match getUrlStats toDateString code w with
  | Some (Success stats, w') =>
      exists url,
        JSMap.get (urls w) code = Some url /\
        Stats.totalClicks stats = List.length (clicks url) /\
        (Stats.clicksToday stats <= Stats.totalClicks stats)%nat /\
        map Stats.timestamp (Stats.clickHistory stats) = map timestamp (clicks url) /\
        map Stats.source (Stats.clickHistory stats) = map source (clicks url) /\
        map Stats.location (Stats.clickHistory stats) = map location (clicks url) /\
        getTopSources (clicks url) = Some (Stats.topSources stats) /\
        getTopLocations (clicks url) = Some (Stats.topLocations stats) /\
        urls w' = urls (snd (getShortenedUrl code w)) /\
        clicks_view (urls w') = clicks_view (urls w)
  | Some (Failure e, w') =>
      e = NotFoundStats /\ JSMap.get (urls w) code = None /\ w' = w
  | None => JSMap.has (urls w) code = true
  end.
Proof.
  unfold getUrlStats.
  assert (V : clicks_view (urls (snd (getShortenedUrl code w)))
              = clicks_view (urls w)).
  { destruct (getShortenedUrl_cases code w)
      as [[G R] | [(url & G & F1 & F2 & R) | (url & G & F & R)]];
      rewrite R; cbn [snd]; auto.
    rewrite save_urls. cbn [urls set_urls].
    now apply clicks_view_set with (v := url). }
  assert (C : forall url,
             fst (getShortenedUrl code w) = Some url ->
             exists url0, JSMap.get (urls w) code = Some url0 /\
                          clicks url = clicks url0).
  { destruct (getShortenedUrl_cases code w)
      as [[G R] | [(url & G & F1 & F2 & R) | (url & G & F & R)]];
      rewrite R; cbn [fst]; intros u [= <-]; eauto. }
  assert (N : fst (getShortenedUrl code w) = None ->
              JSMap.get (urls w) code = None /\ snd (getShortenedUrl code w) = w).
  { destruct (getShortenedUrl_cases code w)
      as [[G R] | [(url & G & F1 & F2 & R) | (url & G & F & R)]];
      rewrite R; cbn [fst snd]; auto; discriminate. }
  destruct (getShortenedUrl code w) as [[url|] w1]; cbn [fst snd] in *.
  - destruct (C url eq_refl) as (url0 & G & E).
    destruct (clicks_today_spec toDateString (clicks url) w1) as (L & U & _).
    destruct (clicks_today toDateString (clicks url) w1) as [today w2].
    cbn [fst snd] in *.
    destruct (getTopSources (clicks url)) as [ts|] eqn:TS;
      [|unfold JSMap.has; now rewrite G].
    destruct (getTopLocations (clicks url)) as [tl|] eqn:TL;
      [|unfold JSMap.has; now rewrite G].
    exists url0. cbn. rewrite !map_map. cbn. rewrite <- E.
    repeat split; auto; congruence.
  - destruct (N eq_refl) as [G ->]. auto.
Qed.

(** An expired link still has its statistics, and asking for them flags
    it. *)
Example stats_of_expired_link :
  let url := Demo.link "abc123" "2023-12-31T23:00:00.000Z"
               [Demo.click "direct"; Demo.click "results_page"] in
  let w := Demo.service Demo.t0 [("abc123", url)] in
  match getUrlStats (fun _ => ""%string) "abc123" w with
  | Some (Success stats, w') =>
      Stats.totalClicks stats = 2%nat /\ flagged_expired (urls w') "abc123"
  | _ => False
  end.
Proof. vm_compute. split; [reflexivity|]. eexists. split; reflexivity. Qed.

(** ** The coarse location *)

Section LocationFacts.

Lemma list_ascii_app s1 s2 :
  list_ascii_of_string (s1 ++ s2)
  = list_ascii_of_string s1 ++ list_ascii_of_string s2.
Proof. induction s1; simpl; auto. now rewrite IHs1. Qed.

Lemma split_acc_parts sep cur s part :
  ~ In sep (list_ascii_of_string cur) ->
  In part (Str.split_acc sep cur s) ->
  ~ In sep (list_ascii_of_string part).
Proof.
  revert cur. induction s as [|c r IH]; intros cur C; simpl.
  - intros [<-|[]]. exact C.
  - destruct (Ascii.eqb c sep) eqn:E.
    + intros [<-|H]; [exact C|]. apply (IH ""%string); auto.
    + apply IH. rewrite list_ascii_app, in_app_iff. simpl.
      apply Ascii.eqb_neq in E. intuition congruence.
Qed.

Lemma split_acc_whole sep cur s :
  ~ In sep (list_ascii_of_string s) ->
  Str.split_acc sep cur s = [(cur ++ s)%string].
Proof.
  revert cur. induction s as [|c r IH]; intros cur N; simpl.
  - f_equal. induction cur; simpl; auto. now f_equal.
  - simpl in N. destruct (Ascii.eqb c sep) eqn:E.
    + apply Ascii.eqb_eq in E. tauto.
    + rewrite IH by tauto. f_equal. induction cur; simpl; auto. now f_equal.
Qed.

Lemma split_acc_first sep cur a rest :
  ~ In sep (list_ascii_of_string a) ->
  Str.split_acc sep cur (a ++ String sep rest)
  = (cur ++ a)%string :: Str.split_acc sep "" rest.
Proof.
  revert cur. induction a as [|c r IH]; intros cur N; simpl.
  - rewrite Ascii.eqb_refl. f_equal. induction cur; simpl; auto. now f_equal.
  - simpl in N. destruct (Ascii.eqb c sep) eqn:E.
    + apply Ascii.eqb_eq in E. tauto.
    + rewrite IH by tauto. f_equal. induction cur; simpl; auto. now f_equal.
Qed.

Lemma replace_first_chars a b s c :
  In c (list_ascii_of_string (Str.replace_first a b s)) ->
  c = b \/ In c (list_ascii_of_string s).
Proof.
  induction s as [|x r IH]; simpl; auto.
  destruct (Ascii.eqb x a); simpl; intuition.
Qed.

End LocationFacts.

(** X17. [getCoarseLocation] is the second part of the time zone with its
    first underscore turned into a space (a third part is dropped), and
    "Unknown" for a zone without a slash; the result never holds a
    slash. *)
Theorem getCoarseLocation_spec (w : World) :
  slash_free (getCoarseLocation w) /\
  (slash_free (timeZone w) -> getCoarseLocation w = "Unknown"%string) /\
  (forall region city rest,
      slash_free region -> slash_free city ->
      (timeZone w = (region ++ "/" ++ city)%string \/
       timeZone w = (region ++ "/" ++ city ++ "/" ++ rest)%string) ->
      getCoarseLocation w = Str.replace_first "_" " " city).
Proof.
  unfold getCoarseLocation, Str.split. split; [|split].
  - destruct (Str.split_acc "/" "" (timeZone w)) as [|p0 [|p1 r]] eqn:E;
      try (unfold slash_free; simpl; intuition discriminate).
    intros H. apply replace_first_chars in H as [H|H]; [discriminate|].
    revert H. apply (split_acc_parts "/"%char ""%string (timeZone w)).
    + simpl. tauto.
    + rewrite E. simpl. tauto.
  - intros N. now rewrite split_acc_whole.
  - intros region city rest R C [E|E]; rewrite E; cbn [String.append].
    + rewrite split_acc_first by exact R. now rewrite split_acc_whole.
    + rewrite split_acc_first by exact R.
      now rewrite split_acc_first.
Qed.


Lemma getCoarseLocation_spec_witness :
  let w := set_urls (Demo.world Demo.t0) [] in
  getCoarseLocation w = "Kolkata"%string /\
  slash_free (getCoarseLocation w).
Proof.
  intros w. split; [reflexivity|].
  exact (proj1 (getCoarseLocation_spec w)).
Defined.

Example coarse_location_edges :
  getCoarseLocation (Demo.with_random (Demo.world 0) (fun _ => 0%nat)) = "Kolkata"%string /\
  Str.replace_first "_" " " "Port_of_Spain" = "Port of_Spain"%string /\
  Str.split "/" "America/Argentina/Buenos_Aires"
    = ["America"; "Argentina"; "Buenos_Aires"]%string /\
  Str.split "/" "UTC" = ["UTC"%string].
Proof. repeat split; reflexivity. Qed.

(** ** The analytics page *)

Section PageFacts.
Variable toDateString : JSDate.Date -> string.

Lemma total_clicks_acc (l : list ShortenedUrl) : forall n,
  fold_left (fun sum url => (sum + List.length (clicks url))%nat) l n
  = (n + List.length (flat_map clicks l))%nat.
Proof.
  induction l as [|u r IH]; intros n; simpl; [lia|].
  rewrite IH, length_app. lia.
Qed.

Lemma page_clicks_today_spec (l : list ShortenedUrl) : forall sum w,
  (sum <= fst (AnalyticsPage.clicks_today toDateString l sum w)
       <= sum + List.length (flat_map clicks l))%nat /\
  urls (snd (AnalyticsPage.clicks_today toDateString l sum w)) = urls w /\
  localStorage (snd (AnalyticsPage.clicks_today toDateString l sum w))
    = localStorage w /\
  ticks (snd (AnalyticsPage.clicks_today toDateString l sum w))
    = (List.length l + ticks w)%nat.
Proof.
  induction l as [|u r IH]; intros sum w;
    cbn [AnalyticsPage.clicks_today Date_now flat_map].
  - cbn. repeat split; auto; lia.
  - match goal with
    | |- context [AnalyticsPage.clicks_today _ r ?s ?w1] =>
        destruct (IH s w1) as (A & B & C & D)
    end.
    rewrite B, C, D, length_app. cbn.
    pose proof (filter_length_le
                  (fun click =>
                     String.eqb (toDateString (JSDate.parse (timestamp click)))
                                (toDateString (Some (clock w (ticks w)))))
                  (clicks u)).
    repeat split; auto; lia.
Qed.

End PageFacts.

(** X18. [getTotalStats] of the analytics page: [totalClicks] is the
    number of clicks of all the given links together, [totalUrls] their
    number, [activeUrls] the number of those not flagged expired (so at
    most [totalUrls]), [clicksToday] at most [totalClicks]. It reads the
    clock once per link and touches neither the map nor the store. *)
Theorem getTotalStats_spec
    (toDateString : JSDate.Date -> string)
    (filteredUrls : list ShortenedUrl) (w : World) :
  let stats := fst (AnalyticsPage.getTotalStats toDateString filteredUrls w) in
  let w' := snd (AnalyticsPage.getTotalStats toDateString filteredUrls w) in
  AnalyticsPage.totalClicks stats = List.length (flat_map clicks filteredUrls) /\
  AnalyticsPage.totalUrls stats = List.length filteredUrls /\
  (AnalyticsPage.activeUrls stats
   + List.length (filter isExpired filteredUrls)
   = AnalyticsPage.totalUrls stats)%nat /\
  (AnalyticsPage.clicksToday stats <= AnalyticsPage.totalClicks stats)%nat /\
  urls w' = urls w /\ localStorage w' = localStorage w /\
  ticks w' = (List.length filteredUrls + ticks w)%nat.
Proof.
  unfold AnalyticsPage.getTotalStats.
  destruct (page_clicks_today_spec toDateString filteredUrls 0%nat w)
    as (A & B & C & D).
  destruct (AnalyticsPage.clicks_today toDateString filteredUrls 0 w)
    as [today w1]. cbn [fst snd] in *. cbn.
  rewrite total_clicks_acc. repeat split; auto; try lia.
  clear. induction filteredUrls as [|u r IH]; simpl; auto.
  destruct (isExpired u); simpl; lia.
Qed.

(** X19. [getFilteredUrls]: for a selection other than "all" exactly the
    links with that code remain, in their order, at most one when the
    codes are distinct. The selection "all" keeps every link; since "all"
    is itself a valid custom code, the link with that code cannot be
    singled out. *)
Theorem getFilteredUrls_spec (urls : list ShortenedUrl) (selectedUrl : string) :
  (selectedUrl <> "all"%string ->
   AnalyticsPage.getFilteredUrls urls selectedUrl
     = filter (fun url => String.eqb (shortCode url) selectedUrl) urls /\
   (NoDup (map shortCode urls) ->
    (List.length (AnalyticsPage.getFilteredUrls urls selectedUrl) <= 1)%nat)) /\
  AnalyticsPage.getFilteredUrls urls "all" = urls /\
  isValidShortCode "all" = true.
Proof.
  split; [|split; reflexivity]. intros N.
  unfold AnalyticsPage.getFilteredUrls.
  destruct (String.eqb selectedUrl "all") eqn:E;
    [apply String.eqb_eq in E; congruence|].
  split; [reflexivity|]. clear. intros D.
  induction urls as [|u r IH]; simpl; [lia|].
  inversion D as [|? ? Hn Hr]; subst.
  destruct (String.eqb (shortCode u) selectedUrl) eqn:E; [|auto].
  apply String.eqb_eq in E. simpl.
  replace (filter (fun url => String.eqb (shortCode url) selectedUrl) r)
    with (@nil ShortenedUrl); [simpl; lia|].
  symmetry. clear IH Hr D. induction r as [|v t IH]; simpl; auto.
  destruct (String.eqb (shortCode v) selectedUrl) eqn:F.
  - apply String.eqb_eq in F. exfalso. apply Hn. simpl. left. congruence.
  - apply IH. intros H. apply Hn. simpl. now right.
Qed.

Lemma getFilteredUrls_spec_witness :
  let a := Demo.link "all" "2024-01-01T00:30:00.000Z" [] in
  let b := Demo.link "abc123" "2024-01-01T00:30:00.000Z" [] in
  AnalyticsPage.getFilteredUrls [a; b] "abc123" = [b] /\
  AnalyticsPage.getFilteredUrls [a; b] "all" = [a; b].
Proof.
  intros a b. split.
  - refine (eq_trans (proj1 (proj1 (getFilteredUrls_spec [a; b] "abc123") _)) _);
      [discriminate | reflexivity].
  - exact (proj1 (proj2 (getFilteredUrls_spec [a; b] "all"))).
Defined.

(** X20. [getRecentClicks]: the ten latest clicks of the given links, or
    all of them when there are fewer. Every entry is a click of one of the
    links and carries that link's code and URL; when every timestamp is a
    date the entries are in descending order of time, and no click that is
    left out is later than an entry. *)
Theorem getRecentClicks_spec (filteredUrls : list ShortenedUrl) :
  let recent := AnalyticsPage.getRecentClicks filteredUrls in
  let all := flat_map clicks filteredUrls in
  List.length recent = Nat.min 10 (List.length all) /\
  (forall rc, In rc recent ->
     exists url, In url filteredUrls /\
                 In (AnalyticsPage.click rc) (clicks url) /\
                 AnalyticsPage.shortCode rc = shortCode url /\
                 AnalyticsPage.originalUrl rc = originalUrl url) /\
  ((forall c, In c all -> JSDate.parse (timestamp c) <> None) ->
   StronglySorted
     (fun a b => click_time (AnalyticsPage.click b)
                 <= click_time (AnalyticsPage.click a)) recent /\
   exists left_out,
     Permutation (map AnalyticsPage.click recent ++ left_out) all /\
     forall c rc, In c left_out -> In rc recent ->
                  click_time c <= click_time (AnalyticsPage.click rc)).
Proof.
  unfold AnalyticsPage.getRecentClicks, JSArray.slice0. cbv zeta.
  set (tagged := flat_map _ filteredUrls).
  assert (M : map AnalyticsPage.click tagged = flat_map clicks filteredUrls).
  { unfold tagged. clear. induction filteredUrls as [|u r IH]; simpl; auto.
    rewrite map_app, IH, map_map. cbn. now rewrite map_id. }
  assert (Lt : List.length tagged = List.length (flat_map clicks filteredUrls))
    by (rewrite <- M; now rewrite length_map).
  set (sorted := JSArray.sort AnalyticsPage.latest_first tagged).
  assert (Pm : Permutation sorted tagged) by apply sort_perm.
  split; [|split].
  - rewrite length_firstn, (Permutation_length Pm), Lt. reflexivity.
  - intros rc H.
    assert (I : In rc tagged).
    { eapply Permutation_in; [exact Pm|].
      rewrite <- (firstn_skipn 10 sorted). apply in_or_app. now left. }
    unfold tagged in I. apply in_flat_map in I as (url & Hu & Hc).
    apply in_map_iff in Hc as (c & <- & Hc). exists url. cbn. auto.
  - intros V.
    assert (E : sorted
                = JSArray.sort
                    (fun a b => click_time (AnalyticsPage.click b)
                                - click_time (AnalyticsPage.click a)) tagged).
    { apply sort_ext_in. intros a b Ha Hb.
      unfold AnalyticsPage.latest_first, click_time, JSDate.getTime.
      assert (Va : JSDate.parse (timestamp (AnalyticsPage.click a)) <> None)
        by (apply V; rewrite <- M; now apply in_map).
      assert (Vb : JSDate.parse (timestamp (AnalyticsPage.click b)) <> None)
        by (apply V; rewrite <- M; now apply in_map).
      destruct (JSDate.parse (timestamp (AnalyticsPage.click a))),
               (JSDate.parse (timestamp (AnalyticsPage.click b)));
        congruence. }
    assert (S : StronglySorted
                  (fun a b => click_time (AnalyticsPage.click b)
                              <= click_time (AnalyticsPage.click a)) sorted)
      by (rewrite E;
          apply (sort_key_sorted (fun rc => click_time (AnalyticsPage.click rc)))).
    rewrite <- (firstn_skipn 10 sorted) in S.
    apply sorted_app_inv in S as [S1 S2].
    split; [exact S1|].
    exists (map AnalyticsPage.click (skipn 10 sorted)). split.
    + rewrite <- map_app, firstn_skipn, <- M. now apply Permutation_map.
    + intros c rc Hc Hr. apply in_map_iff in Hc as (x & <- & Hx).
      now apply S2.
Qed.

Lemma getRecentClicks_spec_witness :
  let early :=
    {| timestamp := "2023-12-31T23:40:00.000Z"; source := "direct";
       location := "Kolkata"; userAgent := "Mozilla/5.0"; ipHash := None |} in
  let late := Demo.click "results_page" in
  let links := [Demo.link "aaaaaa" "2024-01-01T00:30:00.000Z" [early];
                Demo.link "bbbbbb" "2024-01-01T00:30:00.000Z" [late]] in
  map AnalyticsPage.shortCode (AnalyticsPage.getRecentClicks links)
    = ["bbbbbb"; "aaaaaa"]%string /\
  StronglySorted
    (fun a b => click_time (AnalyticsPage.click b)
                <= click_time (AnalyticsPage.click a))
    (AnalyticsPage.getRecentClicks links).
Proof.
  intros early late links. split; [reflexivity|].
  refine (proj1 (proj2 (proj2 (getRecentClicks_spec links)) _)).
  intros c [<-|[<-|[]]]; vm_compute; discriminate.
Defined.

(* ================================================================== *)
(** ** The time-remaining label of a result card *)

Lemma string_of_Z_head z :
  0 <= z ->
  exists c s, Number.string_of_Z z = String c s /\ Str.is_digit c = true.
Proof.
  intros Hz. unfold Number.string_of_Z. destruct z as [|p|p]; [| |lia].
  - now exists "0"%char, ""%string.
  - cbn [Z.to_int NilZero.string_of_int].
    pose proof (Unsigned.to_uint_nonnil p) as N.
    destruct (Pos.to_uint p) as [|u|u|u|u|u|u|u|u|u|u]; [congruence|..];
      cbn [NilZero.string_of_uint NilEmpty.string_of_uint];
      eexists _, _; split; reflexivity.
Qed.

Lemma string_of_Z_inj a b :
  Number.string_of_Z a = Number.string_of_Z b -> a = b.
Proof.
  unfold Number.string_of_Z. intros E.
  apply DecimalZ.to_int_inj.
  assert (N : forall z, Z.to_int z <> Decimal.Pos Decimal.Nil /\
                        Z.to_int z <> Decimal.Neg Decimal.Nil).
  { intros [|p|p]; cbn [Z.to_int]; split; try discriminate;
      intros H; injection H as H; now apply Unsigned.to_uint_nonnil in H. }
  apply (f_equal NilZero.int_of_string) in E.
  rewrite !NilZero.isi in E by apply N. now injection E.
Qed.

Lemma label_not_expired z (rest : string) :
  0 <= z -> (Number.string_of_Z z ++ rest)%string <> "Expired"%string.
Proof.
  intros Hz. destruct (string_of_Z_head z Hz) as (c & s & -> & D).
  cbn [String.append]. intros E. injection E as -> _. discriminate D.
Qed.

(** X21. For a link of the map that is not flagged and whose [expiresAt]
    is a date [T], read at clock value [now]: the result card's
    [getTimeRemaining] shows "Expired" exactly when [T <= now], while
    [accessShortenedUrl] refuses the link as expired exactly when
    [T < now]; at the instant [now = T] the card says "Expired" and the
    access still succeeds with the link's target. *)
Theorem card_label_and_access code src url w T :
  JSMap.get (urls w) code = Some url ->
  JSDate.parse (expiresAt url) = Some T ->
  isExpired url = false ->
  let now := clock w (ticks w) in
  (fst (UrlResults.getTimeRemaining (expiresAt url) w) = "Expired"%string
     <-> T <= now) /\
  (fst (accessShortenedUrl code src w) = Failure Expired <-> T < now) /\
  (T = now ->
   fst (UrlResults.getTimeRemaining (expiresAt url) w) = "Expired"%string /\
   fst (accessShortenedUrl code src w) = Success (originalUrl url)).
Proof.
  intros G P E now.
  assert (L : fst (UrlResults.getTimeRemaining (expiresAt url) w)
              = "Expired"%string <-> T <= now).
  { unfold UrlResults.getTimeRemaining. cbn [Date_now]. rewrite P.
    cbn [JSDate.getTime]. fold now.
    destruct (T - now <=? 0) eqn:D.
    - apply Z.leb_le in D. cbn [fst]. split; [lia|reflexivity].
    - apply Z.leb_gt in D.
      assert (M : 0 <= (T - now) / (1000 * 60)) by (apply Z.div_pos; lia).
      assert (H : 0 <= (T - now) / (1000 * 60) / 60) by (apply Z.div_pos; lia).
      split; [|lia]. intros F. exfalso. revert F.
      destruct (0 <? (T - now) / (1000 * 60) / 60 / 24) eqn:Dd;
        [|destruct (0 <? (T - now) / (1000 * 60) / 60) eqn:Dh]; cbn [fst];
        apply label_not_expired; auto.
      apply Z.ltb_lt in Dd. lia. }
  assert (A : fst (accessShortenedUrl code src w) =
              if T <? now then Failure Expired
              else Success (originalUrl url)).
  { unfold accessShortenedUrl. rewrite (resolve_known code w url T G P E).
    fold now. destruct (T <? now); cbn [set_isExpired isExpired].
    - reflexivity.
    - rewrite E. cbn [Date_now]. now destruct (generateIpHash _). }
  split; [exact L|]. split.
  - rewrite A. destruct (T <? now) eqn:D.
    + apply Z.ltb_lt in D. tauto.
    + apply Z.ltb_ge in D. split; [discriminate|lia].
  - intros ->. split; [apply L; lia|]. rewrite A.
    now rewrite Z.ltb_irrefl.
Qed.

Lemma card_label_and_access_witness :
  let url := Demo.link "abc123" "2024-01-01T00:00:00.000Z" [] in
  let w := Demo.service Demo.t0 [("abc123", url)] in
  fst (UrlResults.getTimeRemaining (expiresAt url) w) = "Expired"%string /\
  fst (accessShortenedUrl "abc123" None w) = Success "https://example.com/x"%string.
Proof.
  intros url w.
  refine (proj2 (proj2
            (card_label_and_access "abc123" None url w Demo.t0 _ _ _)) _);
    vm_compute; reflexivity.
Defined.

(* ================================================================== *)
(** ** The logger *)

Section LoggerFacts.

Lemma log_shape l msg ctx d lg w :
  let e := {| Log.timestamp := JSDate.iso (clock w (ticks w));
              Log.level := l; Log.message := msg; Log.context := ctx;
              Log.data := d; Log.userId := None;
              Log.sessionId := Log.session lg |} in
  Log.log l msg ctx d lg w = (Log.addLog e lg, tick w).
Proof. reflexivity. Qed.

Lemma addLog_logs e lg :
  (List.length (Log.logs lg) <= Log.maxLogs)%nat ->
  Log.logs (Log.addLog e lg) =
    (if (List.length (Log.logs lg) <? Log.maxLogs)%nat
     then Log.logs lg else List.tl (Log.logs lg)) ++ [e].
Proof.
  intros B. unfold Log.addLog. cbn [Log.logs].
  rewrite length_app. cbn [List.length].
  destruct (List.length (Log.logs lg) <? Log.maxLogs)%nat eqn:D.
  - apply Nat.ltb_lt in D.
    destruct (Nat.ltb_spec Log.maxLogs (List.length (Log.logs lg) + 1));
      [lia|reflexivity].
  - apply Nat.ltb_ge in D.
    destruct (Nat.ltb_spec Log.maxLogs (List.length (Log.logs lg) + 1));
      [|lia].
    unfold Log.slice_last. rewrite length_app. cbn [List.length].
    replace (List.length (Log.logs lg) + 1 - Log.maxLogs)%nat with 1%nat
      by lia.
    destruct (Log.logs lg) as [|x r]; [cbn in D; unfold Log.maxLogs in D; lia|].
    reflexivity.
Qed.

Lemma addLog_length e lg :
  (List.length (Log.logs lg) <= Log.maxLogs)%nat ->
  (1 <= List.length (Log.logs (Log.addLog e lg)) <= Log.maxLogs)%nat.
Proof.
  intros B. rewrite addLog_logs by exact B. rewrite length_app.
  cbn [List.length].
  destruct (Nat.ltb_spec (List.length (Log.logs lg)) Log.maxLogs); [lia|].
  destruct (Log.logs lg); cbn [List.tl List.length] in *;
    unfold Log.maxLogs in *; lia.
Qed.

End LoggerFacts.

(** X22. One call of [debug], [info], [warn] or [error] on a logger that
    holds at most [maxLogs] = 1000 entries: the new entry, stamped with
    the clock's time and the logger's session id, becomes the last one;
    the earlier entries stay in order, and only when the log is full is
    the oldest one dropped, so that the log never exceeds 1000 entries;
    one line is written to the console and the clock is read once. *)
Theorem log_keeps_latest l msg ctx d lg w :
  (List.length (Log.logs lg) <= Log.maxLogs)%nat ->
  let lg' := fst (Log.log l msg ctx d lg w) in
  let e := {| Log.timestamp := JSDate.iso (clock w (ticks w));
              Log.level := l; Log.message := msg; Log.context := ctx;
              Log.data := d; Log.userId := None;
              Log.sessionId := Log.session lg |} in
  Log.logs lg' =
    (if (List.length (Log.logs lg) <? Log.maxLogs)%nat
     then Log.logs lg else List.tl (Log.logs lg)) ++ [e] /\
  (List.length (Log.logs lg') <= Log.maxLogs)%nat /\
  List.length (Log.console lg') = Datatypes.S (List.length (Log.console lg)) /\
  Log.session lg' = Log.session lg /\
  ticks (snd (Log.log l msg ctx d lg w)) = Datatypes.S (ticks w).
Proof.
  intros B lg' e. subst lg'. rewrite log_shape. cbn [fst snd].
  split; [now apply addLog_logs|].
  split; [now apply addLog_length|].
  unfold Log.addLog. cbn [Log.console Log.session].
  rewrite length_app. cbn [List.length]. repeat split; try lia.
Qed.

Lemma log_keeps_latest_witness :
  let entry := fun msg =>
    {| Log.timestamp := "2024-01-01T00:00:00.000Z"; Log.level := Log.INFO;
       Log.message := msg; Log.context := Some "SYSTEM"%string;
       Log.data := None; Log.userId := None;
       Log.sessionId := "session_1704067200000_4fzyo82mv" |} in
  let lg := {| Log.logs := entry "Logger initialized"%string
                           :: List.repeat (entry "later"%string) 999;
               Log.session := "session_1704067200000_4fzyo82mv";
               Log.console := [] |} in
  let lg' := fst (Log.log Log.WARN "newest" None None lg
                          (Demo.world Demo.t0)) in
  List.length (Log.logs lg) = Log.maxLogs /\
  List.length (Log.logs lg') = Log.maxLogs /\
  List.map Log.message (Log.logs lg')
    = List.repeat "later"%string 999 ++ ["newest"%string].
Proof.
  intros entry lg lg'.
  assert (B : (List.length (Log.logs lg) <= Log.maxLogs)%nat)
    by (apply Nat.leb_le; vm_compute; reflexivity).
  pose proof (log_keeps_latest Log.WARN "newest" None None lg
                (Demo.world Demo.t0) B) as T.
  cbv zeta in T. destruct T as (T & _). fold lg' in T.
  split; [vm_compute; reflexivity|].
  rewrite T. split; vm_compute; reflexivity.
Defined.

(** X23. From the constructor on, whatever sequence of logging calls and
    [clearLogs] follows: the log holds at least one and at most 1000
    entries, every entry carries the session id drawn by the constructor,
    and the console has received one line for the constructor and one for
    each call ([clearLogs] logs its own line and leaves the console's
    lines in place). *)
Theorem logger_always_bounded cs w :
  let lg0 := fst (Log.construct w) in
  let w0 := snd (Log.construct w) in
  let lg := fst (Log.calls cs lg0 w0) in
  (1 <= List.length (Log.logs lg) <= Log.maxLogs)%nat /\
  Forall (fun e => Log.sessionId e = Log.session lg0) (Log.logs lg) /\
  Log.session lg = Log.session lg0 /\
  List.length (Log.console lg) = Datatypes.S (List.length cs).
Proof.
  intros lg0 w0 lg.
  assert (I0 : (1 <= List.length (Log.logs lg0) <= Log.maxLogs)%nat /\
               Forall (fun e => Log.sessionId e = Log.session lg0)
                      (Log.logs lg0) /\
               List.length (Log.console lg0) = 1%nat).
  { subst lg0. unfold Log.construct.
    destruct (Log.generateSessionId w) as [sid w1].
    unfold Log.info. rewrite log_shape. cbn [fst].
    unfold Log.addLog, Log.maxLogs. cbn. repeat split; try lia.
    now repeat constructor. }
  subst lg. revert I0. generalize w0. clear w0.
  assert (G : forall cs lg1 w1,
    (1 <= List.length (Log.logs lg1) <= Log.maxLogs)%nat ->
    Forall (fun e => Log.sessionId e = Log.session lg1) (Log.logs lg1) ->
    let lg := fst (Log.calls cs lg1 w1) in
    (1 <= List.length (Log.logs lg) <= Log.maxLogs)%nat /\
    Forall (fun e => Log.sessionId e = Log.session lg1) (Log.logs lg) /\
    Log.session lg = Log.session lg1 /\
    List.length (Log.console lg) =
      (List.length (Log.console lg1) + List.length cs)%nat).
  { clear. induction cs as [|c rest IH]; intros lg1 w1 B F; cbn [Log.calls].
    - cbn [fst List.length]. repeat split; auto; lia.
    - destruct (Log.call c lg1 w1) as [lg2 w2] eqn:C.
      assert (S2 : Log.session lg2 = Log.session lg1 /\
                   (1 <= List.length (Log.logs lg2) <= Log.maxLogs)%nat /\
                   Forall (fun e => Log.sessionId e = Log.session lg1)
                          (Log.logs lg2) /\
                   List.length (Log.console lg2) =
                     Datatypes.S (List.length (Log.console lg1))).
      { destruct c as [l msg ctx d|]; cbn [Log.call] in C.
        - rewrite log_shape in C. injection C as <- <-.
          split; [reflexivity|]. split; [apply addLog_length; lia|].
          split.
          + rewrite addLog_logs by lia. apply Forall_app. split.
            * destruct (_ <? _)%nat; auto.
              destruct (Log.logs lg1); cbn [List.tl]; auto.
              now inversion F.
            * now repeat constructor.
          + unfold Log.addLog. cbn [Log.console]. rewrite length_app.
            cbn [List.length]. lia.
        - unfold Log.clearLogs, Log.info in C. rewrite log_shape in C.
          injection C as <- <-. unfold Log.addLog, Log.maxLogs. cbn.
          repeat split; try lia.
          + now repeat constructor.
          + rewrite length_app. cbn [List.length]. lia. }
      destruct S2 as (Ss & B2 & F2 & C2).
      rewrite <- Ss in F2.
      destruct (IH lg2 w2 B2 F2) as (B3 & F3 & S3 & C3).
      cbv zeta. rewrite Ss in F3, S3.
      repeat split; try tauto. rewrite C3, C2. cbn [List.length]. lia. }
  intros w0 (B & F & C).
  destruct (G cs lg0 w0 B F) as (B' & F' & S' & C').
  split; [exact B'|]. split; [exact F'|]. split; [exact S'|].
  rewrite C', C. reflexivity.
Qed.

(** X24. [getLogs(level, context)] returns exactly the entries of the log
    that have the given level, when one is given, and the given context,
    when a non-empty one is given; with neither it returns what
    [getAllLogs] returns, and the empty string as context filters
    nothing. *)
Theorem getLogs_spec l ctx lg :
  (forall e, In e (Log.getLogs l ctx lg) <->
     In e (Log.logs lg) /\
     (forall lv, l = Some lv -> Log.level e = lv) /\
     (forall c, ctx = Some c -> c <> ""%string -> Log.context e = Some c)) /\
  Log.getLogs None None lg = Log.getAllLogs lg /\
  Log.getLogs l (Some ""%string) lg = Log.getLogs l None lg.
Proof.
  assert (LE : forall a b, Log.level_eqb a b = true <-> a = b).
  { intros [] []; vm_compute; split; congruence. }
  split; [|split; reflexivity].
  intros e. unfold Log.getLogs.
  set (byLevel := match l with
                  | Some lv => List.filter _ (Log.logs lg)
                  | None => Log.logs lg
                  end).
  assert (BL : In e byLevel <->
               In e (Log.logs lg) /\
               (forall lv, l = Some lv -> Log.level e = lv)).
  { subst byLevel. destruct l as [lv|].
    - rewrite filter_In, LE. split.
      + intros [I <-]. split; auto. now intros ? [= <-].
      + intros [I H]. split; auto.
    - split; [intros I; split; auto; discriminate|tauto]. }
  destruct ctx as [c|].
  - destruct (String.eqb_spec c ""%string) as [->|N].
    + rewrite BL. split; [intros [I H]; repeat split; auto; congruence|tauto].
    + rewrite filter_In, BL. split.
      * intros [[I H] M]. repeat split; auto. intros c' [= <-] _.
        destruct (Log.context e) as [c'|]; [|discriminate].
        apply String.eqb_eq in M. now subst.
      * intros (I & H & M). repeat split; auto.
        rewrite (M c eq_refl N). apply String.eqb_refl.
  - rewrite BL. split; [intros [I H]; repeat split; auto; discriminate|tauto].
Qed.

(** X25. The logs page's [getLogStats]: the four per-level counters add
    up to the total, so every entry of the list is counted under exactly
    one level. *)
Theorem getLogStats_partition logs :
  let s := LogsPage.getLogStats logs in
  LogsPage.total s = List.length logs /\
  (LogsPage.errors s + LogsPage.warnings s + LogsPage.info s
   + LogsPage.debug s)%nat = LogsPage.total s.
Proof.
  cbv zeta. split; [reflexivity|].
  unfold LogsPage.getLogStats, LogsPage.count_level.
  cbn [LogsPage.total LogsPage.errors LogsPage.warnings LogsPage.info
       LogsPage.debug].
  induction logs as [|e r IH]; [reflexivity|].
  cbn [List.filter]. revert IH.
  generalize (List.filter (fun x => Log.level_eqb (Log.level x) Log.ERROR) r),
    (List.filter (fun x => Log.level_eqb (Log.level x) Log.WARN) r),
    (List.filter (fun x => Log.level_eqb (Log.level x) Log.INFO) r),
    (List.filter (fun x => Log.level_eqb (Log.level x) Log.DEBUG) r).
  intros le lw li ld IH.
  destruct (Log.level e);
    cbv [Log.level_eqb Log.level_name String.eqb Ascii.eqb Bool.eqb andb];
    cbn [List.length]; lia.
Qed.

(* ================================================================== *)
(** ** The form's entries *)

Section FormFacts.

Lemma updateUrlEntry_ids i f urls :
  List.map Form.id (Form.updateUrlEntry i f urls) = List.map Form.id urls.
Proof.
  unfold Form.updateUrlEntry. rewrite map_map. apply map_ext.
  intros u. destruct (String.eqb (Form.id u) i); [|reflexivity].
  now destruct f.
Qed.

Lemma filter_ids_NoDup (p : Form.UrlEntry -> bool) urls :
  NoDup (List.map Form.id urls) ->
  NoDup (List.map Form.id (List.filter p urls)).
Proof.
  induction urls as [|u r IH]; cbn [List.filter List.map]; auto.
  intros N. inversion N as [|? ? NI N']; subst.
  destruct (p u); cbn [List.map]; auto.
  constructor; auto. intros I. apply NI.
  apply in_map_iff in I as (x & E & I). apply filter_In in I as [I _].
  apply in_map_iff. eauto.
Qed.

Lemma remove_one i urls :
  NoDup (List.map Form.id urls) ->
  (List.length urls <=
   Datatypes.S (List.length
     (List.filter (fun u => negb (String.eqb (Form.id u) i)) urls)))%nat.
Proof.
  induction urls as [|u r IH]; cbn [List.filter List.map List.length];
    [lia|].
  intros N. inversion N as [|? ? NI N']; subst.
  destruct (String.eqb_spec (Form.id u) i) as [E|E]; cbn [negb List.length].
  - assert (F : List.filter (fun u => negb (String.eqb (Form.id u) i)) r = r).
    { apply forallb_filter_id. apply forallb_forall. intros x I.
      destruct (String.eqb_spec (Form.id x) i) as [E'|]; [|reflexivity].
      exfalso. apply NI. rewrite E, <- E'. now apply in_map. }
    rewrite F. lia.
  - specialize (IH N'). lia.
Qed.

End FormFacts.

Lemma form_at_most_five evs :
  forall urls w,
  (List.length urls <= 5)%nat ->
  (List.length (fst (Form.handle_all evs urls w)) <= 5)%nat.
Proof.
  induction evs as [|ev rest IH]; intros urls w B; cbn [Form.handle_all].
  - exact B.
  - destruct (Form.handle ev urls w) as [urls1 w1] eqn:H. apply IH.
    destruct ev as [|i|i f]; cbn [Form.handle] in H.
    + unfold Form.addUrlEntry in H.
      destruct (Nat.ltb_spec (List.length urls) 5).
      * cbn [Date_now] in H. injection H as <- <-.
        rewrite length_app. cbn [List.length]. lia.
      * now injection H as <- <-.
    + injection H as <- <-. unfold Form.removeUrlEntry.
      destruct (1 <? List.length urls)%nat; auto.
      pose proof (filter_length_le
        (fun u => negb (String.eqb (Form.id u) i)) urls). lia.
    + injection H as <- <-. unfold Form.updateUrlEntry.
      now rewrite length_map.
Qed.

Lemma form_distinct_ids evs w :
  (forall i j, clock w i = clock w j -> i = j) ->
  (forall i, clock w i <> 1) ->
  let urls := fst (Form.handle_all evs Form.initial w) in
  (1 <= List.length urls)%nat /\ NoDup (List.map Form.id urls).
Proof.
  intros Inj N1.
  set (Inv := fun (urls : list Form.UrlEntry) (w1 : World) =>
    clock w1 = clock w /\
    (1 <= List.length urls)%nat /\ NoDup (List.map Form.id urls) /\
    forall u, In u urls ->
      Form.id u = "1"%string \/
      exists i, (i < ticks w1)%nat /\
                Form.id u = Number.string_of_Z (clock w i)).
  assert (G : forall evs urls w1, Inv urls w1 ->
    let urls' := fst (Form.handle_all evs urls w1) in
    (1 <= List.length urls')%nat /\ NoDup (List.map Form.id urls')).
  { clear evs. induction evs as [|ev rest IH]; intros urls w1 I;
      cbn [Form.handle_all].
    - cbn [fst]. destruct I as (_ & B & D & _). now split.
    - destruct (Form.handle ev urls w1) as [urls1 w2] eqn:H.
      apply IH. destruct I as (C & B & D & O).
      destruct ev as [|i|i f]; cbn [Form.handle] in H.
      + unfold Form.addUrlEntry in H.
        destruct (Nat.ltb_spec (List.length urls) 5).
        * cbn [Date_now] in H. injection H as <- <-.
          unfold Inv. cbn [clock ticks tick]. split; [exact C|].
          rewrite length_app, map_app. cbn [List.length List.map].
          split; [lia|]. split.
          -- apply NoDup_app; auto.
             ++ repeat constructor. intros [].
             ++ intros a Ia [<-|[]].
                apply in_map_iff in Ia as (u & E & Iu).
                destruct (O u Iu) as [O1|(j & Lj & Oj)].
                ** rewrite O1 in E. cbn [Form.blank Form.id] in E.
                   rewrite C in E.
                   change "1"%string with (Number.string_of_Z 1) in E.
                   apply string_of_Z_inj in E. now apply (N1 (ticks w1)).
                ** rewrite Oj in E. cbn [Form.blank Form.id] in E.
                   rewrite C in E. apply string_of_Z_inj in E.
                   apply Inj in E. lia.
          -- intros u Iu. apply in_app_iff in Iu as [Iu|[<-|[]]].
             ++ destruct (O u Iu) as [O1|(j & Lj & Oj)]; auto.
                right. exists j. split; [lia|exact Oj].
             ++ right. exists (ticks w1). split; [lia|].
                cbn [Form.blank Form.id]. now rewrite C.
        * injection H as <- <-. unfold Inv. auto.
      + injection H as <- <-. unfold Form.removeUrlEntry.
        destruct (Nat.ltb_spec 1 (List.length urls)); [|unfold Inv; auto].
        unfold Inv. split; [exact C|]. split.
        * pose proof (remove_one i urls D). lia.
        * split; [now apply filter_ids_NoDup|].
          intros u Iu. apply filter_In in Iu as [Iu _]. auto.
      + injection H as <- <-. unfold Inv. split; [exact C|].
        rewrite updateUrlEntry_ids. unfold Form.updateUrlEntry.
        rewrite length_map. split; [exact B|]. split; [exact D|].
        intros u Iu. apply in_map_iff in Iu as (x & <- & Ix).
        destruct (O x Ix) as [O1|O2];
          destruct (String.eqb (Form.id x) i); auto; destruct f; auto. }
  apply G. unfold Inv. split; [reflexivity|].
  cbn [Form.initial List.length List.map Form.blank Form.id].
  split; [lia|]. split; [repeat constructor; intros []|].
  intros u [<-|[]]. now left.
Qed.

(** X26. The form's list of entries under any sequence of [addUrlEntry],
    [removeUrlEntry] and [updateUrlEntry], started from the component's
    initial list: it never holds more than five entries; and when the
    clock's readings are pairwise different and never 1, the entries' ids
    stay pairwise distinct and the list never becomes empty. *)
Theorem form_entries_bounded evs w :
  let urls := fst (Form.handle_all evs Form.initial w) in
  (List.length urls <= 5)%nat /\
  ((forall i j, clock w i = clock w j -> i = j) ->
   (forall i, clock w i <> 1) ->
   (1 <= List.length urls)%nat /\ NoDup (List.map Form.id urls)).
Proof.
  cbv zeta. split.
  - apply form_at_most_five. cbn. lia.
  - intros Inj N1. now apply form_distinct_ids.
Qed.

Lemma form_entries_bounded_witness :
  let w := {| urls := JSMap.empty; localStorage := JSMap.empty;
              quotaExceeded := false;
              clock := fun i => Demo.t0 + Z.of_nat i; ticks := 0;
              random := fun _ => 0%nat; toString36 := fun _ => "0.4fzyo82mvyr";
              draws := 0;
              URL_protocol := Demo.protocol; timeZone := "Asia/Kolkata";
              navigator_userAgent := "Mozilla/5.0" |} in
  (1 <= List.length
          (fst (Form.handle_all [Form.Add; Form.Add; Form.Remove "1"]
                                Form.initial w)))%nat.
Proof.
  intros w.
  refine (proj1 (proj2 (form_entries_bounded
                   [Form.Add; Form.Add; Form.Remove "1"%string] w) _ _)).
  - cbn [clock w]. intros i j. lia.
  - cbn [clock w]. intros i. unfold Demo.t0. lia.
Defined.

(** With a clock that stands still two added entries share their id, and
    removing by id can take the last entries away. *)
Example form_can_lose_every_entry :
  fst (Form.handle_all
         [Form.Add; Form.Add; Form.Remove "1"; Form.Remove "1704067200000"]
         Form.initial (Demo.world Demo.t0)) = [].
Proof. vm_compute. reflexivity. Qed.

(* ================================================================== *)
(** ** The batch of a submitted form *)

Section BatchFacts.

Lemma create_grows fuel request w r w' :
  createShortenedUrl fuel request w = Some (r, w') ->
  forall k u, JSMap.get (urls w) k = Some u ->
              JSMap.get (urls w') k = Some u.
Proof.
  intros C k u G. destruct r as [x|e].
  - destruct (create_success fuel request w x w' C)
      as (_ & _ & _ & _ & _ & _ & _ & _ & _ & H & U & _).
    rewrite U. rewrite get_set_other; auto.
    intros <-. unfold JSMap.has in H. now rewrite G in H.
  - destruct (create_cases fuel request w _ w' C)
      as [(e' & _ & U & _)|(x & E & _)]; [now rewrite U|discriminate].
Qed.

Lemma create_all_spec fuel requests :
  forall results errors w results' errors' w',
  Page.create_all fuel requests results errors w
    = Some (results', errors', w') ->
  (forall u, In u results -> JSMap.get (urls w) (shortCode u) = Some u) ->
  NoDup (List.map shortCode results) ->
  exists new errs,
    results' = results ++ new /\ errors' = errors ++ errs /\
    (List.length new + List.length errs)%nat = List.length requests /\
    NoDup (List.map shortCode results') /\
    (forall u, In u results' ->
               JSMap.get (urls w') (shortCode u) = Some u) /\
    (forall u, In u new -> JSMap.has (urls w) (shortCode u) = false) /\
    (forall k u, JSMap.get (urls w) k = Some u ->
                 JSMap.get (urls w') k = Some u).
Proof.
  induction requests as [|request rest IH];
    intros results errors w results' errors' w' C R D; cbn [Page.create_all] in C.
  - injection C as <- <- <-. exists [], []. rewrite !app_nil_r.
    repeat split; auto. intros u [].
  - destruct (createShortenedUrl fuel request w) as [[[x|e] w1]|] eqn:K;
      [| |discriminate].
    + pose proof (create_grows _ _ _ _ _ K) as Gr.
      destruct (create_success fuel request w x w1 K)
        as (_ & _ & _ & _ & _ & _ & _ & _ & _ & H & U & _).
      assert (R1 : forall u, In u (results ++ [x]) ->
                             JSMap.get (urls w1) (shortCode u) = Some u).
      { intros u Iu. apply in_app_iff in Iu as [Iu|[<-|[]]]; auto.
        rewrite U. apply get_set_same. }
      assert (D1 : NoDup (List.map shortCode (results ++ [x]))).
      { rewrite map_app. apply NoDup_app; auto.
        - repeat constructor. intros [].
        - intros a Ia [<-|[]]. apply in_map_iff in Ia as (u & E & Iu).
          apply R in Iu. unfold JSMap.has in H. rewrite <- E in H.
          now rewrite Iu in H. }
      destruct (IH _ _ _ _ _ _ C R1 D1)
        as (new & errs & -> & -> & L & D' & R' & F' & G').
      exists (x :: new), errs. rewrite <- app_assoc in D', R' |- *.
      cbn [List.app List.length] in D', R' |- *.
      split; [reflexivity|]. split; [reflexivity|]. split; [lia|].
      split; [exact D'|]. split; [exact R'|]. split; [|now auto].
      intros u [<-|Iu]; [exact H|].
      specialize (F' u Iu). unfold JSMap.has in *.
      destruct (JSMap.get (urls w) (shortCode u)) as [y|] eqn:Y; auto.
      now rewrite (Gr _ _ Y) in F'.
    + pose proof (create_grows _ _ _ _ _ K) as Gr.
      destruct (create_cases fuel request w _ w1 K)
        as [(e' & _ & U & _)|(x & E & _)]; [|discriminate].
      assert (R1 : forall u, In u results ->
                             JSMap.get (urls w1) (shortCode u) = Some u).
      { intros u Iu. rewrite U. auto. }
      destruct (IH _ _ _ _ _ _ C R1 D)
        as (new & errs & -> & -> & L & D' & R' & F' & G').
      eexists new, (_ :: errs). rewrite <- app_assoc.
      cbn [List.app List.length].
      split; [reflexivity|]. split; [reflexivity|]. split; [lia|].
      split; [exact D'|]. split; [exact R'|]. split; [|now auto].
      intros u Iu. rewrite <- U. now apply F'.
Qed.

End BatchFacts.

(** X27. The page's [handleSubmit] on a batch of requests: every request
    ends either in the list of created links or in the list of errors;
    the created links have pairwise distinct short codes, none of which
    was in the map before, and each is the map's value under its code when
    the batch is over; the links the map held before are still there;
    the new links are put in front of the page's list; the page shows an
    error exactly when some request failed and a success message exactly
    when some link was created. *)
Theorem handleSubmit_spec fuel requests st w st' w' :
  Page.handleSubmit fuel requests st w = Some (st', w') ->
  exists (results : list ShortenedUrl) (errors : list string),
    Page.urls st' = results ++ Page.urls st /\
    (List.length results + List.length errors)%nat = List.length requests /\
    NoDup (List.map shortCode results) /\
    (forall u, In u results ->
       JSMap.has (urls w) (shortCode u) = false /\
       JSMap.get (urls w') (shortCode u) = Some u) /\
    (forall k u, JSMap.get (urls w) k = Some u ->
                 JSMap.get (urls w') k = Some u) /\
    (Page.error st' = None <-> errors = []) /\
    (Page.success st' = None <-> results = []).
Proof.
  unfold Page.handleSubmit. intros H.
  destruct (Page.create_all fuel requests [] [] w)
    as [[[results errors] w1]|] eqn:C; [|discriminate].
  destruct (create_all_spec _ _ _ _ _ _ _ _ C)
    as (new & errs & E1 & E2 & L & D & R & F & G).
  { intros u []. } { constructor. }
  cbn [List.app] in E1, E2. subst new errs.
  exists results, errors.
  assert (Er : (if (0 <? List.length errors)%nat
                then Some ("Some URLs failed to create: "
                           ++ Page.join ", " errors)%string
                else None) = None <-> errors = []).
  { destruct errors; cbn; split; congruence. }
  destruct results as [|x r].
  - cbn [List.length Nat.ltb Nat.leb] in H. injection H as <- <-.
    cbn [Page.urls Page.error Page.success].
    split; [reflexivity|]. split; [exact L|]. split; [exact D|].
    split; [intros u []|]. split; [exact G|]. split; [exact Er|].
    split; reflexivity.
  - cbn [List.length Nat.ltb Nat.leb] in H. injection H as <- <-.
    cbn [Page.urls Page.error Page.success].
    split; [reflexivity|]. split; [exact L|]. split; [exact D|].
    split; [now auto|]. split; [exact G|]. split; [exact Er|].
    split; discriminate.
Qed.

Lemma handleSubmit_spec_witness :
  let old := Demo.link "taken1" "2024-01-01T00:30:00.000Z" [] in
  let w := Demo.service Demo.t0 [("taken1", old)] in
  let requests :=
    [Demo.request "https://example.com/a" None (Some "fresh1");
     Demo.request "https://example.com/b" None (Some "taken1");
     Demo.request "https://example.com/c" None (Some "fresh1")] in
  let st := {| Page.urls := [old]; Page.error := None;
               Page.success := None |} in
  exists st' w',
    Page.handleSubmit 1 requests st w = Some (st', w') /\
    List.map shortCode (Page.urls st') = ["fresh1"; "taken1"]%string /\
    JSMap.get (urls w') "taken1" = Some old.
Proof.
  intros old w requests st.
  destruct (Page.handleSubmit 1 requests st w) as [[st' w']|] eqn:C;
    [|vm_compute in C; discriminate].
  exists st', w'. split; [reflexivity|].
  destruct (handleSubmit_spec 1 requests st w st' w' C)
    as (results & errors & _ & _ & _ & _ & G & _).
  split; [|apply G; reflexivity].
  vm_compute in C. injection C as <- _. reflexivity.
Defined.

(** X28. Mounting the page reads the list of links before it sweeps the
    expired ones. A link of the map whose [expiresAt] is a date [T] is
    therefore on the page's list in any case; if [T] lies before the
    sweep's clock reading the link is no longer in the map afterwards and
    an access by its code fails with [NotFound], otherwise the map still
    holds it unchanged. *)
Theorem mount_lists_before_sweep code url w T :
  JSMap.wf (urls w) ->
  JSMap.get (urls w) code = Some url ->
  JSDate.parse (expiresAt url) = Some T ->
  let now := clock w (ticks w) in
  let st := fst (Page.mount w) in
  let w1 := snd (Page.mount w) in
  In url (Page.urls st) /\
  (T < now ->
   JSMap.get (urls w1) code = None /\
   forall src, fst (accessShortenedUrl code src w1) = Failure NotFound) /\
  (now <= T -> JSMap.get (urls w1) code = Some url).
Proof.
  intros W G P now st w1.
  assert (M : Page.mount w =
              ({| Page.urls := getAllUrls w; Page.error := None;
                  Page.success := None |}, snd (cleanupExpiredUrls w))).
  { unfold Page.mount. now destruct (cleanupExpiredUrls w). }
  subst st w1. rewrite M. cbn [fst snd Page.urls].
  destruct (cleanupExpiredUrls_urls w W) as [U _]. fold now in U.
  assert (X : expired_at now url = (T <? now)).
  { unfold expired_at. now rewrite P. }
  split; [|split].
  - apply (Permutation_in _ (Permutation_sym (sort_perm newest_first _))).
    apply get_In in G. unfold JSMap.values.
    apply in_map_iff. now exists (code, url).
  - intros L.
    assert (N : JSMap.get (urls (snd (cleanupExpiredUrls w))) code = None).
    { rewrite U. apply get_None_keys. unfold JSMap.keys. intros I.
      apply in_map_iff in I as ([k v] & E & I). cbn [fst] in E. subst k.
      apply filter_In in I as [I Q]. cbn [snd] in Q.
      rewrite (In_get _ _ _ W I) in G. injection G as ->.
      rewrite X in Q. apply Z.ltb_lt in L. rewrite L in Q. discriminate. }
    split; [exact N|]. intros src.
    unfold accessShortenedUrl, getShortenedUrl. now rewrite N.
  - intros L. rewrite U. apply In_get; [now apply wf_filter|].
    apply filter_In. split; [now apply get_In|]. cbn [snd]. rewrite X.
    apply Z.ltb_ge in L. now rewrite L.
Qed.

Lemma mount_lists_before_sweep_witness :
  let url := Demo.link "abc123" "2024-01-01T00:00:00.000Z" [] in
  let w := Demo.service (Demo.t0 + 1) [("abc123", url)] in
  In url (Page.urls (fst (Page.mount w))) /\
  fst (accessShortenedUrl "abc123" None (snd (Page.mount w)))
    = Failure NotFound.
Proof.
  intros url w.
  destruct (mount_lists_before_sweep "abc123" url w Demo.t0) as (A & B & _);
    [solve_wf|reflexivity|vm_compute; reflexivity|].
  split; [exact A|]. apply B. vm_compute. reflexivity.
Defined.

(* ================================================================== *)
(** ** The contexts offered by the logs page *)

Section ContextFacts.

Lemma ascii_compare_N a b :
  Ascii.compare a b = N.compare (N_of_ascii a) (N_of_ascii b).
Proof. reflexivity. Qed.

Lemma string_le_trans a :
  forall b c, String.compare a b <> Gt -> String.compare b c <> Gt ->
              String.compare a c <> Gt.
Proof.
  induction a as [|x a IH]; intros [|y b] [|z c]; cbn [String.compare];
    try congruence.
  rewrite !ascii_compare_N.
  destruct (N.compare_spec (N_of_ascii x) (N_of_ascii y)) as [E|L|L];
    destruct (N.compare_spec (N_of_ascii y) (N_of_ascii z)) as [E'|L'|L'];
    destruct (N.compare_spec (N_of_ascii x) (N_of_ascii z)) as [E''|L''|L''];
    try congruence; try lia; intros; eauto.
Qed.

Lemma default_compare_le a b :
  LogsPage.default_compare a b <= 0 <-> String.compare a b <> Gt.
Proof.
  unfold LogsPage.default_compare.
  destruct (String.compare a b); split; try congruence; try lia.
Qed.

Lemma sort_le_sorted {A} (cmp : A -> A -> Z) l :
  (forall a b c, cmp a b <= 0 -> cmp b c <= 0 -> cmp a c <= 0) ->
  (forall a b, cmp a b <= 0 \/ cmp b a <= 0) ->
  StronglySorted (fun a b => cmp a b <= 0) (JSArray.sort cmp l).
Proof.
  intros Tr Tot. induction l as [|x r IH]; simpl; [constructor|].
  fold (JSArray.sort cmp r). revert IH. generalize (JSArray.sort cmp r).
  intros s St. induction s as [|y t IHt]; simpl.
  - repeat constructor.
  - inversion St as [|? ? St' Fy]; subst.
    destruct (cmp x y <=? 0) eqn:E.
    + apply Z.leb_le in E. constructor; auto. constructor; [exact E|].
      eapply Forall_impl; [|exact Fy]. cbn. intros z Hz. eauto.
    + apply Z.leb_gt in E. constructor; auto.
      eapply Permutation_Forall; [symmetry; apply insert_perm|].
      constructor; auto. destruct (Tot x y); [lia|assumption].
Qed.

Lemma indexOf_bounds x l :
  LogsPage.indexOf x l = -1 \/ 0 <= LogsPage.indexOf x l.
Proof.
  induction l as [|y r IH]; cbn [LogsPage.indexOf]; [now left|].
  destruct (String.eqb y x); [right; lia|].
  destruct (LogsPage.indexOf x r <? 0) eqn:E; [now left|].
  apply Z.ltb_ge in E. right. lia.
Qed.

Lemma indexOf_In x l : In x l -> 0 <= LogsPage.indexOf x l.
Proof.
  induction l as [|y r IH]; cbn [LogsPage.indexOf]; [intros []|].
  intros [->|I].
  - rewrite String.eqb_refl. lia.
  - destruct (String.eqb y x); [lia|]. specialize (IH I).
    destruct (LogsPage.indexOf x r <? 0) eqn:E; [|lia].
    apply Z.ltb_lt in E. lia.
Qed.

Lemma indexOf_app_seen pre x l :
  (LogsPage.indexOf x (pre ++ x :: l) =? Z.of_nat (List.length pre))
  = negb (List.existsb (String.eqb x) pre).
Proof.
  induction pre as [|y pre IH]; cbn [List.app LogsPage.indexOf List.length
                                      List.existsb].
  - now rewrite String.eqb_refl.
  - rewrite (String.eqb_sym x y).
    destruct (String.eqb y x) eqn:E; cbn [orb negb].
    + apply Z.eqb_neq. lia.
    + pose proof (indexOf_In x (pre ++ x :: l)) as P.
      assert (0 <= LogsPage.indexOf x (pre ++ x :: l))
        by (apply P, in_app_iff; right; now left).
      destruct (LogsPage.indexOf x (pre ++ x :: l) <? 0) eqn:N;
        [apply Z.ltb_lt in N; lia|].
      rewrite <- IH.
      destruct (Z.eqb_spec (LogsPage.indexOf x (pre ++ x :: l))
                           (Z.of_nat (List.length pre)));
        [apply Z.eqb_eq|apply Z.eqb_neq]; lia.
Qed.

Lemma first_occurrences_firsts pre l :
  List.map snd
    (List.filter (fun ic => LogsPage.indexOf (snd ic) (pre ++ l) =? fst ic)
       (List.combine
          (List.map Z.of_nat (List.seq (List.length pre) (List.length l)))
          l))
  = firsts pre l.
Proof.
  revert pre. induction l as [|x r IH]; intros pre; [reflexivity|].
  cbn [List.length List.seq List.map List.combine List.filter fst snd firsts].
  rewrite indexOf_app_seen.
  specialize (IH (pre ++ [x])). rewrite <- app_assoc in IH.
  cbn [List.app] in IH. rewrite length_app in IH. cbn [List.length] in IH.
  rewrite Nat.add_1_r in IH.
  destruct (List.existsb (String.eqb x) pre) eqn:E; cbn [negb List.map snd].
  - rewrite IH. clear IH. revert pre E. generalize r as l.
    assert (G : forall l pre pre',
      (forall y, List.existsb (String.eqb y) pre
                 = List.existsb (String.eqb y) pre') ->
      firsts pre l = firsts pre' l).
    { induction l as [|y l IHl]; intros p p' H; cbn [firsts]; auto.
      rewrite (H y). destruct (List.existsb (String.eqb y) p'); auto.
      f_equal. apply IHl. intros z. cbn [List.existsb]. now rewrite H. }
    intros l pre E. apply G. intros y. rewrite existsb_app.
    cbn [List.existsb]. rewrite orb_false_r.
    destruct (String.eqb_spec y x) as [->|]; [|now rewrite orb_false_r].
    now rewrite E.
  - rewrite IH. f_equal. clear IH.
    assert (G : forall l pre pre',
      (forall y, List.existsb (String.eqb y) pre
                 = List.existsb (String.eqb y) pre') ->
      firsts pre l = firsts pre' l).
    { induction l as [|y l IHl]; intros p p' H; cbn [firsts]; auto.
      rewrite (H y). destruct (List.existsb (String.eqb y) p'); auto.
      f_equal. apply IHl. intros z. cbn [List.existsb]. now rewrite H. }
    apply G. intros y. rewrite existsb_app. cbn [List.existsb].
    rewrite orb_false_r. apply orb_comm.
Qed.

Lemma firsts_spec l :
  forall seen,
  NoDup (firsts seen l) /\
  forall x, In x (firsts seen l) <->
            In x l /\ List.existsb (String.eqb x) seen = false.
Proof.
  induction l as [|y r IH]; intros seen; cbn [firsts].
  - split; [constructor|]. intros x. cbn. tauto.
  - destruct (List.existsb (String.eqb y) seen) eqn:E.
    + destruct (IH seen) as [N M]. split; [exact N|].
      intros x. rewrite M. cbn [In]. split; [tauto|].
      intros [[<-|I] F]; [congruence|tauto].
    + destruct (IH (y :: seen)) as [N M]. split.
      * constructor; auto. rewrite M. cbn [List.existsb].
        rewrite String.eqb_refl. cbn. intros [_ F]. discriminate.
      * intros x. cbn [In]. rewrite M. cbn [List.existsb].
        destruct (String.eqb_spec x y) as [->|D]; cbn [orb].
        -- split; [intros _; split; auto|auto].
        -- split; [intros [C|[I F]]; [congruence|tauto]|].
           intros [[C|I] F]; [congruence|tauto].
Qed.

End ContextFacts.

(** X29. The logs page's [getUniqueContexts]: the list holds exactly the
    non-empty contexts that occur in the logs, each of them once, in
    ascending order of their characters' codes. *)
Theorem getUniqueContexts_spec logs :
  let contexts := LogsPage.getUniqueContexts logs in
  NoDup contexts /\
  (forall c, In c contexts <->
     c <> ""%string /\ exists e, In e logs /\ Log.context e = Some c) /\
  StronglySorted (fun a b => String.compare a b = Lt) contexts.
Proof.
  cbv zeta. unfold LogsPage.getUniqueContexts, LogsPage.indexed.
  set (defined := List.flat_map _ (List.map Log.context logs)).
  pose proof (first_occurrences_firsts [] defined) as F.
  cbn [List.app List.length] in F. rewrite F. clear F.
  destruct (firsts_spec defined []) as [N M].
  assert (P := sort_perm LogsPage.default_compare (firsts [] defined)).
  assert (ND : NoDup (JSArray.sort LogsPage.default_compare
                                   (firsts [] defined))).
  { eapply Permutation_NoDup; [symmetry; exact P|exact N]. }
  split; [exact ND|]. split.
  - intros c. split.
    + intros I. apply (Permutation_in _ P) in I. apply M in I as [I _].
      subst defined. apply in_flat_map in I as (o & Io & Ic).
      apply in_map_iff in Io as (e & <- & Ie).
      destruct (Log.context e) as [s|] eqn:C; [|destruct Ic].
      destruct (String.eqb_spec s ""%string) as [->|Ne]; [destruct Ic|].
      destruct Ic as [<-|[]]. split; [exact Ne|]. now exists e.
    + intros (Ne & e & Ie & C).
      apply (Permutation_in _ (Permutation_sym P)). apply M.
      split; [|reflexivity]. subst defined. apply in_flat_map.
      exists (Some c). split; [apply in_map_iff; now exists e|].
      destruct (String.eqb_spec c ""%string); [contradiction|now left].
  - assert (S0 := sort_le_sorted LogsPage.default_compare
                    (firsts [] defined)).
    assert (Sd : StronglySorted
                   (fun a b => LogsPage.default_compare a b <= 0)
                   (JSArray.sort LogsPage.default_compare
                                 (firsts [] defined))).
    { apply S0.
      - intros a b c. rewrite !default_compare_le. apply string_le_trans.
      - intros a b. rewrite !default_compare_le.
        rewrite (String.compare_antisym b a).
        destruct (String.compare a b); cbn; [left|left|right]; congruence. }
    clear S0. revert ND Sd.
    generalize (JSArray.sort LogsPage.default_compare (firsts [] defined)).
    intros l ND Sd. induction Sd as [|a l Sl IH Fa]; [constructor|].
    inversion ND as [|? ? Na Nl]; subst. constructor; auto.
    apply Forall_forall. intros b Ib.
    rewrite Forall_forall in Fa. specialize (Fa b Ib).
    apply default_compare_le in Fa.
    destruct (String.compare a b) eqn:C; try congruence.
    apply String.compare_eq_iff in C. subst. contradiction.
Qed.
